(** * Moodstream backend: identity resolution, ingestion and playlists

    A shallow embedding of [src/routes/playlists.js], [src/routes/upload.js]
    and [src/db.js], and the properties of the specification that concern
    them.

    Conventions of the embedding.
    - A JavaScript string is a [string]; its characters are the code units
      below 256.  A value that may be [null] or [undefined] is an [option];
      the two are not told apart, as the code only tests them for truthiness.
    - A number is [NaN], an infinity, or a finite double whose value is an
      integer, held as a [Z]: [parseInt] rounds what it reads to the nearest
      double.  The integers of the store are [Z].
    - The relational store is a record of tables (lists of rows, in insertion
      order).  A statement fails only by the constraint it can violate, or
      by a number bound to a parameter of an id or of [LIMIT] that the store
      cannot read as an integer of the type; loss of connection and timeouts
      are outside the model.
    - An [async] function is a computation in the monad [M]: it threads the
      world (store, connection pool, object store, socket server, clock),
      may throw, and at every [await] lets the effects of other requests
      happen first. *)

From Stdlib Require Import ZArith String Ascii List Bool Lia DecimalString.
From Stdlib Require Import Permutation Sorted.
Import ListNotations.

Local Open Scope Z_scope.
Local Open Scope string_scope.

(* ================================================================== *)
(** ** JavaScript values and strings *)

Module JS.

(** Truthiness of a string-or-null: [null], [undefined] and [""] are falsy. *)
Definition truthy (v : option string) : bool :=
  match v with
  | Some s => negb (s =? "")
  | None => false
  end.

(** [a || b] on string-or-null values. *)
Definition or (a b : option string) : option string :=
  if truthy a then a else b.

(** [a || "lit"], whose result is a string. *)
Definition or_str (a : option string) (b : string) : string :=
  match a with
  | Some s => if s =? "" then b else s
  | None => b
  end.

(** Truthiness of an integer-or-null: [null], [undefined] and [0] are
    falsy. *)
Definition truthy_num (v : option Z) : bool :=
  match v with
  | Some n => negb (n =? 0)%Z
  | None => false
  end.

Definition or_num (a b : option Z) : option Z :=
  if truthy_num a then a else b.

(** White space and line terminators, as [String.prototype.trim] and the
    regular expression class [\s] see them: TAB, LF, VT, FF, CR, SP, NBSP. *)
Definition is_space (c : ascii) : bool :=
  let n := nat_of_ascii c in
  ((9 <=? n) && (n <=? 13) || (n =? 32) || (n =? 160))%nat.

Fixpoint trim_start (s : string) : string :=
  match s with
  | String c r => if is_space c then trim_start r else s
  | EmptyString => EmptyString
  end.

Fixpoint trim_end (s : string) : string :=
  match s with
  | String c r =>
      match trim_end r with
      | EmptyString => if is_space c then EmptyString else String c EmptyString
      | r' => String c r'
      end
  | EmptyString => EmptyString
  end.

(** [s.trim()] *)
Definition trim (s : string) : string := trim_end (trim_start s).

(** [s.split(" ")]: the pieces between single spaces; never empty. *)
Fixpoint split_space (s : string) : list string :=
  match s with
  | EmptyString => [EmptyString]
  | String c r =>
      if Ascii.eqb c " "%char then EmptyString :: split_space r
      else match split_space r with
           | p :: ps => String c p :: ps
           | [] => [String c EmptyString]
           end
  end.

Definition is_digit (c : ascii) : bool :=
  let n := nat_of_ascii c in ((48 <=? n) && (n <=? 57))%nat.

Definition digit_val (c : ascii) : Z := Z.of_nat (nat_of_ascii c) - 48.

(** The longest prefix of decimal digits of [s], read with accumulator
    [acc]; [seen] tells whether a digit has been read. *)
Fixpoint digits (s : string) (seen : bool) (acc : Z) : option Z :=
  match s with
  | String c r =>
      if is_digit c then digits r true (10 * acc + digit_val c)
      else if seen then Some acc else None
  | EmptyString => if seen then Some acc else None
  end.

(** The integer a text starts with, as [parseInt(s, 10)] reads it: leading
    white space is skipped, one sign is read, then the longest run of
    digits; [None] when there is no digit. *)
Definition parseInt_str (s : string) : option Z :=
  match trim_start s with
  | String "-" r => option_map Z.opp (digits r false 0)
  | String "+" r => digits r false 0
  | t => digits t false 0
  end.

(** A number, as far as the code meets one: [NaN], a finite number, or an
    infinity.  No fraction is ever produced, so a finite number is held by
    its value, an integer that is a double. *)
Inductive number :=
| NaN
| Num (z : Z)
| Infinity (negative : bool).

(** The double nearest to an integer, ties going to the even significand:
    the integer itself up to [2^53], 53 significant bits above, and an
    infinity from [2^1024] on. *)
Definition to_number (z : Z) : number :=
  let a := Z.abs z in
  let e := Z.log2 a - 52 in
  if (e <=? 0)%Z then Num z
  else
    let q := a / 2 ^ e in
    let r := a mod 2 ^ e in
    let half := 2 ^ (e - 1) in
    let q' := if (r <? half)%Z then q
              else if (half <? r)%Z then q + 1
              else if Z.even q then q else q + 1 in
    let v := q' * 2 ^ e in
    if (2 ^ 1024 <=? v)%Z then Infinity (z <? 0)%Z else Num (Z.sgn z * v).

(** [parseInt(v, 10)] on a request field: [undefined] is first turned into
    the string ["undefined"], which has no digits. *)
Definition parseInt (v : option string) : number :=
  match v with
  | Some s => match parseInt_str s with
              | Some z => to_number z
              | None => NaN
              end
  | None => NaN
  end.

(** [Number.isInteger(n)] and [Number.isFinite(n)], which agree where there
    are no fractions. *)
Definition isInteger (n : number) : bool :=
  match n with
  | Num _ => true
  | _ => false
  end.

Definition isFinite (n : number) : bool := isInteger n.

(** Truthiness of a number: [NaN] and [0] are falsy. *)
Definition truthy_number (n : number) : bool :=
  match n with
  | NaN => false
  | Num z => negb (z =? 0)%Z
  | Infinity _ => true
  end.

Definition or_number (a b : number) : number :=
  if truthy_number a then a else b.

(** The decimal text of an integer, as a template literal prints it. *)
Definition show (n : Z) : string := NilZero.string_of_int (Z.to_int n).

(** *** The text of a number

    [String(n)] spells a finite number with as few digits as tell it from
    its neighbours among the doubles.  Below [2^53] these are the digits of
    the integer. *)

(** Four times the bounds of the reals nearest to the double [z], which is
    at least [2^53], and whether the bounds themselves round to [z]. *)
Definition nearest4 (z : Z) : Z * Z * bool :=
  let e := Z.log2 z - 52 in
  let m := z / 2 ^ e in
  (if (m =? 2 ^ 52)%Z then 4 * z - 2 ^ e else 4 * z - 2 ^ (e + 1),
   4 * z + 2 ^ (e + 1),
   Z.even m).

Definition rounds_to (z c : Z) : bool :=
  let '(lo, hi, closed) := nearest4 z in
  if closed then ((lo <=? 4 * c) && (4 * c <=? hi))%Z
  else ((lo <? 4 * c) && (4 * c <? hi))%Z.

(** The multiple of [10^j] that rounds to [z], the nearest to [z] when there
    are two, and of these the one with the even last digit. *)
Definition candidate (z j : Z) : option Z :=
  let p := 10 ^ j in
  let c1 := z / p * p in
  let c2 := c1 + p in
  match rounds_to z c1, rounds_to z c2 with
  | true, true =>
      Some (if (z - c1 <? c2 - z)%Z then c1
            else if (c2 - z <? z - c1)%Z then c2
            else if Z.even (c1 / p) then c1 else c2)
  | true, false => Some c1
  | false, true => Some c2
  | false, false => None
  end.

Fixpoint fewest_digits (fuel : nat) (z j best : Z) : Z :=
  match fuel with
  | O => best
  | S fuel' =>
      match candidate z (j + 1) with
      | Some c => fewest_digits fuel' z (j + 1) c
      | None => best
      end
  end.

(** The integer whose digits, followed by zeros, spell the double [z],
    which is not negative. *)
Definition spelled (z : Z) : Z :=
  if (z <? 2 ^ 53)%Z then z else fewest_digits 330 z 0 z.

Fixpoint trim_zeros (s : string) : string :=
  match s with
  | EmptyString => EmptyString
  | String c r =>
      match trim_zeros r with
      | EmptyString =>
          if Ascii.eqb c "0"%char then EmptyString else String c EmptyString
      | r' => String c r'
      end
  end.

(** [String(n)]: plain digits below [10^21], and from there on the digits
    with an exponent. *)
Definition Number_toString (n : number) : string :=
  match n with
  | NaN => "NaN"
  | Infinity false => "Infinity"
  | Infinity true => "-Infinity"
  | Num z =>
      let c := spelled (Z.abs z) in
      let sign := if (z <? 0)%Z then "-" else "" in
      let ds := show c in
      if (c <? 10 ^ 21)%Z then sign ++ ds
      else
        let e := show (Z.of_nat (String.length ds) - 1) in
        match trim_zeros ds with
        | String d EmptyString => sign ++ String d ("e+" ++ e)
        | String d r => sign ++ String d ("." ++ r ++ "e+" ++ e)
        | EmptyString => sign ++ ds
        end
  end.

(** The integer a number's text spells, when the text is plain digits. *)
Definition decimal (n : number) : option Z :=
  match n with
  | Num z =>
      let c := spelled (Z.abs z) in
      if (c <? 10 ^ 21)%Z then Some (Z.sgn z * c) else None
  | _ => None
  end.

End JS.

(* ================================================================== *)
(** ** The relational store *)

(** A row of [users]. *)
Record user_row := {
  u_id : Z;
  u_name : option string;
  u_email : option string;
  u_auth_user_id : string
}.

(** A row of [playlists]. *)
Record playlist_row := {
  pl_id : Z;
  pl_user_id : Z;
  pl_name : string;
  pl_created_at : Z
}.

(** A row of [playlist_songs]. *)
Record song_row := {
  ps_playlist_id : Z;
  ps_track_id : Z;
  ps_added_at : Z
}.

(** A row of [tracks]. *)
Record track_row := {
  t_id : Z;
  t_title : string;
  t_artist_name : string;
  t_uploader_name : option string;
  t_storage_key : string;
  t_public_url : option string;
  t_cover_path : option string;
  t_cover_url : option string;
  t_size_bytes : option Z;
  t_mime_type : option string;
  t_auth_user_id : option string;
  t_user_id : option Z;
  t_duration_seconds : option Z;
  t_created_at : Z
}.

(** The columns [id, name, created_at] of a playlist, as the statements of
    the routes select and return them. *)
Record playlist_info := {
  pi_id : Z;
  pi_name : string;
  pi_created_at : Z
}.

Definition info_of (p : playlist_row) : playlist_info :=
  {| pi_id := pl_id p; pi_name := pl_name p; pi_created_at := pl_created_at p |}.

Record database := {
  users : list user_row;
  users_seq : Z;
  playlists : list playlist_row;
  playlists_seq : Z;
  playlist_songs : list song_row;
  tracks : list track_row;
  tracks_seq : Z
}.

(** What a thrown value carries: [err.message] and [err.code]. *)
Record exn := {
  message : string;
  code : option string
}.

(** The result object of the [pg] driver. *)
Record result (A : Type) := {
  rows : list A;
  rowCount : Z
}.
Arguments rows {A} _.
Arguments rowCount {A} _.

Definition returning {A : Type} (l : list A) : result A :=
  {| rows := l; rowCount := Z.of_nat (length l) |}.

(** A statement either fails, leaving the store as it was, or gives a result
    and the next store. *)
Definition statement (A : Type) : Type := database -> (exn + result A) * database.

Module Sql.

Definition unique_violation (constraint : string) : exn :=
  {| message := "duplicate key value violates unique constraint " ++ constraint;
     code := Some "23505" |}.

(** *** Numbers bound to parameters

    The driver sends a number as its text, [String(n)], and the store reads
    the text as a value of the parameter's type. *)

(** [integer] and [bigint]. *)
Inductive int_type := int4 | int8.

Definition type_name (ty : int_type) : string :=
  match ty with
  | int4 => "integer"
  | int8 => "bigint"
  end.

Definition fits (ty : int_type) (z : Z) : bool :=
  match ty with
  | int4 => ((- 2 ^ 31 <=? z) && (z <? 2 ^ 31))%Z
  | int8 => ((- 2 ^ 63 <=? z) && (z <? 2 ^ 63))%Z
  end.

Definition quoted (s : string) : string :=
  let q := String (ascii_of_nat 34) EmptyString in q ++ s ++ q.

Definition invalid_input (ty : int_type) (text : string) : exn :=
  {| message := "invalid input syntax for type " ++ type_name ty ++ ": "
                  ++ quoted text;
     code := Some "22P02" |}.

Definition out_of_range (ty : int_type) (text : string) : exn :=
  {| message := "value " ++ quoted text ++ " is out of range for type "
                  ++ type_name ty;
     code := Some "22003" |}.

(** What the store reads from a number bound to a parameter of type [ty]:
    the integer its text spells, when the text is plain digits and the
    integer is one of the type. *)
Definition read_integer (ty : int_type) (n : JS.number) : exn + Z :=
  match JS.decimal n with
  | Some v => if fits ty v then inr v
              else inl (out_of_range ty (JS.Number_toString n))
  | None => inl (invalid_input ty (JS.Number_toString n))
  end.

(** A statement with the number [n] bound to a parameter of type [ty]: it
    fails, and nothing is run, when the store cannot read the number. *)
Definition param {A : Type} (ty : int_type) (n : JS.number)
    (st : Z -> statement A) : statement A :=
  match read_integer ty n with
  | inr v => st v
  | inl e => fun d => (inl e, d)
  end.

(** [SELECT id FROM users WHERE auth_user_id = $1 LIMIT 1] *)
Definition select_user_id (auth : string) : statement Z :=
  fun d =>
    (inr (returning
            (firstn 1 (map u_id
               (filter (fun u => u_auth_user_id u =? auth) (users d))))),
     d).

(** Modelled from the spec: the schema of [users] is not among the sources.
    The data model gives [id] as a generated integer key and [auth_subject]
    (the column [auth_user_id]) as unique: at most one row per subject.

    [INSERT INTO users (name, email, auth_user_id) VALUES ($1,$2,$3)
     RETURNING id] *)
Definition insert_user (name email : option string) (auth : string)
  : statement Z :=
  fun d =>
    if existsb (fun u => u_auth_user_id u =? auth) (users d)
    then (inl (unique_violation "users_auth_user_id_key"), d)
    else
      let id := users_seq d in
      (inr (returning [id]),
       {| users := users d ++
                   [{| u_id := id; u_name := name; u_email := email;
                       u_auth_user_id := auth |}];
          users_seq := id + 1;
          playlists := playlists d;
          playlists_seq := playlists_seq d;
          playlist_songs := playlist_songs d;
          tracks := tracks d;
          tracks_seq := tracks_seq d |}).

(** Modelled from the spec: the schemas of [playlists] and [playlist_songs]
    are not among the sources.  The data model gives the ids as integers;
    the parameters compared with them or stored in them are read as
    [integer] (see [param]), the type whose values the driver hands over as
    numbers, as the routes compare them ([user_id !== userId]).

    [SELECT user_id FROM playlists WHERE id = $1 LIMIT 1] *)
Definition select_playlist_owner (playlistId : Z) : statement Z :=
  fun d =>
    (inr (returning
            (firstn 1 (map pl_user_id
               (filter (fun p => (pl_id p =? playlistId)%Z) (playlists d))))),
     d).

Definition same_pair (playlistId trackId : Z) (r : song_row) : bool :=
  ((ps_playlist_id r =? playlistId) && (ps_track_id r =? trackId))%Z.

Definition set_playlist_songs (d : database) (l : list song_row) : database :=
  {| users := users d;
     users_seq := users_seq d;
     playlists := playlists d;
     playlists_seq := playlists_seq d;
     playlist_songs := l;
     tracks := tracks d;
     tracks_seq := tracks_seq d |}.

(** [INSERT INTO playlist_songs (playlist_id, track_id, added_at)
     VALUES ($1,$2,NOW())
     ON CONFLICT (playlist_id, track_id) DO NOTHING RETURNING *]

    The conflict target is the unique index on the pair: a row that meets an
    existing pair is skipped and nothing is returned. *)
Definition insert_playlist_song (now playlistId trackId : Z)
  : statement song_row :=
  fun d =>
    if existsb (same_pair playlistId trackId) (playlist_songs d)
    then (inr (returning []), d)
    else
      let r := {| ps_playlist_id := playlistId; ps_track_id := trackId;
                  ps_added_at := now |} in
      (inr (returning [r]), set_playlist_songs d (playlist_songs d ++ [r])).

(** [DELETE FROM playlist_songs WHERE playlist_id = $1 AND track_id = $2]:
    no row is returned, [rowCount] counts the rows deleted. *)
Definition delete_playlist_song (playlistId trackId : Z)
  : statement song_row :=
  fun d =>
    let gone := filter (same_pair playlistId trackId) (playlist_songs d) in
    let kept := filter (fun r => negb (same_pair playlistId trackId r))
                       (playlist_songs d) in
    (inr {| rows := []; rowCount := Z.of_nat (length gone) |},
     set_playlist_songs d kept).

(** The values of [INSERT INTO tracks (title, artist_name, uploader_name,
    storage_key, public_url, cover_path, cover_url, size_bytes, mime_type,
    auth_user_id, user_id, created_at)]. *)
Record track_values := {
  v_title : string;
  v_artist_name : string;
  v_uploader_name : option string;
  v_storage_key : string;
  v_public_url : option string;
  v_cover_path : option string;
  v_cover_url : option string;
  v_size_bytes : option Z;
  v_mime_type : option string;
  v_auth_user_id : option string;
  v_user_id : option Z
}.

(** [INSERT INTO tracks (...) VALUES ($1,...,$11,NOW()) RETURNING *]: the
    row as stored, with its generated [id] and [created_at].  The values are
    stored as they are bound: the schema of [tracks] is not among the
    sources, and what the store makes of a [size_bytes] or a [user_id]
    outside the type of its column is left out. *)
Definition insert_track (now : Z) (v : track_values) : statement track_row :=
  fun d =>
    let r := {| t_id := tracks_seq d;
                t_title := v_title v;
                t_artist_name := v_artist_name v;
                t_uploader_name := v_uploader_name v;
                t_storage_key := v_storage_key v;
                t_public_url := v_public_url v;
                t_cover_path := v_cover_path v;
                t_cover_url := v_cover_url v;
                t_size_bytes := v_size_bytes v;
                t_mime_type := v_mime_type v;
                t_auth_user_id := v_auth_user_id v;
                t_user_id := v_user_id v;
                t_duration_seconds := None;
                t_created_at := now |} in
    (inr (returning [r]),
     {| users := users d;
        users_seq := users_seq d;
        playlists := playlists d;
        playlists_seq := playlists_seq d;
        playlist_songs := playlist_songs d;
        tracks := tracks d ++ [r];
        tracks_seq := tracks_seq d + 1 |}).

(** Insertion of [x] into a list sorted by [key], after the rows whose key
    [before] allows. *)
Fixpoint insert_by {A : Type} (key : A -> Z) (before : Z -> Z -> bool)
    (x : A) (l : list A) : list A :=
  match l with
  | [] => [x]
  | y :: r => if before (key y) (key x) then y :: insert_by key before x r
              else x :: y :: r
  end.

Definition order_by {A : Type} (key : A -> Z) (before : Z -> Z -> bool)
    (l : list A) : list A :=
  fold_left (fun acc x => insert_by key before x acc) l [].

(** [SELECT id, name, created_at FROM playlists WHERE user_id = $1
     ORDER BY created_at DESC]; rows of one instant keep their order. *)
Definition select_playlists (userId : Z) : statement playlist_info :=
  fun d =>
    (inr (returning
            (map info_of
               (order_by pl_created_at Z.geb
                  (filter (fun p => (pl_user_id p =? userId)%Z)
                          (playlists d))))),
     d).

(** A row of the listing: the membership's [track_id] and the columns of the
    track, [None] when the left join finds none. *)
Record listed_track := {
  lt_track_id : Z;
  lt_track : option track_row
}.

(** [SELECT ps.track_id, t.title, t.public_url, t.cover_url,
     t.duration_seconds FROM playlist_songs ps
     LEFT JOIN tracks t ON t.id = ps.track_id
     WHERE ps.playlist_id = $1 ORDER BY ps.added_at ASC] *)
Definition select_playlist_tracks (playlistId : Z) : statement listed_track :=
  fun d =>
    let members :=
      order_by ps_added_at Z.leb
        (filter (fun r => (ps_playlist_id r =? playlistId)%Z)
                (playlist_songs d)) in
    (inr (returning
            (flat_map
               (fun r =>
                  match filter (fun t => (t_id t =? ps_track_id r)%Z)
                               (tracks d) with
                  | [] => [{| lt_track_id := ps_track_id r;
                              lt_track := None |}]
                  | ts => map (fun t => {| lt_track_id := ps_track_id r;
                                           lt_track := Some t |}) ts
                  end)
               members)),
     d).

(** Modelled from the spec: the schema of [playlists] is not among the
    sources; [id] is a generated integer key.

    [INSERT INTO playlists (user_id, name) VALUES ($1, $2)
     RETURNING id, name, created_at] *)
Definition insert_playlist (now userId : Z) (name : string)
  : statement playlist_info :=
  fun d =>
    let r := {| pl_id := playlists_seq d; pl_user_id := userId;
                pl_name := name; pl_created_at := now |} in
    (inr (returning [info_of r]),
     {| users := users d;
        users_seq := users_seq d;
        playlists := playlists d ++ [r];
        playlists_seq := playlists_seq d + 1;
        playlist_songs := playlist_songs d;
        tracks := tracks d;
        tracks_seq := tracks_seq d |}).

End Sql.

(* ================================================================== *)
(** ** The object store, the socket server and the world *)

(** An object of the store: bucket, key, content and content type. *)
Record stored_object := {
  o_bucket : string;
  o_key : string;
  o_bytes : string;
  o_content_type : string
}.

(** The object store: what it holds, whether it answers, and every upload
    that was attempted on it (the last first). *)
Record object_store := {
  objects : list stored_object;
  available : bool;
  attempts : list (string * string)
}.

(** The normalized track object of the upload response and of [new-track]. *)
Record track := {
  id : Z;
  title : string;
  artist_name : string;
  uploader_name : option string;
  public_url : option string;
  cover_url : option string;
  storage_key : option string;
  size_bytes : option Z;
  mime_type : option string;
  created_at : Z;
  auth_user_id : option string;
  user_id : option Z
}.

Inductive payload :=
| TrackAdded (playlistId trackId : Z) (added : bool)
| TrackRemoved (playlistId trackId : Z) (removed : bool)
| Created (playlist : option playlist_info) (userId : Z)
| Uploaded (t : track).

(** What [io.emit(name, payload)] sends to every connected socket. *)
Record event := {
  ev_name : string;
  ev_payload : payload
}.

(** The world a request runs in.  [io] is what [app.get("io")] gives: the
    socket server with the events emitted so far (the last first), or
    [None] when none was registered.  [pool_in_use] counts the clients
    checked out of the connection pool. *)
Record world := {
  db : database;
  storage : object_store;
  io : option (list event);
  now : Z;
  pool_in_use : nat
}.

Definition set_db (w : world) (d : database) : world :=
  {| db := d; storage := storage w; io := io w; now := now w;
     pool_in_use := pool_in_use w |}.

Definition set_storage (w : world) (s : object_store) : world :=
  {| db := db w; storage := s; io := io w; now := now w;
     pool_in_use := pool_in_use w |}.

Definition set_io (w : world) (e : option (list event)) : world :=
  {| db := db w; storage := storage w; io := e; now := now w;
     pool_in_use := pool_in_use w |}.

Definition set_pool_in_use (w : world) (n : nat) : world :=
  {| db := db w; storage := storage w; io := io w; now := now w;
     pool_in_use := n |}.

(* ================================================================== *)
(** ** Asynchronous computations *)

(** The state of a running request: the world, and what the other requests
    do to it at each of the coming suspension points. *)
Record runtime := {
  rt_world : world;
  rt_others : list (world -> world)
}.

(** An [async] function returning an [A]: it ends by a value or by a throw. *)
Definition M (A : Type) : Type := runtime -> (exn + A) * runtime.

Definition ret {A : Type} (a : A) : M A := fun rt => (inr a, rt).

Definition bind {A B : Type} (m : M A) (k : A -> M B) : M B :=
  fun rt =>
    match m rt with
    | (inr a, rt') => k a rt'
    | (inl e, rt') => (inl e, rt')
    end.

Definition throw {A : Type} (e : exn) : M A := fun rt => (inl e, rt).

(** [try { m } catch (e) { h e }] *)
Definition try_catch {A : Type} (m : M A) (h : exn -> M A) : M A :=
  fun rt =>
    match m rt with
    | (inr a, rt') => (inr a, rt')
    | (inl e, rt') => h e rt'
    end.

(** [try { m } finally { f }]: [f] runs on both ways out of [m]. *)
Definition try_finally {A : Type} (m : M A) (f : M unit) : M A :=
  fun rt =>
    match m rt with
    | (r, rt') =>
        match f rt' with
        | (inr _, rt'') => (r, rt'')
        | (inl e, rt'') => (inl e, rt'')
        end
    end.

(** A synchronous step on the world. *)
Definition sync {A : Type} (f : world -> A * world) : M A :=
  fun rt =>
    let (a, w) := f (rt_world rt) in
    (inr a, {| rt_world := w; rt_others := rt_others rt |}).

(** [await op]: the request is suspended, the other requests move the world,
    then the operation completes on it. *)
Definition await {A : Type} (op : world -> (exn + A) * world) : M A :=
  fun rt =>
    let w := match rt_others rt with
             | f :: _ => f (rt_world rt)
             | [] => rt_world rt
             end in
    let (r, w') := op w in
    (r, {| rt_world := w'; rt_others := tl (rt_others rt) |}).

Declare Scope async_scope.
Delimit Scope async_scope with async.
Notation "x <- m ;; k" := (bind m (fun x => k))
  (at level 61, m at next level, right associativity) : async_scope.
Notation "m ;;; k" := (bind m (fun _ => k))
  (at level 61, right associativity) : async_scope.
Local Open Scope async_scope.

(** A request served with no other request in flight. *)
Definition alone (w : world) : runtime := {| rt_world := w; rt_others := [] |}.

(** What a computation gives when it runs alone in [w], and the world it
    leaves. *)
Definition run {A : Type} (m : M A) (w : world) : (exn + A) * world :=
  let (r, rt) := m (alone w) in (r, rt_world rt).

(* ================================================================== *)
(** ** [src/db.js] *)

(** [pool.connect()]: one more client is checked out. *)
Definition pool_connect : M unit :=
  await (fun w => (inr tt, set_pool_in_use w (S (pool_in_use w)))).

(** [client.release()] *)
Definition client_release : M unit :=
  sync (fun w => (tt, set_pool_in_use w (Nat.pred (pool_in_use w)))).

(** [client.query(text, params)], where [st] reads the clock for [NOW()]. *)
Definition client_query {A : Type} (st : Z -> statement A) : M (result A) :=
  await (fun w => let (r, d) := st (now w) (db w) in (r, set_db w d)).

(** [query(text, params)] for a statement that reads [NOW()]: a client is
    taken from the pool, the statement is run on it, a failure is logged and
    thrown again, and the client is released on both ways out. *)
Definition query_now {A : Type} (st : Z -> statement A) : M (result A) :=
  pool_connect ;;;
  try_finally
    (try_catch (client_query st) (fun err => throw err))
    client_release.

(** [query(text, params)] for a statement that does not read the clock. *)
Definition query {A : Type} (st : statement A) : M (result A) :=
  query_now (fun _ => st).

(** [Date.now()] *)
Definition Date_now : M Z := sync (fun w => (now w, w)).

(* ================================================================== *)
(** ** Requests, responses and the services outside *)

(** A user of the identity provider. *)
Record supabase_user := {
  su_id : string;
  su_email : option string;
  su_metadata_name : option string
}.

(** What [supabase.auth.getUser(token)] settles to: a rejection, or
    [{ data: { user }, error }]. *)
Inductive getUser_outcome :=
| Rejected (e : exn)
| Resolved (user : option supabase_user) (error : option exn).

(** The object a [user] cookie parses to, as far as the code reads it. *)
Record cookie_user := {
  cu_name : option string;
  cu_email : option string
}.

(** The collaborators the code calls and this development does not model:
    the identity provider, the URL scheme of the object store, and
    [JSON.parse] followed by the reading of [name] and [email] ([None]
    when that throws). *)
Record services := {
  auth_getUser : string -> getUser_outcome;
  storage_getPublicUrl : string -> string -> option string;
  JSON_parse : string -> option cookie_user
}.

(** A file as [multer] hands it over. *)
Record file := {
  originalname : option string;
  mimetype : option string;
  size : Z;
  buffer : string
}.

(** The fields of [req.body] the routes read. *)
Record body_fields := {
  b_trackId : option string;
  b_name : option string;
  b_title : option string;
  b_artist_name : option string;
  b_artist : option string;
  b_uploader_name : option string;
  b_userId : option string
}.

Record request := {
  headers_authorization : option string;
  cookies_authorization : option string;
  cookies_token : option string;
  cookies_user : option string;
  params_playlistId : option string;
  body : option body_fields;
  files_audio : option file;
  files_cover : option file
}.

Inductive json :=
| JError (error : string)
| JErrorDetail (error : string) (detail : string) (code : option string)
| JAdded (success : bool) (inserted : bool)
| JRemoved (success : bool) (deletedRows : Z)
| JPlaylists (playlists : list (playlist_info * list Sql.listed_track))
             (sample_image : string)
| JCreated (playlist : option playlist_info)
| JUploaded (message : string) (t : track).

Record response := {
  status : Z;
  sent : json
}.

(** [res.status(n).json(j)] *)
Definition status_json (n : Z) (j : json) : response :=
  {| status := n; sent := j |}.

(** [res.json(j)] *)
Definition res_json (j : json) : response := status_json 200 j.

(** [io.emit(name, p)] when a socket server is registered; the code guards
    the call with [if (io)] and swallows what it throws. *)
Definition emit (name : string) (p : payload) : M unit :=
  sync (fun w =>
          (tt, match io w with
               | Some evs =>
                   set_io w (Some ({| ev_name := name; ev_payload := p |} :: evs))
               | None => w
               end)).

(* ================================================================== *)
(** ** [src/routes/playlists.js] *)

Module Playlists.
Section Routes.

Variable svc : services.

Definition SAMPLE_IMAGE_PATH : string :=
  "/mnt/data/Screenshot 2025-11-25 at 11.38.56 PM.png".

(** [dbQuery(text, params)]: the module of [src/db.js] exports a function
    [query], which is the branch taken. *)
Definition dbQuery {A : Type} (st : statement A) : M (result A) := query st.

(** [dbQuery] for a statement that reads [NOW()]. *)
Definition dbQuery_now {A : Type} (st : Z -> statement A) : M (result A) :=
  query_now st.

Definition undefined_property (name : string) : exn :=
  {| message := "Cannot read properties of undefined (reading '" ++ name ++ "')";
     code := None |}.

(** [supabase.auth.getUser(token).catch((e) => ({ error: e }))]: a rejection
    becomes an answer without data. *)
Definition getUser_caught (token : string)
  : M (option supabase_user * option exn) :=
  await (fun w =>
           (inr match auth_getUser svc token with
                | Rejected e => (None, Some e)
                | Resolved user error => (user, error)
                end, w)).

(** The local integer user id behind the bearer token of the request, or
    [None] ([null]). *)
Definition getLocalUserIdFromToken (req : request) : M (option Z) :=
  try_catch
    (let authHeader :=
       JS.or (JS.or (headers_authorization req) (cookies_authorization req))
             (cookies_token req) in
     let token :=
       JS.or match authHeader with
             | Some h => nth_error (JS.split_space h) 1
             | None => None
             end
             authHeader in
     match token with
     | None => ret None
     | Some tok =>
         if negb (JS.truthy token) then ret None else
         answer <- getUser_caught tok ;;
         match answer with
         | (_, Some _) => ret None
         | (None, None) => ret None
         | (Some user, None) =>
             let supaUserId := su_id user in
             q <- dbQuery (Sql.select_user_id supaUserId) ;;
             match rows q with
             | found :: _ => ret (Some found)
             | [] =>
                 insert <- dbQuery (Sql.insert_user
                                      (JS.or (su_metadata_name user) None)
                                      (JS.or (su_email user) None)
                                      supaUserId) ;;
                 match rows insert with
                 | created :: _ => ret (Some created)
                 | [] => throw (undefined_property "id")
                 end
             end
         end
     end)
    (fun _ => ret None).

Definition Unauthorized : response := status_json 401 (JError "Unauthorized").
Definition Forbidden : response := status_json 403 (JError "Forbidden").
Definition not_integers : response :=
  status_json 400 (JError "playlistId and trackId must be integers").

(** [Promise.all(l.map(f))], the calls made in the order of the list. *)
Fixpoint all {A B : Type} (f : A -> M B) (l : list A) : M (list B) :=
  match l with
  | [] => ret []
  | x :: r => y <- f x ;; ys <- all f r ;; ret (y :: ys)
  end.

(** [GET /] *)
Definition listPlaylists (req : request) : M response :=
  try_catch
    (userId <- getLocalUserIdFromToken req ;;
     match userId with
     | None => ret Unauthorized
     | Some uid =>
         if negb (JS.truthy_num userId) then ret Unauthorized else
         playlistsRes <- dbQuery (Sql.select_playlists uid) ;;
         withTracks <- all (fun pl =>
                              tRes <- dbQuery (Sql.select_playlist_tracks (pi_id pl)) ;;
                              ret (pl, rows tRes))
                           (rows playlistsRes) ;;
         ret (res_json (JPlaylists withTracks SAMPLE_IMAGE_PATH))
     end)
    (fun _ => ret (status_json 500 (JError "Failed to list playlists"))).

(** [POST /] *)
Definition createPlaylist (req : request) : M response :=
  try_catch
    (userId <- getLocalUserIdFromToken req ;;
     match userId with
     | None => ret Unauthorized
     | Some uid =>
         if negb (JS.truthy_num userId) then ret Unauthorized else
         let name := match body req with
                     | Some b => match b_name b with
                                 | Some n => JS.trim n
                                 | None => ""
                                 end
                     | None => ""
                     end in
         if name =? "" then ret (status_json 400 (JError "Name is required")) else
         r <- dbQuery_now (fun t => Sql.insert_playlist t uid name) ;;
         let created := hd_error (rows r) in
         emit "playlist-created" (Created created uid) ;;;
         ret (status_json 201 (JCreated created))
     end)
    (fun _ => ret (status_json 500 (JError "Failed to create playlist"))).

(** The two ids of an add or remove request: [parseInt] of the route
    parameter, then of [req.body.trackId], which throws when the request has
    no body.  [Number.isInteger] holds of the numbers that are [JS.Num]. *)
Definition read_ids (req : request) : M (JS.number * JS.number) :=
  let playlistId := JS.parseInt (params_playlistId req) in
  match body req with
  | None => throw (undefined_property "trackId")
  | Some b => ret (playlistId, JS.parseInt (b_trackId b))
  end.

Definition handleAddTrack (req : request) : M response :=
  try_catch
    (userId <- getLocalUserIdFromToken req ;;
     match userId with
     | None => ret Unauthorized
     | Some uid =>
         if negb (JS.truthy_num userId) then ret Unauthorized else
         ids <- read_ids req ;;
         match ids with
         | (JS.Num playlistId, JS.Num trackId) =>
             (* verify ownership *)
             plRes <- dbQuery (Sql.param Sql.int4 (JS.Num playlistId)
                                 Sql.select_playlist_owner) ;;
             match rows plRes with
             | [] => ret Forbidden
             | owner :: _ =>
                 if negb (owner =? uid)%Z then ret Forbidden else
                 (* insert if not exists *)
                 insertRes <- dbQuery_now (fun t =>
                                Sql.param Sql.int4 (JS.Num playlistId) (fun p =>
                                Sql.param Sql.int4 (JS.Num trackId) (fun tr =>
                                  Sql.insert_playlist_song t p tr))) ;;
                 let inserted := (0 <? Z.of_nat (length (rows insertRes)))%Z in
                 emit "playlist-updated"
                      (TrackAdded playlistId trackId inserted) ;;;
                 ret (res_json (JAdded true inserted))
             end
         | _ => ret not_integers
         end
     end)
    (fun _ => ret (status_json 500 (JError "Failed to add track to playlist"))).

Definition handleRemoveTrack (req : request) : M response :=
  try_catch
    (userId <- getLocalUserIdFromToken req ;;
     match userId with
     | None => ret Unauthorized
     | Some uid =>
         if negb (JS.truthy_num userId) then ret Unauthorized else
         ids <- read_ids req ;;
         match ids with
         | (JS.Num playlistId, JS.Num trackId) =>
             (* verify ownership *)
             plRes <- dbQuery (Sql.param Sql.int4 (JS.Num playlistId)
                                 Sql.select_playlist_owner) ;;
             match rows plRes with
             | [] => ret Forbidden
             | owner :: _ =>
                 if negb (owner =? uid)%Z then ret Forbidden else
                 del <- dbQuery (Sql.param Sql.int4 (JS.Num playlistId) (fun p =>
                                 Sql.param Sql.int4 (JS.Num trackId) (fun tr =>
                                   Sql.delete_playlist_song p tr))) ;;
                 emit "playlist-updated"
                      (TrackRemoved playlistId trackId true) ;;;
                 ret (res_json (JRemoved true (rowCount del)))
             end
         | _ => ret not_integers
         end
     end)
    (fun _ => ret (status_json 500
                     (JError "Failed to remove track from playlist"))).

(** *** The router *)

Inductive verb := GET | POST.

(** A piece of a route path: a literal segment or a named parameter. *)
Inductive piece :=
| Lit (s : string)
| Param (name : string).

Record route := {
  r_verb : verb;
  r_path : list piece;
  r_handler : request -> M response
}.

(** The routes in the order they are registered. *)
Definition router : list route :=
  [ {| r_verb := GET; r_path := []; r_handler := listPlaylists |};
    {| r_verb := POST; r_path := []; r_handler := createPlaylist |};
    (* preferred *)
    {| r_verb := POST; r_path := [Param "playlistId"; Lit "add-track"];
       r_handler := handleAddTrack |};
    {| r_verb := POST; r_path := [Param "playlistId"; Lit "remove-track"];
       r_handler := handleRemoveTrack |};
    (* backward-compatible (older clients) *)
    {| r_verb := POST; r_path := [Param "playlistId"; Lit "add"];
       r_handler := handleAddTrack |};
    {| r_verb := POST; r_path := [Param "playlistId"; Lit "remove"];
       r_handler := handleRemoveTrack |} ].

Definition verb_eqb (a b : verb) : bool :=
  match a, b with
  | GET, GET | POST, POST => true
  | _, _ => false
  end.

(** The parameters a path binds when it fits the pattern: a literal fits its
    own text, a parameter any segment that is not empty.  The paths are
    taken as they are registered: the framework also takes the letters of a
    literal in the other case and one more slash at the end, and decodes a
    parameter before it hands it over; such spellings are left out. *)
Fixpoint match_path (pat : list piece) (path : list string)
  : option (list (string * string)) :=
  match pat, path with
  | [], [] => Some []
  | Lit s :: pat', seg :: path' =>
      if seg =? s then match_path pat' path' else None
  | Param name :: pat', seg :: path' =>
      if seg =? "" then None
      else option_map (cons (name, seg)) (match_path pat' path')
  | _, _ => None
  end.

Fixpoint lookup_param (name : string) (ps : list (string * string))
  : option string :=
  match ps with
  | [] => None
  | (k, v) :: r => if k =? name then Some v else lookup_param name r
  end.

(** [req.params] as the matched route fills it. *)
Definition with_params (req : request) (ps : list (string * string))
  : request :=
  {| headers_authorization := headers_authorization req;
     cookies_authorization := cookies_authorization req;
     cookies_token := cookies_token req;
     cookies_user := cookies_user req;
     params_playlistId := lookup_param "playlistId" ps;
     body := body req;
     files_audio := files_audio req;
     files_cover := files_cover req |}.

(** The first registered route that fits the verb and the path serves the
    request; [None] when no route does. *)
Fixpoint dispatch_in (rs : list route) (v : verb) (path : list string)
    (req : request) : option (M response) :=
  match rs with
  | [] => None
  | r :: rs' =>
      if verb_eqb (r_verb r) v then
        match match_path (r_path r) path with
        | Some ps => Some (r_handler r (with_params req ps))
        | None => dispatch_in rs' v path req
        end
      else dispatch_in rs' v path req
  end.

Definition dispatch : verb -> list string -> request -> option (M response) :=
  dispatch_in router.

End Routes.
End Playlists.

(* ================================================================== *)
(** ** [src/routes/upload.js] *)

Module Upload.
Section Routes.

Variable svc : services.

(** Local fallback for testing. *)
Definition LOCAL_TEST_PATH : string :=
  "/mnt/data/Screenshot 2025-11-25 at 10.04.22 PM.png".

(** [s.replace(/\s+/g, "_")]: every maximal run of white space becomes one
    underscore; [in_run] tells that the previous character was white space. *)
Fixpoint spaces_to_underscore (s : string) (in_run : bool) : string :=
  match s with
  | EmptyString => EmptyString
  | String c r =>
      if JS.is_space c then
        if in_run then spaces_to_underscore r true
        else String "_" (spaces_to_underscore r true)
      else String c (spaces_to_underscore r false)
  end.

(** The class [[a-zA-Z0-9_\-\.]]. *)
Definition is_safe (c : ascii) : bool :=
  let n := nat_of_ascii c in
  ((97 <=? n) && (n <=? 122) || (65 <=? n) && (n <=? 90)
   || (48 <=? n) && (n <=? 57)
   || (n =? 95) || (n =? 45) || (n =? 46))%nat.

(** [s.replace(/[^a-zA-Z0-9_\-\.]/g, "")] *)
Fixpoint keep_safe (s : string) : string :=
  match s with
  | EmptyString => EmptyString
  | String c r => if is_safe c then String c (keep_safe r) else keep_safe r
  end.

(** Make filenames safe. *)
Definition makeSafeName (name : option string) : string :=
  keep_safe (spaces_to_underscore (JS.or_str name "file") false).

Definition upload_failed : exn :=
  {| message := "The resource could not be uploaded"; code := None |}.

(** [supabase.storage.from(bucket).upload(filePath, buffer,
    { contentType, upsert: false })]: the call is recorded; it fails when
    the store does not answer or, as nothing is overwritten, when the key is
    taken. *)
Definition storage_upload (bucket filePath bytes : string)
    (mime : option string) : world -> (exn + unit) * world :=
  fun w =>
    let s := storage w in
    let taken := existsb (fun o => (o_bucket o =? bucket) && (o_key o =? filePath))
                         (objects s) in
    if available s && negb taken then
      (inr tt,
       set_storage w
         {| objects := {| o_bucket := bucket; o_key := filePath;
                          o_bytes := bytes;
                          o_content_type := JS.or_str mime "" |} :: objects s;
            available := available s;
            attempts := (bucket, filePath) :: attempts s |})
    else
      (inl upload_failed,
       set_storage w
         {| objects := objects s;
            available := available s;
            attempts := (bucket, filePath) :: attempts s |}).

(** Upload helper: the public URL, or a throw on error. *)
Definition uploadBuffer (bucket filePath bytes : string) (mime : option string)
  : M (option string) :=
  await (storage_upload bucket filePath bytes mime) ;;;
  ret (JS.or (storage_getPublicUrl svc bucket filePath) None).

Definition required : response :=
  status_json 400 (JError "Title and audio file are required.").

(** [req.body?.f] *)
Definition field (req : request) (f : body_fields -> option string)
  : option string :=
  match body req with
  | Some b => f b
  | None => None
  end.

(** Step 1 of the uploader's name: [body.uploader_name], trimmed. *)
Definition uploader_from_body (req : request) : option string :=
  JS.or (Some (JS.trim (JS.or_str (field req b_uploader_name) ""))) None.

(** Step 2: the Supabase user behind the bearer token of the header.  Gives
    [authUserId] and the name so far; a throw of the provider is caught and
    leaves both as they were. *)
Definition uploader_from_supabase (req : request) (uploaderName : option string)
  : M (option string * option string) :=
  try_catch
    (let token := match headers_authorization req with
                  | Some h => nth_error (JS.split_space h) 1
                  | None => None
                  end in
     match token with
     | None => ret (None, uploaderName)
     | Some tok =>
         if negb (JS.truthy token) then ret (None, uploaderName) else
         userData <- await (fun w =>
                              (match auth_getUser svc tok with
                               | Rejected e => inl e
                               | Resolved user _ => inr user
                               end, w)) ;;
         match userData with
         | Some user =>
             ret (JS.or (Some (su_id user)) None,
                  if negb (JS.truthy uploaderName)
                  then JS.or (JS.or (su_metadata_name user) (su_email user)) None
                  else uploaderName)
         | None => ret (None, uploaderName)
         end
     end)
    (fun _ => ret (None, uploaderName)).

(** Step 3: the [user] cookie set by the Google OAuth callback. *)
Definition uploader_from_cookie (req : request) (uploaderName : option string)
  : option string :=
  if negb (JS.truthy uploaderName) && JS.truthy (cookies_user req) then
    match cookies_user req with
    | Some c =>
        match JSON_parse svc c with
        | Some cookieUser =>
            JS.or (JS.or (cu_name cookieUser) (cu_email cookieUser)) uploaderName
        | None => uploaderName
        end
    | None => uploaderName
    end
  else uploaderName.

(** What the chain of steps 1, 2, 3 and 5 leaves in [uploaderName], with the
    [authUserId] found on the way. *)
Definition resolve_uploader (req : request) (artistName : string)
  : M (option string * option string) :=
  let uploaderName := uploader_from_body req in
  found <- uploader_from_supabase req uploaderName ;;
  let (authUserId, uploaderName) := found in
  let uploaderName := uploader_from_cookie req uploaderName in
  (* final fallback: if still nothing, use artistName *)
  let uploaderName :=
    if negb (JS.truthy uploaderName) then Some artistName else uploaderName in
  ret (authUserId, uploaderName).

(** Step 4: the legacy numeric user id, [null] unless [Number.isFinite]
    holds of what [parseInt] gives. *)
Definition legacy_user_id (req : request) : option Z :=
  if JS.truthy (field req b_userId) then
    match JS.parseInt (field req b_userId) with
    | JS.Num n => Some n
    | _ => None
    end
  else None.

(** The audio upload: URL and storage key, the debug pair on failure. *)
Definition upload_audio (timestamp : Z) (audio : file)
  : M (option string * string) :=
  let safeAudio := makeSafeName (originalname audio) in
  let audioPath := "tracks/" ++ JS.show timestamp ++ "_" ++ safeAudio in
  try_catch
    (audioUrl <- uploadBuffer "Tracks" audioPath (buffer audio) (mimetype audio) ;;
     ret (audioUrl, audioPath))
    (fun _ =>
       ret (Some LOCAL_TEST_PATH,
            "debug/" ++ JS.show timestamp ++ "_" ++ safeAudio)).

(** The cover upload: path and URL. *)
Definition upload_cover (timestamp : Z) (cover : option file)
  : M (option string * option string) :=
  match cover with
  | Some cover =>
      let safeCover := makeSafeName (originalname cover) in
      let coverPath := "covers/" ++ JS.show timestamp ++ "_" ++ safeCover in
      try_catch
        (coverUrl <- uploadBuffer "Tracks" coverPath (buffer cover)
                                  (mimetype cover) ;;
         ret (Some coverPath, coverUrl))
        (fun _ =>
           ret (Some ("debug/covers/" ++ JS.show timestamp ++ "_"
                        ++ makeSafeName (originalname cover)),
                Some LOCAL_TEST_PATH))
  | None => ret (None, Some LOCAL_TEST_PATH)
  end.

(** The final normalized track object. *)
Definition normalize (inserted : track_row) (v : Sql.track_values)
    (artistName : string) : track :=
  {| id := t_id inserted;
     title := t_title inserted;
     artist_name := t_artist_name inserted;
     uploader_name := JS.or (JS.or (t_uploader_name inserted)
                                   (Sql.v_uploader_name v))
                            (Some artistName);
     public_url := JS.or (JS.or (t_public_url inserted) (Sql.v_public_url v))
                         (Some LOCAL_TEST_PATH);
     cover_url := JS.or (JS.or (t_cover_url inserted) (Sql.v_cover_url v))
                        (Some LOCAL_TEST_PATH);
     storage_key := JS.or (Some (t_storage_key inserted))
                          (Some (Sql.v_storage_key v));
     size_bytes := JS.or_num (t_size_bytes inserted) (Sql.v_size_bytes v);
     mime_type := JS.or (t_mime_type inserted) (Sql.v_mime_type v);
     created_at := t_created_at inserted;
     auth_user_id := JS.or (t_auth_user_id inserted) (Sql.v_auth_user_id v);
     user_id := JS.or_num (t_user_id inserted) (Sql.v_user_id v) |}.

(** [POST /upload-track] *)
Definition uploadTrack (req : request) : M response :=
  try_catch
    (let audio := files_audio req in
     let cover := files_cover req in
     let title := JS.trim (JS.or_str (field req b_title) "") in
     let artistInput :=
       JS.trim (JS.or_str (JS.or (field req b_artist_name) (field req b_artist))
                          "") in
     let artistName := JS.or_str (Some artistInput) "Unknown Artist" in
     match audio with
     | None => ret required
     | Some audio =>
         if title =? "" then ret required else
         who <- resolve_uploader req artistName ;;
         let (authUserId, uploaderName) := who in
         let legacyUserId := legacy_user_id req in
         timestamp <- Date_now ;;
         let sizeBytes := JS.or_num (Some (size audio)) None in
         let mimeType := JS.or (mimetype audio) None in
         a <- upload_audio timestamp audio ;;
         let (audioUrl, audioStorageKey) := a in
         c <- upload_cover timestamp cover ;;
         let (coverPath, coverUrl) := c in
         let v := {| Sql.v_title := title;
                     Sql.v_artist_name := artistName;
                     Sql.v_uploader_name := uploaderName;
                     Sql.v_storage_key := audioStorageKey;
                     Sql.v_public_url := audioUrl;
                     Sql.v_cover_path := coverPath;
                     Sql.v_cover_url := coverUrl;
                     Sql.v_size_bytes := sizeBytes;
                     Sql.v_mime_type := mimeType;
                     Sql.v_auth_user_id := authUserId;
                     Sql.v_user_id := legacyUserId |} in
         outcome <- try_catch
                      (result <- query_now (fun t => Sql.insert_track t v) ;;
                       ret (inr (hd_error (rows result))))
                      (fun err =>
                         ret (inl (status_json 500
                                     (JErrorDetail "Database insert failed"
                                        (message err)
                                        (JS.or (code err) None))))) ;;
         match outcome with
         | inl failed => ret failed
         | inr None => throw (Playlists.undefined_property "id")
         | inr (Some inserted) =>
             let track := normalize inserted v artistName in
             emit "new-track" (Uploaded track) ;;;
             ret (res_json (JUploaded "Track uploaded successfully" track))
         end
     end)
    (fun err =>
       ret (status_json 500 (JError (JS.or_str (Some (message err))
                                               "Upload failed")))).

End Routes.
End Upload.

(* ================================================================== *)
(** ** The vocabulary of the statements *)

Module Facts.
Section Vocabulary.

Variable svc : services.

(** The token the resolver reads from a request: the piece after the first
    space of the authorization header or cookie, or the whole of it. *)
Definition token (req : request) : option string :=
  let authHeader :=
    JS.or (JS.or (headers_authorization req) (cookies_authorization req))
          (cookies_token req) in
  let t := JS.or match authHeader with
                 | Some h => nth_error (JS.split_space h) 1
                 | None => None
                 end
                 authHeader in
  if JS.truthy t then t else None.

(** The provider's user behind the request, when the provider answers with
    one and without error. *)
Definition verified (req : request) : option supabase_user :=
  match token req with
  | Some tok =>
      match auth_getUser svc tok with
      | Resolved (Some user) None => Some user
      | _ => None
      end
  | None => None
  end.

(** The rows of [users] with a given subject. *)
Definition rows_of (auth : string) (d : database) : list user_row :=
  filter (fun u => u_auth_user_id u =? auth) (users d).

(** The local id the store holds for a subject. *)
Definition local_id (auth : string) (d : database) : option Z :=
  hd_error (map u_id (rows_of auth d)).

(** The store after the first sight of [user]. *)
Definition with_user (user : supabase_user) (d : database) : database :=
  snd (Sql.insert_user (JS.or (su_metadata_name user) None)
                       (JS.or (su_email user) None) (su_id user) d).

(** The owner recorded on a playlist. *)
Definition owner_of (playlistId : Z) (d : database) : option Z :=
  hd_error (map pl_user_id
              (filter (fun p => (pl_id p =? playlistId)%Z) (playlists d))).

(** Membership of a pair in [playlist_songs]. *)
Definition member (playlistId trackId : Z) (d : database) : bool :=
  existsb (Sql.same_pair playlistId trackId) (playlist_songs d).

(** The unique constraint of [users]. *)
Definition unique_subjects (d : database) : Prop :=
  NoDup (map u_auth_user_id (users d)).

(** What the resolver leaves alone: everything but the table [users]. *)
Definition same_but_users (w w' : world) : Prop :=
  playlists (db w') = playlists (db w) /\
  playlist_songs (db w') = playlist_songs (db w) /\
  tracks (db w') = tracks (db w) /\
  storage w' = storage w /\
  io w' = io w /\
  now w' = now w /\
  pool_in_use w' = pool_in_use w.

(** The event of an add. *)
Definition added_event (playlistId trackId : Z) (added : bool) : event :=
  {| ev_name := "playlist-updated";
     ev_payload := TrackAdded playlistId trackId added |}.

(** The event of a remove. *)
Definition removed_event (playlistId trackId : Z) : event :=
  {| ev_name := "playlist-updated";
     ev_payload := TrackRemoved playlistId trackId true |}.

(** The sockets after one more event. *)
Definition heard (e : event) (w : world) : world :=
  match io w with
  | Some evs => set_io w (Some (e :: evs))
  | None => w
  end.

(** The world after the owner's add. *)
Definition after_add (playlistId trackId : Z) (w : world) : world :=
  heard (added_event playlistId trackId
           (negb (member playlistId trackId (db w))))
        (set_db w (snd (Sql.insert_playlist_song (now w) playlistId trackId
                          (db w)))).

(** The world after the owner's remove. *)
Definition after_remove (playlistId trackId : Z) (w : world) : world :=
  heard (removed_event playlistId trackId)
        (set_db w (snd (Sql.delete_playlist_song playlistId trackId (db w)))).

(** The number of rows of a pair. *)
Definition count_pair (playlistId trackId : Z) (d : database) : Z :=
  Z.of_nat (length (filter (Sql.same_pair playlistId trackId)
                           (playlist_songs d))).

(** The title of a submission, as the upload route reads it. *)
Definition title_of (req : request) : string :=
  JS.trim (JS.or_str (Upload.field req b_title) "").

(** The resolved artist name of a submission. *)
Definition artist_of (req : request) : string :=
  JS.or_str
    (Some (JS.trim (JS.or_str (JS.or (Upload.field req b_artist_name)
                                     (Upload.field req b_artist)) "")))
    "Unknown Artist".

(** The provider's user behind the second word of the authorization header,
    which is all the upload route looks at: a header of one word and the
    cookies, which the resolver reads, are not tried, and an error the
    provider reports beside a user is not looked at. *)
Definition provider_user (req : request) : option supabase_user :=
  match headers_authorization req with
  | Some h =>
      match nth_error (JS.split_space h) 1 with
      | Some tok =>
          if JS.truthy (Some tok) then
            match auth_getUser svc tok with
            | Resolved user _ => user
            | Rejected _ => None
            end
          else None
      | None => None
      end
  | None => None
  end.

(** The sources of the uploader's name. *)

(** 1. The explicit uploader-name field of the request. *)
Definition explicit_name (req : request) : option string :=
  option_map JS.trim (Upload.field req b_uploader_name).

(** 2. The identity provider's profile name, or else its email, for the
    user behind the second word of the authorization header. *)
Definition provider_name (req : request) : option string :=
  match provider_user req with
  | Some user => JS.or (su_metadata_name user) (su_email user)
  | None => None
  end.


(** 3. The display name carried by the legacy cookie: its name, or else its
    email. *)
Definition cookie_name (req : request) : option string :=
  match cookies_user req with
  | Some c =>
      if c =? "" then None else
      match JSON_parse svc c with
      | Some cookieUser => JS.or (cu_name cookieUser) (cu_email cookieUser)
      | None => None
      end
  | None => None
  end.

(** First non-empty wins; the last source stands when all before it are
    empty. *)
Fixpoint first_non_empty (sources : list (option string)) (last : string)
  : string :=
  match sources with
  | [] => last
  | Some s :: rest => if s =? "" then first_non_empty rest last else s
  | None :: rest => first_non_empty rest last
  end.

(** The uploader's name by the chain of the route. *)
Definition uploader_by_chain (req : request) : string :=
  first_non_empty [explicit_name req; provider_name req; cookie_name req]
                  (artist_of req).


(** The key under which the audio of a submission is uploaded in [w]. *)
Definition audio_key (w : world) (audio : file) : string :=
  "tracks/" ++ JS.show (now w) ++ "_"
    ++ Upload.makeSafeName (originalname audio).

(** Whether the upload of the audio fails in [w]. *)
Definition audio_upload_fails (w : world) (audio : file) : bool :=
  match fst (Upload.storage_upload "Tracks" (audio_key w audio)
               (buffer audio) (mimetype audio) w) with
  | inl _ => true
  | inr _ => false
  end.

End Vocabulary.
End Facts.

(* ================================================================== *)
(** ** A small deployment, used to run the code on concrete requests *)

Module Sample.

Definition alice : supabase_user :=
  {| su_id := "a1b2-alice"; su_email := Some "alice@example.org";
     su_metadata_name := Some "Alice" |}.

Definition bob : supabase_user :=
  {| su_id := "c3d4-bob"; su_email := Some "bob@example.org";
     su_metadata_name := None |}.

Definition invalid_token : exn :=
  {| message := "invalid JWT"; code := None |}.

(** The text [{"name":"Carol"}]. *)
Definition carol_cookie : string :=
  let q := String (ascii_of_nat 34) EmptyString in
  "{" ++ q ++ "name" ++ q ++ ":" ++ q ++ "Carol" ++ q ++ "}".

(** A provider that knows two tokens, a store that serves its objects under
    one base URL, and a parser that knows one cookie. *)
Definition svc : services :=
  {| auth_getUser := fun tok =>
       if tok =? "tok-alice" then Resolved (Some alice) None
       else if tok =? "tok-bob" then Resolved (Some bob) None
       else Resolved None (Some invalid_token);
     storage_getPublicUrl := fun bucket key =>
       Some ("https://store.example/" ++ bucket ++ "/" ++ key);
     JSON_parse := fun c =>
       if c =? carol_cookie then
         Some {| cu_name := Some "Carol"; cu_email := None |}
       else None |}.

Definition no_fields : body_fields :=
  {| b_trackId := None; b_name := None; b_title := None;
     b_artist_name := None; b_artist := None; b_uploader_name := None;
     b_userId := None |}.

(** A request of the playlist routes: a bearer token, the route parameter
    and the [trackId] of the body. *)
Definition track_request (tok playlistId trackId : string) : request :=
  {| headers_authorization := Some ("Bearer " ++ tok);
     cookies_authorization := None;
     cookies_token := None;
     cookies_user := None;
     params_playlistId := Some playlistId;
     body := Some {| b_trackId := Some trackId; b_name := None;
                     b_title := None; b_artist_name := None;
                     b_artist := None; b_uploader_name := None;
                     b_userId := None |};
     files_audio := None;
     files_cover := None |}.

Definition store_up : object_store :=
  {| objects := []; available := true; attempts := [] |}.

Definition store_down : object_store :=
  {| objects := []; available := false; attempts := [] |}.

(** Alice (1) and Bob (2) are known; playlist 10 is Alice's and empty. *)
Definition db0 : database :=
  {| users := [ {| u_id := 1; u_name := Some "Alice";
                   u_email := Some "alice@example.org";
                   u_auth_user_id := "a1b2-alice" |};
                {| u_id := 2; u_name := None;
                   u_email := Some "bob@example.org";
                   u_auth_user_id := "c3d4-bob" |} ];
     users_seq := 3;
     playlists := [ {| pl_id := 10; pl_user_id := 1; pl_name := "Focus";
                       pl_created_at := 1000 |} ];
     playlists_seq := 11;
     playlist_songs := [];
     tracks := [];
     tracks_seq := 1 |}.

(** The same store with track 7 already in playlist 10. *)
Definition db1 : database :=
  Sql.set_playlist_songs db0
    [ {| ps_playlist_id := 10; ps_track_id := 7; ps_added_at := 1500 |} ].

(** A store that has seen nobody yet. *)
Definition db_empty : database :=
  {| users := []; users_seq := 1; playlists := []; playlists_seq := 1;
     playlist_songs := []; tracks := []; tracks_seq := 1 |}.

Definition world_of (d : database) (s : object_store) : world :=
  {| db := d; storage := s; io := Some []; now := 2000; pool_in_use := 0 |}.

(** Alice adds track 7 to her playlist 10. *)
Definition alice_adds_7 : request := track_request "tok-alice" "10" "7".

(** Bob names Alice's playlist 10 and a [trackId] that is no integer. *)
Definition bob_sends_abc : request := track_request "tok-bob" "10" "abc".

(** Bob names Alice's playlist 10 and track 7. *)
Definition bob_adds_7 : request := track_request "tok-bob" "10" "7".

(** Alice names a playlist that does not exist. *)
Definition alice_adds_to_99 : request := track_request "tok-alice" "99" "7".

(** The worlds of the examples: playlist 10 empty, and holding track 7. *)
Definition w0 : world := world_of db0 store_up.
Definition w1 : world := world_of db1 store_up.

Definition night_drive_mp3 : file :=
  {| originalname := Some "night drive.mp3"; mimetype := Some "audio/mpeg";
     size := 4; buffer := "ID3." |}.

(** An upload of "Night Drive" by Alice, with no cover. *)
Definition night_drive : request :=
  {| headers_authorization := Some "Bearer tok-alice";
     cookies_authorization := None;
     cookies_token := None;
     cookies_user := Some carol_cookie;
     params_playlistId := None;
     body := Some {| b_trackId := None; b_name := None;
                     b_title := Some " Night Drive ";
                     b_artist_name := None; b_artist := None;
                     b_uploader_name := None; b_userId := None |};
     files_audio := Some night_drive_mp3;
     files_cover := None |}.

(** The same upload without a title. *)
Definition untitled : request :=
  {| headers_authorization := Some "Bearer tok-alice";
     cookies_authorization := None;
     cookies_token := None;
     cookies_user := None;
     params_playlistId := None;
     body := Some {| b_trackId := None; b_name := None;
                     b_title := Some "   ";
                     b_artist_name := None; b_artist := None;
                     b_uploader_name := None; b_userId := None |};
     files_audio := Some night_drive_mp3;
     files_cover := None |}.

(** A world whose object store does not answer. *)
Definition w_down : world := world_of db0 store_down.

(** What another request does to the world when it resolves Alice for the
    first time. *)
Definition first_sight_of_alice (w : world) : world :=
  snd (run (Playlists.getLocalUserIdFromToken svc alice_adds_7) w).

(** A first resolution of Alice on a store that has seen nobody, racing with
    another one.  The resolver is suspended five times: for the provider,
    for a client and the lookup, for a client and the insert.  The other
    request runs while it waits for the client of the insert, after its
    lookup has found no row. *)
Definition racing : runtime :=
  {| rt_world := world_of db_empty store_up;
     rt_others := [(fun w => w); (fun w => w); (fun w => w);
                   first_sight_of_alice] |}.

End Sample.

(* ================================================================== *)
(** ** [GET /tracks] of [src/routes/upload.js] *)

Module Listing.

(** A track as the listing returns it. *)
Record listed := {
  l_id : Z;
  l_title : string;
  l_artist_name : string;
  l_uploader_name : option string;
  l_public_url : option string;
  l_cover_url : option string;
  l_storage_key : string;
  l_size_bytes : option Z;
  l_mime_type : option string;
  l_created_at : Z
}.

Inductive reply_json :=
| RTracks (tracks : list listed)
| RError (error : string) (detail : string).

Record reply := {
  r_status : Z;
  r_sent : reply_json
}.

Definition negative_limit : exn :=
  {| message := "LIMIT must not be negative"; code := Some "2201W" |}.

(** [SELECT id, title, artist_name, uploader_name, artist_id, public_url,
     cover_url, storage_key, size_bytes, mime_type, created_at
     FROM tracks ORDER BY created_at DESC LIMIT $1]; rows of one instant keep
    their order.  The limit is read as a [bigint], and a negative one is an
    error of the statement. *)
Definition select_tracks (limit : JS.number) : statement track_row :=
  Sql.param Sql.int8 limit
    (fun n d =>
       if (n <? 0)%Z then (inl negative_limit, d)
       else
         (inr (returning
                 (firstn (Z.to_nat n)
                    (Sql.order_by t_created_at Z.geb (tracks d)))),
          d)).

(** [parseInt(limit, 10) || 50], where [limit] is 50 when the query string
    has none. *)
Definition limit_of (limit : option string) : JS.number :=
  let given := match limit with
               | Some s => Some s
               | None => Some "50"
               end in
  JS.or_number (JS.parseInt given) (JS.Num 50).

Definition present (r : track_row) : listed :=
  {| l_id := t_id r;
     l_title := t_title r;
     l_artist_name := t_artist_name r;
     l_uploader_name := t_uploader_name r;
     l_public_url := JS.or (t_public_url r) (Some Upload.LOCAL_TEST_PATH);
     l_cover_url := JS.or (t_cover_url r) (Some Upload.LOCAL_TEST_PATH);
     l_storage_key := t_storage_key r;
     l_size_bytes := t_size_bytes r;
     l_mime_type := t_mime_type r;
     l_created_at := t_created_at r |}.

(** [GET /tracks], given [req.query.limit]. *)
Definition getTracks (limit : option string) : M reply :=
  try_catch
    (result <- query (select_tracks (limit_of limit)) ;;
     ret {| r_status := 200; r_sent := RTracks (map present (rows result)) |})
    (fun err =>
       ret {| r_status := 500;
              r_sent := RError "Failed to fetch tracks" (message err) |}).

End Listing.

(* ================================================================== *)
(** ** More vocabulary *)

Module Terms.
Section Vocabulary.

Variable svc : services.

(** The pair a membership row stands for. *)
Definition pair_of (r : song_row) : Z * Z := (ps_playlist_id r, ps_track_id r).

(** The unique index of [playlist_songs]. *)
Definition unique_pairs (d : database) : Prop :=
  NoDup (map pair_of (playlist_songs d)).

(** Generated keys: distinct, and below the next value of their sequence. *)
Definition keys_below (ids : list Z) (seq : Z) : Prop :=
  NoDup ids /\ forall i, In i ids -> (i < seq)%Z.

(** The constraints of the store. *)
Definition store_ok (d : database) : Prop :=
  Facts.unique_subjects d /\
  unique_pairs d /\
  keys_below (map u_id (users d)) (users_seq d) /\
  keys_below (map pl_id (playlists d)) (playlists_seq d) /\
  keys_below (map t_id (tracks d)) (tracks_seq d).

(** The name of a new playlist as the route reads it. *)
Definition name_of (req : request) : string :=
  match body req with
  | Some b => match b_name b with
              | Some n => JS.trim n
              | None => ""
              end
  | None => ""
  end.

(** The rows a statement returns, none when it fails. *)
Definition rows_from {A : Type} (st : statement A) (d : database) : list A :=
  match fst (st d) with
  | inr r => rows r
  | inl _ => []
  end.

(** The same request with other cookies. *)
Definition with_cookies (req : request) (authorization token user : option string)
  : request :=
  {| headers_authorization := headers_authorization req;
     cookies_authorization := authorization;
     cookies_token := token;
     cookies_user := user;
     params_playlistId := params_playlistId req;
     body := body req;
     files_audio := files_audio req;
     files_cover := files_cover req |}.

(** The same request with another authorization header. *)
Definition with_header (req : request) (h : option string) : request :=
  {| headers_authorization := h;
     cookies_authorization := cookies_authorization req;
     cookies_token := cookies_token req;
     cookies_user := cookies_user req;
     params_playlistId := params_playlistId req;
     body := body req;
     files_audio := files_audio req;
     files_cover := files_cover req |}.

(** A text without a space. *)
Fixpoint no_space (s : string) : bool :=
  match s with
  | EmptyString => true
  | String c r => negb (Ascii.eqb c " "%char) && no_space r
  end.

(** A text made of the characters file names keep. *)
Fixpoint all_safe (s : string) : bool :=
  match s with
  | EmptyString => true
  | String c r => Upload.is_safe c && all_safe r
  end.

(** The key under which the cover of a submission is uploaded in [w]. *)
Definition cover_key (w : world) (cover : file) : string :=
  "covers/" ++ JS.show (now w) ++ "_"
    ++ Upload.makeSafeName (originalname cover).

(** The uploads a submission attempts for its cover. *)
Definition cover_attempts (w : world) (req : request)
  : list (string * string) :=
  match files_cover req with
  | Some cover => [("Tracks", cover_key w cover)]
  | None => []
  end.

(** The object an upload of a file stores under a key. *)
Definition object_of (key : string) (f : file) : stored_object :=
  {| o_bucket := "Tracks"; o_key := key; o_bytes := buffer f;
     o_content_type := JS.or_str (mimetype f) "" |}.

(** The event of a new track. *)
Definition new_track_event (t : track) : event :=
  {| ev_name := "new-track"; ev_payload := Uploaded t |}.

(** The event of a new playlist. *)
Definition created_event (p : playlist_info) (uid : Z) : event :=
  {| ev_name := "playlist-created"; ev_payload := Created (Some p) uid |}.

(** The world after a playlist was created for [uid]. *)
Definition after_create (uid : Z) (name : string) (w : world) : world :=
  Facts.heard
    (created_event {| pi_id := playlists_seq (db w); pi_name := name;
                      pi_created_at := now w |} uid)
    (set_db w (snd (Sql.insert_playlist (now w) uid name (db w)))).

(** The worlds a playlist route may leave, from the world [w0] the resolver
    left. *)
Inductive left_by (w0 : world) : world -> Prop :=
| left_as_found : left_by w0 w0
| left_added (p t : Z) : left_by w0 (Facts.after_add p t w0)
| left_removed (p t : Z) : left_by w0 (Facts.after_remove p t w0)
| left_created (uid : Z) (name : string) :
    left_by w0 (after_create uid name w0).

End Vocabulary.
End Terms.

(* ================================================================== *)
(** ** More sample requests and stores *)

Module Cases.

(** A caller whose token the provider does not know. *)
Definition stranger : request := Sample.track_request "tok-nobody" "10" "7".

(** A store in which Alice's row has the id 0. *)
Definition db_zero : database :=
  {| users := [ {| u_id := 0; u_name := Some "Alice";
                   u_email := Some "alice@example.org";
                   u_auth_user_id := "a1b2-alice" |} ];
     users_seq := 1;
     playlists := []; playlists_seq := 1;
     playlist_songs := []; tracks := []; tracks_seq := 1 |}.

Definition w_zero : world := Sample.world_of db_zero Sample.store_up.

(** Alice names her playlist 10 and sends no body. *)
Definition no_body : request :=
  {| headers_authorization := Some "Bearer tok-alice";
     cookies_authorization := None;
     cookies_token := None;
     cookies_user := None;
     params_playlistId := Some "10";
     body := None;
     files_audio := None;
     files_cover := None |}.

Definition named (name : option string) : body_fields :=
  {| b_trackId := None; b_name := name; b_title := None;
     b_artist_name := None; b_artist := None; b_uploader_name := None;
     b_userId := None |}.

(** Alice asks for a new playlist. *)
Definition alice_creates (name : option string) : request :=
  {| headers_authorization := Some "Bearer tok-alice";
     cookies_authorization := None;
     cookies_token := None;
     cookies_user := None;
     params_playlistId := None;
     body := Some (named name);
     files_audio := None;
     files_cover := None |}.


(** The body of [Sample.track_request]. *)
Definition track_fields (trackId : string) : body_fields :=
  {| b_trackId := Some trackId; b_name := None; b_title := None;
     b_artist_name := None; b_artist := None; b_uploader_name := None;
     b_userId := None |}.

(** Alice's add of track 7 as the router hands it to the handler. *)
Definition routed_add : request :=
  Playlists.with_params Sample.alice_adds_7 [("playlistId", "10")].



(** A run of nines. *)
Fixpoint nines (n : nat) : string :=
  match n with
  | O => EmptyString
  | S n' => String "9" (nines n')
  end.

(** Alice names her playlist 10 and a track id of 400 digits, which
    [parseInt] turns into an infinity. *)
Definition alice_adds_400_nines : request :=
  Sample.track_request "tok-alice" "10" (nines 400).

(** Alice names her playlist 10 and a track id of 20 digits, which
    [parseInt] rounds to [10^20], more than any integer of the store. *)
Definition alice_adds_20_nines : request :=
  Sample.track_request "tok-alice" "10" (nines 20).

(** A store that has seen nobody, with the object store up. *)
Definition w_empty : world := Sample.world_of Sample.db_empty Sample.store_up.

End Cases.

(** Splits a goal into its conjuncts. *)
Ltac conjuncts := repeat match goal with |- _ /\ _ => split end.

(* ================================================================== *)
(** ** Lemmas on numbers bound to parameters *)

Section ParameterFacts.

(** Up to [2^53] the text of a number is the text of its value. *)
Lemma decimal_small (z : Z) :
  (Z.abs z < 2 ^ 53)%Z -> JS.decimal (JS.Num z) = Some z.
Proof.
  intros H. unfold JS.decimal, JS.spelled.
  destruct (Z.ltb_spec (Z.abs z) (2 ^ 53)) as [_|]; [|lia].
  destruct (Z.ltb_spec (Z.abs z) (10 ^ 21)) as [_|L].
  - f_equal. destruct z; reflexivity.
  - exfalso. revert H L. change (2 ^ 53)%Z with 9007199254740992%Z.
    change (10 ^ 21)%Z with 1000000000000000000000%Z. lia.
Qed.

Lemma candidate_rounds (z j c : Z) :
  JS.candidate z j = Some c -> JS.rounds_to z c = true.
Proof.
  unfold JS.candidate.
  destruct (JS.rounds_to z (z / 10 ^ j * 10 ^ j)) eqn:E1;
    destruct (JS.rounds_to z (z / 10 ^ j * 10 ^ j + 10 ^ j)) eqn:E2;
    intros H; try discriminate; injection H as <-; try assumption.
  repeat match goal with |- context [if ?b then _ else _] => destruct b end;
    assumption.
Qed.

(** What rounds to a double from [2^53] on is not far below it. *)
Lemma rounds_to_large (z c : Z) :
  (2 ^ 53 <= z)%Z -> JS.rounds_to z c = true -> (3 * z <= 4 * c)%Z.
Proof.
  intros Hz. unfold JS.rounds_to, JS.nearest4.
  assert (P : (0 < z)%Z).
  { revert Hz. change (2 ^ 53)%Z with 9007199254740992%Z. lia. }
  destruct (Z.log2_spec z P) as [L _].
  assert (L53 : (53 <= Z.log2 z)%Z).
  { apply Z.log2_le_pow2; [exact P | exact Hz]. }
  set (e := (Z.log2 z - 52)%Z).
  assert (E1 : (2 ^ (e + 1) <= z)%Z).
  { apply Z.le_trans with (2 ^ Z.log2 z)%Z; [|exact L].
    apply Z.pow_le_mono_r; unfold e; lia. }
  assert (E0 : (2 ^ e <= 2 ^ (e + 1))%Z).
  { apply Z.pow_le_mono_r; unfold e; lia. }
  destruct (z / 2 ^ e =? 2 ^ 52)%Z; destruct (Z.even (z / 2 ^ e)); intros H;
    apply andb_prop in H; destruct H as [H _];
    first [apply Z.leb_le in H | apply Z.ltb_lt in H]; lia.
Qed.

Lemma fewest_digits_large (fuel : nat) (z j best : Z) :
  (2 ^ 53 <= z)%Z -> (3 * z <= 4 * best)%Z ->
  (3 * z <= 4 * JS.fewest_digits fuel z j best)%Z.
Proof.
  intros Hz. revert j best.
  induction fuel as [|fuel IH]; intros j best Hb; cbn [JS.fewest_digits];
    [exact Hb|].
  destruct (JS.candidate z (j + 1)) as [c|] eqn:E; [|exact Hb].
  apply IH. apply rounds_to_large; [exact Hz|].
  now apply candidate_rounds with (j := (j + 1)%Z).
Qed.

(** What an [integer] parameter reads from a finite number is its value. *)
Lemma read_int4_value (z v : Z) :
  Sql.read_integer Sql.int4 (JS.Num z) = inr v ->
  v = z /\ Sql.fits Sql.int4 z = true.
Proof.
  unfold Sql.read_integer.
  destruct (Z.lt_ge_cases (Z.abs z) (2 ^ 53)) as [S|B].
  - rewrite (decimal_small z S).
    destruct (Sql.fits Sql.int4 z) eqn:F; [|discriminate].
    intros H. injection H as <-. now split.
  - unfold JS.decimal, JS.spelled.
    destruct (Z.ltb_spec (Z.abs z) (2 ^ 53)) as [|_]; [lia|].
    pose proof (fewest_digits_large 330 (Z.abs z) 0 (Z.abs z) B) as G.
    destruct (_ <? 10 ^ 21)%Z; [|discriminate].
    set (c := JS.fewest_digits 330 (Z.abs z) 0 (Z.abs z)) in *.
    destruct (Sql.fits Sql.int4 (Z.sgn z * c)) eqn:F; [|discriminate].
    exfalso. unfold Sql.fits in F. apply andb_prop in F. destruct F as [F1 F2].
    apply Z.leb_le in F1. apply Z.ltb_lt in F2.
    assert (G' : (3 * Z.abs z <= 4 * c)%Z) by (apply G; lia).
    revert B F1 F2 G'. change (2 ^ 53)%Z with 9007199254740992%Z.
    change (2 ^ 31)%Z with 2147483648%Z.
    destruct z as [|p|p]; cbn [Z.abs Z.sgn]; lia.
Qed.

Lemma fits_int4_small (z : Z) :
  Sql.fits Sql.int4 z = true -> (Z.abs z < 2 ^ 53)%Z.
Proof.
  unfold Sql.fits. intros F. apply andb_prop in F. destruct F as [F1 F2].
  apply Z.leb_le in F1. apply Z.ltb_lt in F2. revert F1 F2.
  change (2 ^ 53)%Z with 9007199254740992%Z.
  change (2 ^ 31)%Z with 2147483648%Z. lia.
Qed.

Lemma read_int4_fits (z : Z) :
  Sql.fits Sql.int4 z = true -> Sql.read_integer Sql.int4 (JS.Num z) = inr z.
Proof.
  intros F. unfold Sql.read_integer.
  rewrite (decimal_small z (fits_int4_small z F)). now rewrite F.
Qed.

(** An id of the column's type is bound as it is. *)
Lemma param_int4 {A : Type} (z : Z) (st : Z -> statement A) :
  Sql.fits Sql.int4 z = true -> Sql.param Sql.int4 (JS.Num z) st = st z.
Proof. intros F. unfold Sql.param. now rewrite (read_int4_fits z F). Qed.

(** Any other finite number is refused, and no statement is run. *)
Lemma param_int4_refused {A : Type} (z : Z) (st : Z -> statement A) :
  Sql.fits Sql.int4 z = false ->
  exists e : exn, Sql.param Sql.int4 (JS.Num z) st = fun d => (inl e, d).
Proof.
  intros F. unfold Sql.param.
  destruct (Sql.read_integer Sql.int4 (JS.Num z)) as [e|v] eqn:E.
  - now exists e.
  - apply read_int4_value in E. destruct E as [_ E]. congruence.
Qed.

(** A limit up to [2^53] that is not negative is bound as it is. *)
Lemma param_int8 {A : Type} (z : Z) (st : Z -> statement A) :
  (Z.abs z < 2 ^ 53)%Z -> Sql.param Sql.int8 (JS.Num z) st = st z.
Proof.
  intros S. unfold Sql.param, Sql.read_integer. rewrite (decimal_small z S).
  replace (Sql.fits Sql.int8 z) with true; [reflexivity|].
  symmetry. unfold Sql.fits. apply andb_true_intro.
  rewrite Z.leb_le, Z.ltb_lt. revert S.
  change (2 ^ 53)%Z with 9007199254740992%Z.
  change (2 ^ 63)%Z with 9223372036854775808%Z. lia.
Qed.

End ParameterFacts.

(* ================================================================== *)
(** ** Lemmas on the words of a header *)

Section Words.

Lemma split_no_space (s : string) :
  Terms.no_space s = true -> JS.split_space s = [s].
Proof.
  induction s as [|c s IH]; cbn; [reflexivity|].
  destruct (Ascii.eqb c " "); cbn; [discriminate|].
  intros N. now rewrite (IH N).
Qed.

Lemma split_at_space (a b : string) :
  Terms.no_space a = true ->
  JS.split_space (a ++ String " " b) = a :: JS.split_space b.
Proof.
  induction a as [|c a IH]; cbn; [reflexivity|].
  destruct (Ascii.eqb c " "); cbn; [discriminate|].
  intros N. now rewrite (IH N).
Qed.

Lemma split_never_empty (s : string) : JS.split_space s <> [].
Proof.
  induction s as [|c s IH]; cbn; [discriminate|].
  destruct (Ascii.eqb c " "); [discriminate|].
  destruct (JS.split_space s); [contradiction | discriminate].
Qed.

Lemma append_space_non_empty (a b : string) :
  (a ++ String " " b =? "") = false.
Proof. destruct a; reflexivity. Qed.

End Words.

(* ================================================================== *)
(** ** Lemmas on the store and on the resolver *)

Section ResolverFacts.

Variable svc : services.

Import Facts.

Lemma set_db_same (w : world) : set_db w (db w) = w.
Proof. destruct w; reflexivity. Qed.

(** A query that runs alone: the statement is run on the store of the
    moment, and the client taken from the pool is back in it. *)
Lemma query_now_alone {A : Type} (st : Z -> statement A) (w : world) :
  query_now st {| rt_world := w; rt_others := [] |} =
  (fst (st (now w) (db w)),
   {| rt_world := set_db w (snd (st (now w) (db w))); rt_others := [] |}).
Proof.
  unfold query_now, bind, pool_connect, try_finally, try_catch, client_query,
    client_release, await, sync, throw.
  cbn. destruct (st (now w) (db w)) as [[e|r] d]; cbn;
    destruct w; reflexivity.
Qed.

Lemma query_alone {A : Type} (st : statement A) (w : world) :
  query st {| rt_world := w; rt_others := [] |} =
  (fst (st (db w)),
   {| rt_world := set_db w (snd (st (db w))); rt_others := [] |}).
Proof. unfold query. now rewrite query_now_alone. Qed.

Lemma existsb_filter_nil {A : Type} (f : A -> bool) (l : list A) :
  filter f l = [] -> existsb f l = false.
Proof.
  induction l as [|x l IH]; simpl; [reflexivity|].
  destruct (f x); [discriminate | exact IH].
Qed.

Lemma existsb_filter_cons {A : Type} (f : A -> bool) (l : list A) x r :
  filter f l = x :: r -> existsb f l = true.
Proof.
  induction l as [|y l IH]; simpl; [discriminate|].
  destruct (f y); [reflexivity | exact IH].
Qed.

(** The resolver, running alone: nothing for a request the provider does not
    vouch for, the stored id when the subject has a row, and otherwise a new
    row whose id it returns. *)
Lemma resolver_alone (req : request) (w : world) :
  Playlists.getLocalUserIdFromToken svc req (alone w) =
  match verified svc req with
  | None => (inr None, alone w)
  | Some user =>
      match local_id (su_id user) (db w) with
      | Some found => (inr (Some found), alone w)
      | None => (inr (Some (users_seq (db w))),
                 alone (set_db w (with_user user (db w))))
      end
  end.
Proof.
  unfold Playlists.getLocalUserIdFromToken, verified, token.
  set (t := JS.or _ _).
  destruct t as [tok|]; [|reflexivity].
  destruct (JS.truthy (Some tok)); [|reflexivity].
  cbn [negb].
  unfold try_catch, bind, Playlists.getUser_caught, await, alone.
  cbn [rt_world rt_others tl].
  destruct (auth_getUser svc tok) as [e|[user|] [err|]]; try reflexivity.
  unfold Playlists.dbQuery. rewrite query_alone.
  unfold Sql.select_user_id at 1 2. cbn [fst snd rows returning].
  rewrite set_db_same.
  unfold local_id, rows_of.
  destruct (filter _ (users (db w))) as [|x r] eqn:E;
    cbn [map firstn hd_error]; [|reflexivity].
  rewrite query_alone. unfold with_user, Sql.insert_user.
  rewrite (existsb_filter_nil _ _ E). reflexivity.
Qed.

End ResolverFacts.

Section HandlerFacts.

Variable svc : services.

Import Facts.

Lemma same_but_users_refl (w : world) : same_but_users w w.
Proof. repeat split. Qed.

Lemma same_but_users_owner (w w' : world) (p : Z) :
  same_but_users w w' -> owner_of p (db w') = owner_of p (db w).
Proof. intros (H & _). unfold owner_of. now rewrite H. Qed.

Lemma same_but_users_member (w w' : world) (p t : Z) :
  same_but_users w w' -> member p t (db w') = member p t (db w).
Proof. intros (_ & H & _). unfold member. now rewrite H. Qed.

(** A successful resolution: the provider vouches for a user, the store holds
    the returned id for the subject afterwards, and only [users] may have
    changed. *)
Lemma resolver_ok (req : request) (w : world) (uid : Z) :
  fst (Playlists.getLocalUserIdFromToken svc req (alone w)) = inr (Some uid) ->
  exists user w0,
    verified svc req = Some user /\
    Playlists.getLocalUserIdFromToken svc req (alone w)
      = (inr (Some uid), alone w0) /\
    local_id (su_id user) (db w0) = Some uid /\
    same_but_users w w0.
Proof.
  rewrite resolver_alone.
  destruct (verified svc req) as [user|]; [|discriminate].
  destruct (local_id (su_id user) (db w)) as [found|] eqn:L; cbn.
  - intros [= ->]. exists user, w. auto using same_but_users_refl.
  - intros [= <-]. exists user, (set_db w (with_user user (db w))).
    repeat split; try reflexivity.
    + unfold local_id, rows_of in L |- *.
      unfold with_user, Sql.insert_user.
      destruct (filter _ (users (db w))) as [|x r] eqn:E; [|discriminate].
      fold (rows_of (su_id user) (db w)) in E.
      unfold rows_of in E.
      rewrite (existsb_filter_nil _ _ E). cbn.
      rewrite filter_app, E. cbn. rewrite String.eqb_refl. reflexivity.
    + unfold with_user, Sql.insert_user.
      destruct (existsb _ _); reflexivity.
    + unfold with_user, Sql.insert_user.
      destruct (existsb _ _); reflexivity.
    + unfold with_user, Sql.insert_user.
      destruct (existsb _ _); reflexivity.
Qed.

(** A resolution that finds its row changes nothing. *)
Lemma resolver_found (req : request) (w : world) user (uid : Z) :
  verified svc req = Some user ->
  local_id (su_id user) (db w) = Some uid ->
  Playlists.getLocalUserIdFromToken svc req (alone w) = (inr (Some uid), alone w).
Proof. intros V L. rewrite resolver_alone, V, L. reflexivity. Qed.

(** [handleAddTrack] once the caller is resolved and both ids are integers:
    the playlist id is bound to the ownership check, and the track id is
    bound only when the caller is the owner. *)
Lemma add_resolved (req : request) (w w0 : world) (uid pid tid : Z) b :
  Playlists.getLocalUserIdFromToken svc req (alone w)
    = (inr (Some uid), alone w0) ->
  uid <> 0 ->
  JS.parseInt (params_playlistId req) = JS.Num pid ->
  body req = Some b ->
  JS.parseInt (b_trackId b) = JS.Num tid ->
  Playlists.handleAddTrack svc req (alone w) =
  if Sql.fits Sql.int4 pid then
    match owner_of pid (db w0) with
    | Some owner =>
        if (owner =? uid)%Z
        then
          if Sql.fits Sql.int4 tid
          then (inr (res_json (JAdded true (negb (member pid tid (db w0))))),
                alone (after_add pid tid w0))
          else (inr (status_json 500
                       (JError "Failed to add track to playlist")),
                alone w0)
        else (inr Playlists.Forbidden, alone w0)
    | None => (inr Playlists.Forbidden, alone w0)
    end
  else (inr (status_json 500 (JError "Failed to add track to playlist")),
        alone w0).
Proof.
  intros R U P B T.
  unfold Playlists.handleAddTrack, try_catch, bind. rewrite R.
  cbn [JS.truthy_num negb].
  destruct (Z.eqb_spec uid 0) as [|_]; [contradiction|]. cbn [negb].
  unfold Playlists.read_ids. rewrite P, B, T. unfold ret at 1, alone.
  unfold Playlists.dbQuery. rewrite query_alone.
  destruct (Sql.fits Sql.int4 pid) eqn:Fp.
  2:{ destruct (param_int4_refused pid Sql.select_playlist_owner Fp)
        as [e ->].
      cbn [fst snd]. now rewrite set_db_same. }
  rewrite (param_int4 pid _ Fp).
  unfold Sql.select_playlist_owner at 1 2. cbn [fst snd rows returning].
  rewrite set_db_same. unfold owner_of.
  destruct (filter _ (playlists (db w0))) as [|x r] eqn:E;
    cbn [map firstn hd_error]; [reflexivity|].
  destruct (pl_user_id x =? uid)%Z; cbn [negb]; [|reflexivity].
  unfold Playlists.dbQuery_now. rewrite query_now_alone.
  rewrite (param_int4 pid _ Fp).
  destruct (Sql.fits Sql.int4 tid) eqn:Ft.
  2:{ destruct (param_int4_refused tid
                  (fun tr => Sql.insert_playlist_song (now w0) pid tr) Ft)
        as [e ->].
      cbn [fst snd]. now rewrite set_db_same. }
  rewrite (param_int4 tid _ Ft).
  unfold after_add, member, Sql.insert_playlist_song, heard, added_event,
    emit, sync, ret.
  destruct (existsb _ (playlist_songs (db w0))); cbn;
    destruct (io w0); reflexivity.
Qed.

(** [handleRemoveTrack] once the caller is resolved and both ids are
    integers. *)
Lemma remove_resolved (req : request) (w w0 : world) (uid pid tid : Z) b :
  Playlists.getLocalUserIdFromToken svc req (alone w)
    = (inr (Some uid), alone w0) ->
  uid <> 0 ->
  JS.parseInt (params_playlistId req) = JS.Num pid ->
  body req = Some b ->
  JS.parseInt (b_trackId b) = JS.Num tid ->
  Playlists.handleRemoveTrack svc req (alone w) =
  if Sql.fits Sql.int4 pid then
    match owner_of pid (db w0) with
    | Some owner =>
        if (owner =? uid)%Z
        then
          if Sql.fits Sql.int4 tid
          then (inr (res_json (JRemoved true (count_pair pid tid (db w0)))),
                alone (after_remove pid tid w0))
          else (inr (status_json 500
                       (JError "Failed to remove track from playlist")),
                alone w0)
        else (inr Playlists.Forbidden, alone w0)
    | None => (inr Playlists.Forbidden, alone w0)
    end
  else (inr (status_json 500 (JError "Failed to remove track from playlist")),
        alone w0).
Proof.
  intros R U P B T.
  unfold Playlists.handleRemoveTrack, try_catch, bind. rewrite R.
  cbn [JS.truthy_num negb].
  destruct (Z.eqb_spec uid 0) as [|_]; [contradiction|]. cbn [negb].
  unfold Playlists.read_ids. rewrite P, B, T. unfold ret at 1, alone.
  unfold Playlists.dbQuery. rewrite query_alone.
  destruct (Sql.fits Sql.int4 pid) eqn:Fp.
  2:{ destruct (param_int4_refused pid Sql.select_playlist_owner Fp)
        as [e ->].
      cbn [fst snd]. now rewrite set_db_same. }
  rewrite (param_int4 pid _ Fp).
  unfold Sql.select_playlist_owner at 1 2. cbn [fst snd rows returning].
  rewrite set_db_same. unfold owner_of.
  destruct (filter _ (playlists (db w0))) as [|x r] eqn:E;
    cbn [map firstn hd_error]; [reflexivity|].
  destruct (pl_user_id x =? uid)%Z; cbn [negb]; [|reflexivity].
  rewrite query_alone.
  rewrite (param_int4 pid _ Fp).
  destruct (Sql.fits Sql.int4 tid) eqn:Ft.
  2:{ destruct (param_int4_refused tid
                  (fun tr => Sql.delete_playlist_song pid tr) Ft)
        as [e ->].
      cbn [fst snd]. now rewrite set_db_same. }
  rewrite (param_int4 tid _ Ft).
  unfold after_remove, count_pair, heard, removed_event, emit, sync, ret.
  cbn. destruct (io w0); reflexivity.
Qed.

(** Both handlers once the caller is resolved and one of the ids is no
    integer: the ids are refused before any statement is run. *)
Lemma ids_refused (req : request) (w w0 : world) (uid : Z) b :
  Playlists.getLocalUserIdFromToken svc req (alone w)
    = (inr (Some uid), alone w0) ->
  uid <> 0 ->
  body req = Some b ->
  JS.isInteger (JS.parseInt (params_playlistId req)) = false \/
  JS.isInteger (JS.parseInt (b_trackId b)) = false ->
  Playlists.handleAddTrack svc req (alone w)
    = (inr Playlists.not_integers, alone w0) /\
  Playlists.handleRemoveTrack svc req (alone w)
    = (inr Playlists.not_integers, alone w0).
Proof.
  intros R U B N.
  unfold Playlists.handleAddTrack, Playlists.handleRemoveTrack, try_catch,
    bind.
  rewrite R. cbn [JS.truthy_num negb].
  destruct (Z.eqb_spec uid 0) as [|_]; [contradiction|]. cbn [negb].
  unfold Playlists.read_ids. rewrite B. unfold ret at 1 3.
  destruct (JS.parseInt (params_playlistId req)),
           (JS.parseInt (b_trackId b));
    cbn [JS.isInteger] in N; try (split; reflexivity);
    destruct N; discriminate.
Qed.

End HandlerFacts.

(* ================================================================== *)
(** ** Identity resolution *)

Section Identity.

Variable svc : services.

Import Facts.

Lemma run_alone {A : Type} (m : M A) (w w' : world) (r : exn + A) :
  m (alone w) = (r, alone w') -> run m w = (r, w').
Proof. unfold run. intros ->. reflexivity. Qed.

Lemma fst_run {A : Type} (m : M A) (w : world) :
  fst (run m w) = fst (m (alone w)).
Proof. unfold run. destruct (m (alone w)). reflexivity. Qed.

Lemma unique_at_most_one (auth : string) (l : list user_row) :
  NoDup (map u_auth_user_id l) ->
  (length (filter (fun u => (u_auth_user_id u =? auth)%string) l) <= 1)%nat.
Proof.
  induction l as [|x l IH]; cbn [map filter]; [cbn; lia|].
  intros N. inversion N as [|? ? Hx Hl]; subst.
  destruct (String.eqb_spec (u_auth_user_id x) auth) as [<-|_]; [|auto].
  set (auth := u_auth_user_id x) in *.
  assert (E : filter (fun u => u_auth_user_id u =? auth) l = []).
  { destruct (filter _ l) as [|y r] eqn:F; [reflexivity|].
    exfalso. apply Hx.
    assert (I : In y (filter (fun u => u_auth_user_id u =? auth) l))
      by (rewrite F; left; reflexivity).
    apply filter_In in I. destruct I as [I Ey].
    apply String.eqb_eq in Ey. rewrite <- Ey.
    now apply (in_map u_auth_user_id). }
  rewrite E. cbn. lia.
Qed.

Lemma insert_user_unique (name email : option string) (auth : string)
    (d : database) :
  unique_subjects d -> unique_subjects (snd (Sql.insert_user name email auth d)).
Proof.
  unfold unique_subjects, Sql.insert_user. intros N.
  destruct (existsb _ (users d)) eqn:E; cbn; [exact N|].
  rewrite map_app. cbn.
  apply Permutation_NoDup with (l := auth :: map u_auth_user_id (users d)).
  - apply Permutation_cons_append.
  - constructor; [|exact N].
    intros I. apply in_map_iff in I. destruct I as (u & Eu & Iu).
    assert (T : existsb (fun u => u_auth_user_id u =? auth) (users d) = true).
    { apply existsb_exists. exists u. split; [exact Iu|].
      now apply String.eqb_eq. }
    congruence.
Qed.

(** C7.  Two resolutions in sequence of requests the provider vouches for
    under one subject give the same local id; the second finds the row and
    leaves the store as it is, and the subject has exactly one row of
    [users] afterwards, so no duplicate was created. *)
Theorem resolve_twice_same_id (req1 req2 : request) (w : world)
    (user1 user2 : supabase_user) :
  verified svc req1 = Some user1 ->
  verified svc req2 = Some user2 ->
  su_id user1 = su_id user2 ->
  unique_subjects (db w) ->
  exists (id : Z) (w1 : world),
    run (Playlists.getLocalUserIdFromToken svc req1) w = (inr (Some id), w1) /\
    run (Playlists.getLocalUserIdFromToken svc req2) w1 = (inr (Some id), w1) /\
    length (rows_of (su_id user1) (db w1)) = 1%nat /\
    unique_subjects (db w1).
Proof.
  intros V1 V2 S U.
  destruct (Playlists.getLocalUserIdFromToken svc req1 (alone w))
    as [r rt] eqn:R.
  pose proof (resolver_alone svc req1 w) as A. rewrite R, V1 in A.
  assert (F : exists id w1,
             (r, rt) = (inr (Some id), alone w1) /\
             local_id (su_id user1) (db w1) = Some id /\
             unique_subjects (db w1)).
  { destruct (local_id (su_id user1) (db w)) as [found|] eqn:L.
    - exists found, w. auto.
    - exists (users_seq (db w)), (set_db w (with_user user1 (db w))).
      split; [exact A|]. split.
      + destruct (resolver_ok svc req1 w (users_seq (db w)))
          as (u & w0 & V & E & L0 & _).
        { rewrite R, A. reflexivity. }
        rewrite R, A in E. unfold alone in E. inversion E; subst w0.
        congruence.
      + apply insert_user_unique. exact U. }
  destruct F as (id & w1 & E & L & U1). rewrite E in R.
  exists id, w1. split; [now apply run_alone|]. split.
  - apply run_alone. apply resolver_found with (user := user2); [exact V2|].
    now rewrite <- S.
  - split; [|exact U1].
    pose proof (unique_at_most_one (su_id user1) (users (db w1)) U1) as Le.
    unfold local_id, rows_of in L |- *.
    destruct (filter _ (users (db w1))) as [|x l]; [discriminate|].
    cbn in Le |- *. lia.
Qed.

End Identity.

(** The theorem at work: Alice is unknown to an empty store and resolves
    twice, from two requests, to the id 1. *)
Lemma resolve_twice_same_id_witness :
  exists (id : Z) (w1 : world),
    run (Playlists.getLocalUserIdFromToken Sample.svc
           (Sample.track_request "tok-alice" "10" "7"))
        (Sample.world_of Sample.db_empty Sample.store_up)
      = (inr (Some id), w1) /\
    run (Playlists.getLocalUserIdFromToken Sample.svc
           (Sample.track_request "tok-alice" "11" "8")) w1
      = (inr (Some id), w1) /\
    length (Facts.rows_of (su_id Sample.alice) (db w1)) = 1%nat /\
    Facts.unique_subjects (db w1).
Proof.
  apply (resolve_twice_same_id Sample.svc
           (Sample.track_request "tok-alice" "10" "7")
           (Sample.track_request "tok-alice" "11" "8")
           (Sample.world_of Sample.db_empty Sample.store_up)
           Sample.alice Sample.alice).
  - reflexivity.
  - reflexivity.
  - reflexivity.
  - constructor.
Defined.

Section Race.

Variable svc : services.

Import Facts.

(** The race in general: the subject has no row at the lookup, and another
    request sees the same subject for the first time while the resolver
    waits for the client of its insert.  The resolver returns [null]. *)
Lemma lost_race_is_null (req other : request) (w : world)
    (user user' : supabase_user) :
  verified svc req = Some user ->
  verified svc other = Some user' ->
  su_id user' = su_id user ->
  local_id (su_id user) (db w) = None ->
  fst (Playlists.getLocalUserIdFromToken svc req
         {| rt_world := w;
            rt_others :=
              [(fun x => x); (fun x => x); (fun x => x);
               (fun x => snd (run (Playlists.getLocalUserIdFromToken svc other)
                                  x))] |})
  = inr None.
Proof.
  intros V V' S L.
  unfold Playlists.getLocalUserIdFromToken at 1.
  unfold verified, token in V.
  set (t := JS.or _ _) in *.
  destruct t as [tok|]; [|discriminate].
  destruct (JS.truthy (Some tok)); [|discriminate].
  cbn [negb].
  unfold try_catch at 1. unfold bind at 1.
  unfold Playlists.getUser_caught, await. cbn [rt_world rt_others tl].
  destruct (auth_getUser svc tok) as [e|[u|] [err|]]; try discriminate.
  injection V as ->.
  unfold Playlists.dbQuery, query, query_now, bind, pool_connect, try_finally,
    try_catch, client_query, client_release, await, sync, throw.
  cbn [rt_world rt_others tl fst snd db now set_db set_pool_in_use pool_in_use].
  unfold local_id, rows_of in L.
  unfold Sql.select_user_id at 1. cbn [rows returning].
  destruct (filter _ (users (db w))) as [|x r] eqn:E; [|discriminate].
  cbn [map firstn rows returning rt_world rt_others tl fst snd db now set_db
         set_pool_in_use pool_in_use].
  unfold run, alone.
  match goal with
  | |- context [Playlists.getLocalUserIdFromToken svc other
                  {| rt_world := ?w0; rt_others := [] |}] =>
      pose proof (resolver_alone svc other w0) as R; unfold alone in R;
      rewrite R; clear R
  end.
  rewrite V', S. unfold local_id, rows_of.
  cbn [db set_db set_pool_in_use]. rewrite E.
  cbn [map hd_error snd rt_world db set_db set_pool_in_use].
  unfold with_user. rewrite S.
  unfold Sql.insert_user at 2. rewrite (existsb_filter_nil _ _ E).
  cbn [snd]. unfold Sql.insert_user. cbn [users].
  rewrite existsb_app. cbn [existsb u_auth_user_id].
  rewrite String.eqb_refl, orb_true_r. reflexivity.
Qed.

End Race.

(** C2.  A first-time resolution that loses the race: between its lookup
    (which finds no row) and its insert, another request resolves the same
    subject for the first time and creates the row.  The insert then violates
    the unique constraint; the resolver does not look the row up again, it
    returns [null] although the row (id 1) is there, and the route answers
    401. *)
Lemma duplicate_insert_is_unauthorized :
  fst (Sql.insert_user (Some "Alice") (Some "alice@example.org") "a1b2-alice"
         (db (Sample.first_sight_of_alice
                (Sample.world_of Sample.db_empty Sample.store_up))))
    = inl {| message := "duplicate key value violates unique constraint "
                          ++ "users_auth_user_id_key";
             code := Some "23505" |} /\
  fst (Playlists.getLocalUserIdFromToken Sample.svc Sample.alice_adds_7
         Sample.racing) = inr None /\
  Facts.local_id "a1b2-alice"
    (db (rt_world (snd (Playlists.getLocalUserIdFromToken Sample.svc
                          Sample.alice_adds_7 Sample.racing))))
    = Some 1 /\
  fst (Playlists.handleAddTrack Sample.svc Sample.alice_adds_7 Sample.racing)
    = inr {| status := 401; sent := JError "Unauthorized" |}.
Proof. vm_compute. repeat split. Qed.

(* ================================================================== *)
(** ** Playlist membership *)

Section Membership.

Variable svc : services.

Import Facts.

Lemma after_add_member (pid tid : Z) (w : world) :
  member pid tid (db (after_add pid tid w)) = true.
Proof.
  unfold after_add, heard, member, Sql.insert_playlist_song.
  destruct (existsb _ (playlist_songs (db w))) eqn:E; cbn.
  - destruct (io w); cbn; exact E.
  - assert (T : existsb (Sql.same_pair pid tid)
                  (playlist_songs (db w) ++
                   [{| ps_playlist_id := pid; ps_track_id := tid;
                       ps_added_at := now w |}]) = true).
    { rewrite existsb_app. cbn. unfold Sql.same_pair at 2. cbn.
      rewrite !Z.eqb_refl. now rewrite orb_true_r. }
    destruct (io w); cbn; exact T.
Qed.

Lemma after_add_frame (pid tid : Z) (w : world) :
  users (db (after_add pid tid w)) = users (db w) /\
  playlists (db (after_add pid tid w)) = playlists (db w).
Proof.
  unfold after_add, heard, Sql.insert_playlist_song.
  destruct (existsb _ (playlist_songs (db w))); cbn;
    destruct (io w); cbn; split; reflexivity.
Qed.

Lemma after_add_again (pid tid : Z) (w : world) :
  member pid tid (db w) = true -> db (after_add pid tid w) = db w.
Proof.
  unfold after_add, heard, member, Sql.insert_playlist_song. intros ->. cbn.
  destruct (io w); reflexivity.
Qed.

Lemma heard_io (e : event) (w : world) :
  io (heard e w) = option_map (cons e) (io w).
Proof. unfold heard. destruct (io w) eqn:E; cbn; [reflexivity | exact E]. Qed.

Lemma heard_db (e : event) (w : world) : db (heard e w) = db w.
Proof. unfold heard. destruct (io w); reflexivity. Qed.

Lemma filter_none {A : Type} (f : A -> bool) (l : list A) :
  existsb f l = false -> filter f l = [] /\ filter (fun x => negb (f x)) l = l.
Proof.
  induction l as [|x l IH]; cbn; [auto|].
  destruct (f x); cbn; [discriminate|].
  intros E. destruct (IH E) as [-> ->]. auto.
Qed.

(** C1, as amended.  The owner adds a pair twice in sequence, the two ids
    being integers of the type of the id columns.  Both calls answer 200
    with [success: true]; the first says [inserted: true] exactly when the
    pair was not yet a member, the second always says [inserted: false]; and
    the store after the second call is the store after the first. *)
Theorem add_twice (req : request) (w : world) (uid pid tid : Z)
    (b : body_fields) :
  fst (run (Playlists.getLocalUserIdFromToken svc req) w) = inr (Some uid) ->
  uid <> 0 ->
  JS.parseInt (params_playlistId req) = JS.Num pid ->
  body req = Some b ->
  JS.parseInt (b_trackId b) = JS.Num tid ->
  Sql.fits Sql.int4 pid = true ->
  Sql.fits Sql.int4 tid = true ->
  owner_of pid (db w) = Some uid ->
  exists w1 w2 : world,
    run (Playlists.handleAddTrack svc req) w
      = (inr {| status := 200;
                sent := JAdded true (negb (member pid tid (db w))) |}, w1) /\
    run (Playlists.handleAddTrack svc req) w1
      = (inr {| status := 200; sent := JAdded true false |}, w2) /\
    member pid tid (db w1) = true /\
    db w2 = db w1.
Proof.
  intros A U P B T Fp Ft O. rewrite fst_run in A.
  destruct (resolver_ok svc req w uid A) as (user & w0 & V & R & L & S).
  exists (after_add pid tid w0), (after_add pid tid (after_add pid tid w0)).
  pose proof (after_add_member pid tid w0) as M1.
  pose proof (after_add_frame pid tid w0) as [Fu Fpl].
  split; [|split; [|split]].
  - apply run_alone. rewrite (add_resolved svc req w w0 uid pid tid b R U P B T).
    rewrite Fp, Ft, (same_but_users_owner _ _ _ S), O, Z.eqb_refl.
    now rewrite (same_but_users_member _ _ _ _ S).
  - apply run_alone.
    assert (R1 : Playlists.getLocalUserIdFromToken svc req
                   (alone (after_add pid tid w0))
                 = (inr (Some uid), alone (after_add pid tid w0))).
    { apply resolver_found with (user := user); [exact V|].
      unfold local_id, rows_of in L |- *. now rewrite Fu. }
    rewrite (add_resolved svc req _ _ uid pid tid b R1 U P B T).
    assert (O1 : owner_of pid (db (after_add pid tid w0)) = Some uid).
    { unfold owner_of. rewrite Fpl. fold (owner_of pid (db w0)).
      now rewrite (same_but_users_owner _ _ _ S). }
    rewrite Fp, Ft, O1, Z.eqb_refl, M1. reflexivity.
  - exact M1.
  - now apply after_add_again.
Qed.

(** What add and remove answer to a caller who may not touch the playlist:
    403 when [trackId] is an integer, 400 when it is not. *)
Lemma turned_away (req : request) (w w0 : world) (uid pid : Z)
    (b : body_fields) :
  Playlists.getLocalUserIdFromToken svc req (alone w)
    = (inr (Some uid), alone w0) ->
  uid <> 0 ->
  JS.parseInt (params_playlistId req) = JS.Num pid ->
  Sql.fits Sql.int4 pid = true ->
  body req = Some b ->
  match owner_of pid (db w0) with
  | Some owner => owner <> uid
  | None => True
  end ->
  let answer :=
    if JS.isInteger (JS.parseInt (b_trackId b))
    then {| status := 403; sent := JError "Forbidden" |}
    else {| status := 400;
            sent := JError "playlistId and trackId must be integers" |} in
  Playlists.handleAddTrack svc req (alone w) = (inr answer, alone w0) /\
  Playlists.handleRemoveTrack svc req (alone w) = (inr answer, alone w0).
Proof.
  intros R U P Fp B O answer. subst answer.
  destruct (JS.isInteger (JS.parseInt (b_trackId b))) eqn:I.
  - destruct (JS.parseInt (b_trackId b)) as [|tid|] eqn:T; try discriminate.
    rewrite (add_resolved svc req w w0 uid pid tid b R U P B T).
    rewrite (remove_resolved svc req w w0 uid pid tid b R U P B T).
    rewrite Fp. destruct (owner_of pid (db w0)) as [owner|];
      [|split; reflexivity].
    apply Z.eqb_neq in O. rewrite O. split; reflexivity.
  - apply (ids_refused svc req w w0 uid b R U B). right. exact I.
Qed.

(** C4, as amended.  A resolved caller who is not the owner recorded on the
    playlist, whose id is an integer of the type of the id column.  When
    [trackId] is an integer (whether or not a track has that id), add and
    remove both answer 403 Forbidden, which is not the 401 of a caller
    without identity; when it is not, both answer 400, the ids being checked
    before the owner.  In both cases neither touches [playlist_songs] or
    emits an event. *)
Theorem not_owner_is_forbidden (req : request) (w : world)
    (uid owner pid : Z) (b : body_fields) :
  fst (run (Playlists.getLocalUserIdFromToken svc req) w) = inr (Some uid) ->
  uid <> 0 ->
  JS.parseInt (params_playlistId req) = JS.Num pid ->
  Sql.fits Sql.int4 pid = true ->
  body req = Some b ->
  owner_of pid (db w) = Some owner ->
  owner <> uid ->
  exists (answer : response) (w1 : world),
    answer = (if JS.isInteger (JS.parseInt (b_trackId b))
              then {| status := 403; sent := JError "Forbidden" |}
              else {| status := 400;
                      sent := JError
                                "playlistId and trackId must be integers" |}) /\
    run (Playlists.handleAddTrack svc req) w = (inr answer, w1) /\
    run (Playlists.handleRemoveTrack svc req) w = (inr answer, w1) /\
    playlist_songs (db w1) = playlist_songs (db w) /\
    io w1 = io w /\
    status Playlists.Forbidden <> status Playlists.Unauthorized.
Proof.
  intros A U P Fp B O N. rewrite fst_run in A.
  destruct (resolver_ok svc req w uid A) as (user & w0 & V & R & L & S).
  eexists. exists w0. split; [reflexivity|].
  destruct (turned_away req w w0 uid pid b R U P Fp B) as [Ha Hr].
  { now rewrite (same_but_users_owner _ _ _ S), O. }
  conjuncts.
  - apply run_alone. exact Ha.
  - apply run_alone. exact Hr.
  - apply S.
  - apply S.
  - cbn. discriminate.
Qed.

(** C10, as amended.  An authenticated caller names a playlist id, an
    integer of the type of the id column, that no row of [playlists] has.
    When [trackId] is an integer, add and remove both answer 403 Forbidden;
    when it is not, both answer 400.  There is no 404, and [playlist_songs]
    is left as it was. *)
Theorem missing_playlist_is_forbidden (req : request) (w : world)
    (uid pid : Z) (b : body_fields) :
  fst (run (Playlists.getLocalUserIdFromToken svc req) w) = inr (Some uid) ->
  uid <> 0 ->
  JS.parseInt (params_playlistId req) = JS.Num pid ->
  Sql.fits Sql.int4 pid = true ->
  body req = Some b ->
  filter (fun p => (pl_id p =? pid)%Z) (playlists (db w)) = [] ->
  exists (answer : response) (w1 : world),
    answer = (if JS.isInteger (JS.parseInt (b_trackId b))
              then {| status := 403; sent := JError "Forbidden" |}
              else {| status := 400;
                      sent := JError
                                "playlistId and trackId must be integers" |}) /\
    run (Playlists.handleAddTrack svc req) w = (inr answer, w1) /\
    run (Playlists.handleRemoveTrack svc req) w = (inr answer, w1) /\
    status answer <> 404 /\
    playlist_songs (db w1) = playlist_songs (db w).
Proof.
  intros A U P Fp B O. rewrite fst_run in A.
  destruct (resolver_ok svc req w uid A) as (user & w0 & V & R & L & S).
  eexists. exists w0. split; [reflexivity|].
  assert (E : owner_of pid (db w0) = None).
  { rewrite (same_but_users_owner _ _ _ S). unfold owner_of. now rewrite O. }
  destruct (turned_away req w w0 uid pid b R U P Fp B) as [Ha Hr].
  { now rewrite E. }
  conjuncts.
  - apply run_alone. exact Ha.
  - apply run_alone. exact Hr.
  - destruct (JS.isInteger _); cbn; discriminate.
  - apply S.
Qed.


(** C9.  The legacy paths [/:playlistId/add] and [/:playlistId/remove] are
    served by the very computations that serve [/:playlistId/add-track] and
    [/:playlistId/remove-track]: [handleAddTrack] and [handleRemoveTrack] on
    the request with the same parameter.  Equal computations give equal
    responses and leave equal worlds. *)
Theorem legacy_routes_same_handler (playlistId : string) (req : request) :
  Playlists.dispatch svc Playlists.POST [playlistId; "add"] req
    = Playlists.dispatch svc Playlists.POST [playlistId; "add-track"] req /\
  Playlists.dispatch svc Playlists.POST [playlistId; "remove"] req
    = Playlists.dispatch svc Playlists.POST [playlistId; "remove-track"] req /\
  Playlists.dispatch svc Playlists.POST [playlistId; "add"] req
    = (if playlistId =? "" then None
       else Some (Playlists.handleAddTrack svc
                    (Playlists.with_params req [("playlistId", playlistId)]))) /\
  Playlists.dispatch svc Playlists.POST [playlistId; "remove"] req
    = (if playlistId =? "" then None
       else Some (Playlists.handleRemoveTrack svc
                    (Playlists.with_params req [("playlistId", playlistId)]))).
Proof.
  unfold Playlists.dispatch, Playlists.router. cbn.
  destruct (playlistId =? ""); cbn; repeat split; reflexivity.
Qed.

End Membership.

(* ================================================================== *)
(** ** Content ingestion *)

Section Ingestion.

Variable svc : services.

Import Facts.

Lemma or_none_r (a : option string) :
  JS.truthy (JS.or a None) = JS.truthy a.
Proof. unfold JS.or. destruct (JS.truthy a) eqn:E; [exact E | reflexivity]. Qed.



(** Step 2 of the name resolution, whatever the other requests do. *)
Lemma uploader_from_supabase_eq (req : request) (n : option string)
    (rt : runtime) :
  exists rt' : runtime,
    Upload.uploader_from_supabase svc req n rt
      = (inr match provider_user svc req with
             | Some user =>
                 (JS.or (Some (su_id user)) None,
                  if negb (JS.truthy n)
                  then JS.or (JS.or (su_metadata_name user) (su_email user))
                             None
                  else n)
             | None => (None, n)
             end, rt') /\
    (rt_others rt = [] -> rt' = rt).
Proof.
  unfold Upload.uploader_from_supabase, provider_user, try_catch, bind, await,
    ret.
  destruct (headers_authorization req) as [h|]; [|now exists rt].
  destruct (nth_error (JS.split_space h) 1) as [tok|]; [|now exists rt].
  destruct (JS.truthy (Some tok)); cbn [negb]; [|now exists rt].
  destruct (auth_getUser svc tok) as [e|[user|] err]; cbn;
    (eexists; split; [reflexivity|]);
    intros E; destruct rt as [w o]; cbn in *; subst o; reflexivity.
Qed.

Lemma truthy_some' (s : string) : JS.truthy (Some s) = negb (s =? "").
Proof. reflexivity. Qed.

Lemma first_truthy (a : option string) (rest : list (option string))
    (last : string) :
  JS.truthy a = true -> a = Some (first_non_empty (a :: rest) last).
Proof.
  destruct a as [s|]; cbn; [|discriminate].
  destruct (s =? ""); [discriminate | reflexivity].
Qed.

Lemma first_falsy (a : option string) (rest : list (option string))
    (last : string) :
  JS.truthy a = false ->
  first_non_empty (a :: rest) last = first_non_empty rest last.
Proof.
  destruct a as [s|]; cbn; [|reflexivity].
  destruct (s =? ""); [reflexivity | discriminate].
Qed.

Lemma or_falsy (a b : option string) : JS.truthy a = false -> JS.or a b = b.
Proof. unfold JS.or. now intros ->. Qed.

Lemma or_truthy (a b : option string) : JS.truthy a = true -> JS.or a b = a.
Proof. unfold JS.or. now intros ->. Qed.

Lemma from_body_explicit (req : request) :
  JS.truthy (Upload.uploader_from_body req) = JS.truthy (explicit_name req) /\
  (JS.truthy (explicit_name req) = true ->
   Upload.uploader_from_body req = explicit_name req) /\
  (JS.truthy (explicit_name req) = false ->
   Upload.uploader_from_body req = None).
Proof.
  unfold Upload.uploader_from_body, explicit_name.
  destruct (Upload.field req b_uploader_name) as [s|]; cbn [JS.or_str option_map].
  - assert (E : (if s =? "" then "" else s) = s)
      by (destruct (String.eqb_spec s ""); congruence).
    rewrite E. rewrite or_none_r. split; [reflexivity|]. split; intros T.
    + now apply or_truthy.
    + now apply or_falsy.
  - cbn. auto.
Qed.

(** The steps of the code and the chain of the specification agree. *)
Lemma steps_are_chain (req : request) :
  let n0 := Upload.uploader_from_body req in
  let n1 := match provider_user svc req with
            | Some user =>
                if negb (JS.truthy n0)
                then JS.or (JS.or (su_metadata_name user) (su_email user)) None
                else n0
            | None => n0
            end in
  let n2 := Upload.uploader_from_cookie svc req n1 in
  (if negb (JS.truthy n2) then Some (artist_of req) else n2)
  = Some (uploader_by_chain svc req).
Proof.
  cbv zeta. unfold uploader_by_chain.
  destruct (from_body_explicit req) as (T0 & Y0 & N0).
  destruct (JS.truthy (explicit_name req)) eqn:E.
  - (* the explicit field wins *)
    rewrite (Y0 eq_refl) in *. clear Y0 N0.
    assert (N1 : match provider_user svc req with
                 | Some user =>
                     if negb (JS.truthy (explicit_name req))
                     then JS.or (JS.or (su_metadata_name user) (su_email user))
                                None
                     else explicit_name req
                 | None => explicit_name req
                 end = explicit_name req).
    { destruct (provider_user svc req); [|reflexivity]. now rewrite E. }
    rewrite N1. unfold Upload.uploader_from_cookie. rewrite E. cbn [negb andb].
    rewrite E. cbn [negb]. now apply first_truthy.
  - rewrite (N0 eq_refl) in *. clear Y0 N0 T0.
    rewrite (first_falsy _ _ _ E). cbn [JS.truthy negb].
    set (n1 := match provider_user svc req with
               | Some user =>
                   JS.or (JS.or (su_metadata_name user) (su_email user)) None
               | None => None
               end).
    assert (P : JS.truthy n1 = JS.truthy (provider_name svc req) /\
                (JS.truthy (provider_name svc req) = true ->
                 n1 = provider_name svc req) /\
                (JS.truthy (provider_name svc req) = false -> n1 = None)).
    { unfold n1, provider_name.
      destruct (provider_user svc req) as [user|]; [|cbn; auto].
      rewrite or_none_r. split; [reflexivity|]. split; intros T.
      - now apply or_truthy.
      - now apply or_falsy. }
    destruct P as (T1 & Y1 & N1).
    destruct (JS.truthy (provider_name svc req)) eqn:E1.
    + (* the provider's profile wins *)
      rewrite (Y1 eq_refl) in *.
      unfold Upload.uploader_from_cookie. rewrite E1. cbn [negb andb].
      rewrite E1. cbn [negb]. now apply first_truthy.
    + rewrite (N1 eq_refl) in *. clear Y1 N1 T1.
      rewrite (first_falsy _ _ _ E1).
      unfold Upload.uploader_from_cookie, cookie_name.
      cbn [JS.truthy negb andb].
      destruct (cookies_user req) as [c|]; [|reflexivity].
      rewrite truthy_some'.
      destruct (c =? ""); cbn [negb]; [reflexivity|].
      destruct (JSON_parse svc c) as [cookieUser|]; [|reflexivity].
      destruct (JS.truthy (JS.or (cu_name cookieUser) (cu_email cookieUser)))
        eqn:E2.
      * (* the cookie wins *)
        rewrite (or_truthy _ None E2), E2. cbn [negb].
        now apply first_truthy.
      * rewrite (or_falsy _ None E2). cbn [JS.truthy negb].
        now rewrite (first_falsy _ _ _ E2).
Qed.

(** The name resolution leaves the name the chain of the specification
    gives, whatever the other requests do, and touches nothing when the
    request runs alone. *)
Lemma resolve_uploader_chain (req : request) (rt : runtime) :
  exists (authUserId : option string) (rt' : runtime),
    Upload.resolve_uploader svc req (artist_of req) rt
      = (inr (authUserId, Some (uploader_by_chain svc req)), rt') /\
    (rt_others rt = [] -> rt' = rt).
Proof.
  unfold Upload.resolve_uploader, bind.
  destruct (uploader_from_supabase_eq req (Upload.uploader_from_body req) rt)
    as (rt' & -> & A).
  pose proof (steps_are_chain req) as C. cbv zeta in C. unfold ret.
  destruct (provider_user svc req) as [user|]; cbv beta iota zeta;
    rewrite C; eexists; exists rt'; split; try reflexivity; exact A.
Qed.

Lemma or_local_truthy (a : option string) :
  JS.truthy (JS.or a (Some Upload.LOCAL_TEST_PATH)) = true.
Proof. unfold JS.or. destruct (JS.truthy a) eqn:E; [exact E | reflexivity]. Qed.








(** C5.  A submission whose title is empty once trimmed, or that has no
    audio file, is answered 400 at once: the request is not suspended and the
    world is left as it was, whatever the other requests do; in particular
    no upload was attempted on the object store. *)
Theorem invalid_submission_rejected (req : request) (rt : runtime) :
  files_audio req = None \/ title_of req = "" ->
  Upload.uploadTrack svc req rt
    = (inr {| status := 400;
              sent := JError "Title and audio file are required." |}, rt) /\
  attempts (storage (rt_world (snd (Upload.uploadTrack svc req rt))))
    = attempts (storage (rt_world rt)) /\
  objects (storage (rt_world (snd (Upload.uploadTrack svc req rt))))
    = objects (storage (rt_world rt)).
Proof.
  intros H.
  assert (E : Upload.uploadTrack svc req rt = (inr Upload.required, rt)).
  { unfold Upload.uploadTrack, try_catch, bind, ret.
    fold (title_of req).
    destruct (files_audio req) as [audio|]; [|reflexivity].
    destruct H as [H|H]; [discriminate|]. rewrite H. reflexivity. }
  rewrite E. repeat split.
Qed.



End Ingestion.

(* ================================================================== *)
(** ** The theorems at work on the sample deployment *)

Import Facts.

(** Alice adds track 7 to her empty playlist 10, twice. *)
Lemma add_twice_witness :
  exists w1 w2 : world,
    run (Playlists.handleAddTrack Sample.svc Sample.alice_adds_7) Sample.w0
      = (inr {| status := 200;
                sent := JAdded true (negb (member 10 7 (db Sample.w0))) |},
         w1) /\
    run (Playlists.handleAddTrack Sample.svc Sample.alice_adds_7) w1
      = (inr {| status := 200; sent := JAdded true false |}, w2) /\
    member 10 7 (db w1) = true /\
    db w2 = db w1.
Proof.
  apply (add_twice Sample.svc Sample.alice_adds_7 Sample.w0 1 10 7
           {| b_trackId := Some "7"; b_name := None; b_title := None;
              b_artist_name := None; b_artist := None;
              b_uploader_name := None; b_userId := None |}).
  - vm_compute. reflexivity.
  - discriminate.
  - vm_compute. reflexivity.
  - reflexivity.
  - vm_compute. reflexivity.
  - reflexivity.
  - reflexivity.
  - vm_compute. reflexivity.
Defined.

(** The claim as it was stated fails when the pair is a member already:
    Alice owns playlist 10, which holds track 7, and her first add of track
    7 is answered [inserted: false]. *)
Lemma add_twice_counterexample :
  fst (run (Playlists.getLocalUserIdFromToken Sample.svc Sample.alice_adds_7)
           Sample.w1) = inr (Some 1) /\
  owner_of 10 (db Sample.w1) = Some 1 /\
  fst (run (Playlists.handleAddTrack Sample.svc Sample.alice_adds_7) Sample.w1)
    = inr {| status := 200; sent := JAdded true false |} /\
  fst (run (Playlists.handleAddTrack Sample.svc Sample.alice_adds_7) Sample.w1)
    <> inr {| status := 200; sent := JAdded true true |}.
Proof. vm_compute. repeat split. discriminate. Qed.

(** Bob names Alice's playlist 10 and track 7, which no row of [tracks]
    has. *)
Lemma not_owner_is_forbidden_witness :
  exists (answer : response) (w1 : world),
    answer = (if JS.isInteger (JS.parseInt (Some "7"))
              then {| status := 403; sent := JError "Forbidden" |}
              else {| status := 400;
                      sent := JError
                                "playlistId and trackId must be integers" |}) /\
    run (Playlists.handleAddTrack Sample.svc Sample.bob_adds_7) Sample.w0
      = (inr answer, w1) /\
    run (Playlists.handleRemoveTrack Sample.svc Sample.bob_adds_7) Sample.w0
      = (inr answer, w1) /\
    playlist_songs (db w1) = playlist_songs (db Sample.w0) /\
    io w1 = io Sample.w0 /\
    status Playlists.Forbidden <> status Playlists.Unauthorized.
Proof.
  apply (not_owner_is_forbidden Sample.svc Sample.bob_adds_7 Sample.w0
           2 1 10
           {| b_trackId := Some "7"; b_name := None; b_title := None;
              b_artist_name := None; b_artist := None;
              b_uploader_name := None; b_userId := None |}).
  - vm_compute. reflexivity.
  - discriminate.
  - vm_compute. reflexivity.
  - reflexivity.
  - reflexivity.
  - vm_compute. reflexivity.
  - discriminate.
Defined.

(** The claim as it was stated fails for a [trackId] that is not valid: Bob
    does not own playlist 10, his [trackId] is ["abc"], and add and remove
    both answer 400, not 403. *)
Lemma not_owner_invalid_track_counterexample :
  fst (run (Playlists.getLocalUserIdFromToken Sample.svc Sample.bob_sends_abc)
           Sample.w0) = inr (Some 2) /\
  owner_of 10 (db Sample.w0) = Some 1 /\
  fst (run (Playlists.handleAddTrack Sample.svc Sample.bob_sends_abc) Sample.w0)
    = inr {| status := 400;
             sent := JError "playlistId and trackId must be integers" |} /\
  fst (run (Playlists.handleRemoveTrack Sample.svc Sample.bob_sends_abc)
           Sample.w0)
    = inr {| status := 400;
             sent := JError "playlistId and trackId must be integers" |} /\
  fst (run (Playlists.handleAddTrack Sample.svc Sample.bob_sends_abc) Sample.w0)
    <> inr {| status := 403; sent := JError "Forbidden" |}.
Proof. vm_compute. repeat split. discriminate. Qed.

(** Alice names playlist 99, which does not exist. *)
Lemma missing_playlist_is_forbidden_witness :
  exists (answer : response) (w1 : world),
    answer = (if JS.isInteger (JS.parseInt (Some "7"))
              then {| status := 403; sent := JError "Forbidden" |}
              else {| status := 400;
                      sent := JError
                                "playlistId and trackId must be integers" |}) /\
    run (Playlists.handleAddTrack Sample.svc Sample.alice_adds_to_99) Sample.w0
      = (inr answer, w1) /\
    run (Playlists.handleRemoveTrack Sample.svc Sample.alice_adds_to_99)
        Sample.w0
      = (inr answer, w1) /\
    status answer <> 404 /\
    playlist_songs (db w1) = playlist_songs (db Sample.w0).
Proof.
  apply (missing_playlist_is_forbidden Sample.svc Sample.alice_adds_to_99
           Sample.w0 1 99
           {| b_trackId := Some "7"; b_name := None; b_title := None;
              b_artist_name := None; b_artist := None;
              b_uploader_name := None; b_userId := None |}).
  - vm_compute. reflexivity.
  - discriminate.
  - vm_compute. reflexivity.
  - reflexivity.
  - reflexivity.
  - vm_compute. reflexivity.
Defined.

(** The claim as it was stated fails for a [trackId] that is no integer:
    Alice names playlist 99, which does not exist, her [trackId] is ["abc"],
    and add and remove both answer 400, not 403. *)
Lemma missing_playlist_invalid_track_counterexample :
  fst (run (Playlists.getLocalUserIdFromToken Sample.svc
              (Sample.track_request "tok-alice" "99" "abc")) Sample.w0)
    = inr (Some 1) /\
  filter (fun p => (pl_id p =? 99)%Z) (playlists (db Sample.w0)) = [] /\
  fst (run (Playlists.handleAddTrack Sample.svc
              (Sample.track_request "tok-alice" "99" "abc")) Sample.w0)
    = inr {| status := 400;
             sent := JError "playlistId and trackId must be integers" |} /\
  fst (run (Playlists.handleRemoveTrack Sample.svc
              (Sample.track_request "tok-alice" "99" "abc")) Sample.w0)
    = inr {| status := 400;
             sent := JError "playlistId and trackId must be integers" |} /\
  fst (run (Playlists.handleAddTrack Sample.svc
              (Sample.track_request "tok-alice" "99" "abc")) Sample.w0)
    <> inr {| status := 403; sent := JError "Forbidden" |}.
Proof. vm_compute. repeat split. discriminate. Qed.



(** An upload whose title is white space only. *)
Lemma invalid_submission_rejected_witness :
  Upload.uploadTrack Sample.svc Sample.untitled (alone Sample.w0)
    = (inr {| status := 400;
              sent := JError "Title and audio file are required." |},
       alone Sample.w0) /\
  attempts (storage (rt_world (snd (Upload.uploadTrack Sample.svc
                                      Sample.untitled (alone Sample.w0)))))
    = attempts (storage (rt_world (alone Sample.w0))) /\
  objects (storage (rt_world (snd (Upload.uploadTrack Sample.svc
                                     Sample.untitled (alone Sample.w0)))))
    = objects (storage (rt_world (alone Sample.w0))).
Proof.
  apply (invalid_submission_rejected Sample.svc Sample.untitled
           (alone Sample.w0)).
  right. vm_compute. reflexivity.
Defined.



(** The three scenarios of the specification, run on the code. *)

(** Upload with the object store healthy: the URL is the store's, the key
    begins with [tracks/], the name is Alice's. *)
Example scenario_upload_healthy :
  option_map (fun r => (status r, sent r))
    (match fst (run (Upload.uploadTrack Sample.svc Sample.night_drive)
                    Sample.w0) with
     | inr r => Some r
     | inl _ => None
     end)
  = Some (200,
          JUploaded "Track uploaded successfully"
            {| id := 1; title := "Night Drive";
               artist_name := "Unknown Artist";
               uploader_name := Some "Alice";
               public_url :=
                 Some "https://store.example/Tracks/tracks/2000_night_drive.mp3";
               cover_url := Some Upload.LOCAL_TEST_PATH;
               storage_key := Some "tracks/2000_night_drive.mp3";
               size_bytes := Some 4; mime_type := Some "audio/mpeg";
               created_at := 2000; auth_user_id := Some "a1b2-alice";
               user_id := None |}).
Proof. vm_compute. reflexivity. Qed.

(** Upload with the object store forced to fail. *)
Example scenario_upload_failing :
  option_map sent
    (match fst (run (Upload.uploadTrack Sample.svc Sample.night_drive)
                    Sample.w_down) with
     | inr r => Some r
     | inl _ => None
     end)
  = Some (JUploaded "Track uploaded successfully"
            {| id := 1; title := "Night Drive";
               artist_name := "Unknown Artist";
               uploader_name := Some "Alice";
               public_url := Some Upload.LOCAL_TEST_PATH;
               cover_url := Some Upload.LOCAL_TEST_PATH;
               storage_key := Some "debug/2000_night_drive.mp3";
               size_bytes := Some 4; mime_type := Some "audio/mpeg";
               created_at := 2000; auth_user_id := Some "a1b2-alice";
               user_id := None |}).
Proof. vm_compute. reflexivity. Qed.

(** Add track 7 twice: exactly one membership row for the pair. *)
Example scenario_add_twice :
  count_pair 10 7
    (db (snd (run (Playlists.handleAddTrack Sample.svc Sample.alice_adds_7)
                  (snd (run (Playlists.handleAddTrack Sample.svc
                               Sample.alice_adds_7) Sample.w0)))))
  = 1.
Proof. vm_compute. reflexivity. Qed.

(** Ids that are too long.  A track id of 400 digits is no integer to
    [Number.isInteger], and the owner is answered 400; one of 20 digits is
    an integer that the store refuses, and the owner is answered 500.
    Nothing is added. *)
Example scenario_long_ids :
  JS.parseInt (Some (Cases.nines 400)) = JS.Infinity false /\
  fst (run (Playlists.handleAddTrack Sample.svc Cases.alice_adds_400_nines)
           Sample.w0)
    = inr {| status := 400;
             sent := JError "playlistId and trackId must be integers" |} /\
  JS.parseInt (Some (Cases.nines 20)) = JS.Num (10 ^ 20) /\
  fst (run (Playlists.handleAddTrack Sample.svc Cases.alice_adds_20_nines)
           Sample.w0)
    = inr {| status := 500;
             sent := JError "Failed to add track to playlist" |} /\
  playlist_songs
    (db (snd (run (Playlists.handleAddTrack Sample.svc
                     Cases.alice_adds_20_nines) Sample.w0))) = [].
Proof. vm_compute. repeat split. Qed.

(* ================================================================== *)
(** ** The connection pool *)

(** X1.  [query] of [src/db.js], run alone: the result or the error is the
    statement's own, the store is what the statement left, and the client
    taken from the pool is released on both ways out. *)
Theorem query_releases_client {A : Type} (st : Z -> statement A) (w : world) :
  exists w1 : world,
    run (query_now st) w = (fst (st (now w) (db w)), w1) /\
    db w1 = snd (st (now w) (db w)) /\
    pool_in_use w1 = pool_in_use w /\
    storage w1 = storage w /\
    io w1 = io w.
Proof.
  exists (set_db w (snd (st (now w) (db w)))).
  split; [|repeat split].
  apply run_alone. unfold alone. apply query_now_alone.
Qed.

(* ================================================================== *)
(** ** The playlist routes on callers and requests they turn away *)

Section TurnedAway.

Variable svc : services.

Import Facts.

(** X2.  A request the provider does not vouch for (no token, a token the
    provider rejects, or an answer with an error or without a user) resolves
    to [null] and creates no row of [users]; the four playlist routes then
    answer 401, and the world is left as it was. *)
Theorem unverified_is_unauthorized (req : request) (w : world) :
  verified svc req = None ->
  run (Playlists.getLocalUserIdFromToken svc req) w = (inr None, w) /\
  run (Playlists.listPlaylists svc req) w
    = (inr {| status := 401; sent := JError "Unauthorized" |}, w) /\
  run (Playlists.createPlaylist svc req) w
    = (inr {| status := 401; sent := JError "Unauthorized" |}, w) /\
  run (Playlists.handleAddTrack svc req) w
    = (inr {| status := 401; sent := JError "Unauthorized" |}, w) /\
  run (Playlists.handleRemoveTrack svc req) w
    = (inr {| status := 401; sent := JError "Unauthorized" |}, w).
Proof.
  intros V.
  split; [apply run_alone; rewrite resolver_alone, V; reflexivity|].
  repeat split; apply run_alone;
    unfold Playlists.listPlaylists, Playlists.createPlaylist,
      Playlists.handleAddTrack, Playlists.handleRemoveTrack, try_catch, bind;
    rewrite resolver_alone, V; reflexivity.
Qed.

(** X3.  A local id of 0 counts as no identity: the routes test [!userId],
    and answer 401 to a caller whose row of [users] has the id 0. *)
Theorem zero_id_is_unauthorized (req : request) (w : world)
    (user : supabase_user) :
  verified svc req = Some user ->
  local_id (su_id user) (db w) = Some 0 ->
  run (Playlists.listPlaylists svc req) w
    = (inr {| status := 401; sent := JError "Unauthorized" |}, w) /\
  run (Playlists.createPlaylist svc req) w
    = (inr {| status := 401; sent := JError "Unauthorized" |}, w) /\
  run (Playlists.handleAddTrack svc req) w
    = (inr {| status := 401; sent := JError "Unauthorized" |}, w) /\
  run (Playlists.handleRemoveTrack svc req) w
    = (inr {| status := 401; sent := JError "Unauthorized" |}, w).
Proof.
  intros V L.
  repeat split; apply run_alone;
    unfold Playlists.listPlaylists, Playlists.createPlaylist,
      Playlists.handleAddTrack, Playlists.handleRemoveTrack, try_catch, bind;
    rewrite resolver_alone, V, L; reflexivity.
Qed.

(** X4.  The ids are checked before the playlist is looked at: when the
    route parameter or [trackId] is not an integer (it has no digits to
    start with, or so many that [parseInt] gives an infinity), an
    authenticated caller is answered 400 by add and by remove, owner or not,
    and neither [playlist_songs] nor the sockets are touched. *)
Theorem non_integer_ids_are_rejected (req : request) (w : world) (uid : Z)
    (b : body_fields) :
  fst (run (Playlists.getLocalUserIdFromToken svc req) w) = inr (Some uid) ->
  uid <> 0 ->
  body req = Some b ->
  JS.isInteger (JS.parseInt (params_playlistId req)) = false \/
  JS.isInteger (JS.parseInt (b_trackId b)) = false ->
  exists w1 : world,
    run (Playlists.handleAddTrack svc req) w
      = (inr {| status := 400;
                sent := JError "playlistId and trackId must be integers" |},
         w1) /\
    run (Playlists.handleRemoveTrack svc req) w
      = (inr {| status := 400;
                sent := JError "playlistId and trackId must be integers" |},
         w1) /\
    playlist_songs (db w1) = playlist_songs (db w) /\
    io w1 = io w.
Proof.
  intros A U B P. rewrite fst_run in A.
  destruct (resolver_ok svc req w uid A) as (user & w0 & V & R & L & S).
  exists w0.
  destruct (ids_refused svc req w w0 uid b R U B P) as [Ha Hr].
  split; [|split; [|split]]; try apply S.
  - apply run_alone. exact Ha.
  - apply run_alone. exact Hr.
Qed.

(** X5.  A request without a parsed body makes [req.body.trackId] throw; the
    routes catch it and answer 500, each with its own message, and
    [playlist_songs] and the sockets are not touched. *)
Theorem missing_body_is_server_error (req : request) (w : world) (uid : Z) :
  fst (run (Playlists.getLocalUserIdFromToken svc req) w) = inr (Some uid) ->
  uid <> 0 ->
  body req = None ->
  exists w1 : world,
    run (Playlists.handleAddTrack svc req) w
      = (inr {| status := 500;
                sent := JError "Failed to add track to playlist" |}, w1) /\
    run (Playlists.handleRemoveTrack svc req) w
      = (inr {| status := 500;
                sent := JError "Failed to remove track from playlist" |},
         w1) /\
    playlist_songs (db w1) = playlist_songs (db w) /\
    io w1 = io w.
Proof.
  intros A U B. rewrite fst_run in A.
  destruct (resolver_ok svc req w uid A) as (user & w0 & V & R & L & S).
  exists w0.
  assert (E : (uid =? 0)%Z = false) by now apply Z.eqb_neq.
  split; [|split; [|split]]; try apply S.
  - apply run_alone.
    unfold Playlists.handleAddTrack, try_catch, bind. rewrite R.
    cbn [JS.truthy_num negb]. rewrite E. cbn [negb].
    unfold Playlists.read_ids. rewrite B. reflexivity.
  - apply run_alone.
    unfold Playlists.handleRemoveTrack, try_catch, bind. rewrite R.
    cbn [JS.truthy_num negb]. rewrite E. cbn [negb].
    unfold Playlists.read_ids. rewrite B. reflexivity.
Qed.

(** X31.  An id that is an integer to JavaScript and too large for any
    integer of the store (from [2^63] on, either sign) is refused by the
    store when the statement is run: add and remove answer 500, each with
    its own message, and neither [playlist_songs] nor the sockets are
    touched.  The playlist id is met first, at the ownership check; the
    track id only by the owner, whose check passes. *)
Theorem ids_beyond_the_store (req : request) (w : world) (uid pid tid : Z)
    (b : body_fields) :
  fst (run (Playlists.getLocalUserIdFromToken svc req) w) = inr (Some uid) ->
  uid <> 0 ->
  JS.parseInt (params_playlistId req) = JS.Num pid ->
  body req = Some b ->
  JS.parseInt (b_trackId b) = JS.Num tid ->
  (2 ^ 63 <= Z.abs pid)%Z \/
  (Sql.fits Sql.int4 pid = true /\ owner_of pid (db w) = Some uid /\
   (2 ^ 63 <= Z.abs tid)%Z) ->
  exists w1 : world,
    run (Playlists.handleAddTrack svc req) w
      = (inr {| status := 500;
                sent := JError "Failed to add track to playlist" |}, w1) /\
    run (Playlists.handleRemoveTrack svc req) w
      = (inr {| status := 500;
                sent := JError "Failed to remove track from playlist" |},
         w1) /\
    playlist_songs (db w1) = playlist_songs (db w) /\
    io w1 = io w.
Proof.
  intros A U P B T H. rewrite fst_run in A.
  destruct (resolver_ok svc req w uid A) as (user & w0 & V & R & L & S).
  exists w0.
  assert (Big : forall z, (2 ^ 63 <= Z.abs z)%Z -> Sql.fits Sql.int4 z = false).
  { intros z. unfold Sql.fits. change (2 ^ 63)%Z with 9223372036854775808%Z.
    change (2 ^ 31)%Z with 2147483648%Z. intros G.
    apply andb_false_iff. rewrite Z.leb_gt, Z.ltb_ge. lia. }
  split; [|split; [|split]]; try apply S.
  - apply run_alone.
    rewrite (add_resolved svc req w w0 uid pid tid b R U P B T).
    destruct H as [G|(Fp & O & G)].
    + now rewrite (Big pid G).
    + rewrite Fp, (same_but_users_owner _ _ _ S), O, Z.eqb_refl.
      now rewrite (Big tid G).
  - apply run_alone.
    rewrite (remove_resolved svc req w w0 uid pid tid b R U P B T).
    destruct H as [G|(Fp & O & G)].
    + now rewrite (Big pid G).
    + rewrite Fp, (same_but_users_owner _ _ _ S), O, Z.eqb_refl.
      now rewrite (Big tid G).
Qed.

End TurnedAway.

(* ================================================================== *)
(** ** The token of a request *)

Section TokenFacts.

Variable svc : services.

Import Facts Terms.

(** X6.  The token is read from the authorization header before the
    cookies, and the word in front of it is dropped: a header
    [<scheme> <token>] resolves as the bare token does, and once the header
    is not empty the cookies [authorization] and [token] play no part. *)
Theorem token_of_header (req : request) (scheme tok : string)
    (authorization token user : option string) (rt : runtime) :
  no_space scheme = true ->
  no_space tok = true ->
  tok <> "" ->
  Playlists.getLocalUserIdFromToken svc
    (with_header req (Some (scheme ++ " " ++ tok))) rt
  = Playlists.getLocalUserIdFromToken svc (with_header req (Some tok)) rt /\
  Playlists.getLocalUserIdFromToken svc
    (with_cookies (with_header req (Some tok)) authorization token user) rt
  = Playlists.getLocalUserIdFromToken svc (with_header req (Some tok)) rt.
Proof.
  intros Ns Nt Ne.
  assert (H1 : JS.truthy (Some (scheme ++ String " " tok)) = true)
    by (cbn; now rewrite append_space_non_empty).
  assert (H2 : JS.truthy (Some tok) = true)
    by (cbn; apply negb_true_iff; now apply String.eqb_neq).
  change (scheme ++ " " ++ tok) with (scheme ++ String " " tok).
  unfold Playlists.getLocalUserIdFromToken.
  cbn [with_header with_cookies headers_authorization cookies_authorization
         cookies_token].
  rewrite !(or_truthy _ _ H1), !(or_truthy _ _ H2).
  rewrite (split_at_space scheme tok Ns), (split_no_space tok Nt).
  cbn [nth_error]. rewrite (or_truthy _ _ H2).
  rewrite (or_falsy None (Some tok) eq_refl).
  split; reflexivity.
Qed.

End TokenFacts.

(* ================================================================== *)
(** ** The constraints of the store under each statement *)

Section Constraints.

Import Facts Terms.

Lemma keys_below_next (ids : list Z) (seq : Z) :
  keys_below ids seq -> keys_below (ids ++ [seq]) (seq + 1).
Proof.
  intros [N B]. split.
  - apply Permutation_NoDup with (l := seq :: ids).
    + apply Permutation_cons_append.
    + constructor; [|exact N]. intros I. specialize (B _ I). lia.
  - intros i I. apply in_app_or in I. destruct I as [I|[<-|[]]].
    + specialize (B _ I). lia.
    + lia.
Qed.

Lemma store_ok_insert_user (n e : option string) (a : string) (d : database) :
  store_ok d -> store_ok (snd (Sql.insert_user n e a d)).
Proof.
  intros O. pose proof O as (Us & Up & Ku & Kp & Kt).
  pose proof (insert_user_unique n e a d Us) as Us'.
  unfold Sql.insert_user in *.
  destruct (existsb _ (users d)); cbn [snd] in *; [exact O|].
  split; [exact Us'|].
  split; [exact Up|]. split; [|split; assumption].
  cbn [users users_seq]. rewrite map_app. now apply keys_below_next.
Qed.

Lemma store_ok_insert_playlist (t uid : Z) (name : string) (d : database) :
  store_ok d -> store_ok (snd (Sql.insert_playlist t uid name d)).
Proof.
  intros (Us & Up & Ku & Kp & Kt).
  unfold store_ok, Sql.insert_playlist. cbn [snd].
  repeat split; try assumption; try apply Ku; try apply Kt.
  - cbn [playlists]. rewrite map_app. now apply keys_below_next.
  - cbn [playlists playlists_seq]. rewrite map_app.
    now apply (keys_below_next _ _ Kp).
Qed.

Lemma store_ok_insert_track (t : Z) (v : Sql.track_values) (d : database) :
  store_ok d -> store_ok (snd (Sql.insert_track t v d)).
Proof.
  intros (Us & Up & Ku & Kp & Kt).
  unfold store_ok, Sql.insert_track. cbn [snd].
  repeat split; try assumption; try apply Ku; try apply Kp.
  - cbn [tracks]. rewrite map_app. now apply keys_below_next.
  - cbn [tracks tracks_seq]. rewrite map_app.
    now apply (keys_below_next _ _ Kt).
Qed.

Lemma same_pair_pair_of (p t : Z) (r : song_row) :
  Sql.same_pair p t r = true <-> pair_of r = (p, t).
Proof.
  unfold Sql.same_pair, pair_of. rewrite andb_true_iff, !Z.eqb_eq.
  split; [intros [-> ->]; reflexivity | intros [= -> ->]; auto].
Qed.

Lemma store_ok_insert_song (now p t : Z) (d : database) :
  store_ok d -> store_ok (snd (Sql.insert_playlist_song now p t d)).
Proof.
  intros O. pose proof O as (Us & Up & Ku & Kp & Kt).
  unfold Sql.insert_playlist_song.
  destruct (existsb _ (playlist_songs d)) eqn:E; cbn [snd]; [exact O|].
  unfold store_ok. repeat split; try assumption; try apply Ku; try apply Kp;
    try apply Kt.
  unfold unique_pairs in *. cbn [playlist_songs Sql.set_playlist_songs].
  rewrite map_app. cbn [map].
  apply Permutation_NoDup with (l := (p, t) :: map pair_of (playlist_songs d)).
  - apply Permutation_cons_append.
  - constructor; [|exact Up]. intros I.
    apply in_map_iff in I. destruct I as (r & Er & Ir).
    assert (T : existsb (Sql.same_pair p t) (playlist_songs d) = true).
    { apply existsb_exists. exists r. split; [exact Ir|].
      now apply same_pair_pair_of. }
    congruence.
Qed.

Lemma NoDup_map_filter {A B : Type} (f : A -> B) (g : A -> bool)
    (l : list A) :
  NoDup (map f l) -> NoDup (map f (filter g l)).
Proof.
  induction l as [|x l IH]; cbn; [auto|].
  intros N. inversion N as [|? ? Hx Hl]; subst.
  destruct (g x); cbn; [|auto].
  constructor; [|auto]. intros I. apply Hx.
  apply in_map_iff in I. destruct I as (y & Ey & Iy).
  apply filter_In in Iy. apply in_map_iff. exists y. tauto.
Qed.

Lemma store_ok_delete_song (p t : Z) (d : database) :
  store_ok d -> store_ok (snd (Sql.delete_playlist_song p t d)).
Proof.
  intros (Us & Up & Ku & Kp & Kt).
  unfold store_ok, Sql.delete_playlist_song. cbn [snd].
  repeat split; try assumption; try apply Ku; try apply Kp; try apply Kt.
  unfold unique_pairs in *. cbn [playlist_songs Sql.set_playlist_songs].
  now apply NoDup_map_filter.
Qed.

End Constraints.

(* ================================================================== *)
(** ** What each playlist route does to the world *)

Section Outcomes.

Variable svc : services.

Import Facts Terms.

(** The resolver, whatever the request: it returns, and the world is the one
    it found or the one with a new row of [users]. *)
Lemma resolver_outcomes (req : request) (w : world) :
  exists (r : option Z) (w0 : world),
    Playlists.getLocalUserIdFromToken svc req (alone w) = (inr r, alone w0) /\
    (w0 = w \/
     exists user, w0 = set_db w (with_user user (db w))).
Proof.
  rewrite resolver_alone.
  destruct (verified svc req) as [user|]; [|now exists None, w; auto].
  destruct (local_id (su_id user) (db w)) as [found|].
  - exists (Some found), w. auto.
  - eexists. eexists. split; [reflexivity|]. right. now exists user.
Qed.

(** [Promise.all] over calls that only read. *)
Lemma all_reads {A B : Type} (f : A -> M B) (g : A -> B) (l : list A)
    (w : world) :
  (forall x, f x (alone w) = (inr (g x), alone w)) ->
  Playlists.all f l (alone w) = (inr (map g l), alone w).
Proof.
  intros H. induction l as [|x l IH]; cbn [Playlists.all map];
    [reflexivity|].
  unfold bind. rewrite H, IH. reflexivity.
Qed.

(** A statement that only reads, run alone. *)
Lemma query_reads {A : Type} (st : statement A) (w : world) :
  snd (st (db w)) = db w ->
  query st (alone w) = (fst (st (db w)), alone w).
Proof.
  intros E. unfold alone. rewrite query_alone, E, set_db_same. reflexivity.
Qed.

(** [GET /] once the caller is resolved. *)
Lemma list_resolved (req : request) (w w0 : world) (uid : Z) :
  Playlists.getLocalUserIdFromToken svc req (alone w)
    = (inr (Some uid), alone w0) ->
  uid <> 0 ->
  Playlists.listPlaylists svc req (alone w) =
  (inr (res_json
          (JPlaylists
             (map (fun pl =>
                     (pl, rows_from (Sql.select_playlist_tracks (pi_id pl))
                                    (db w0)))
                  (rows_from (Sql.select_playlists uid) (db w0)))
             Playlists.SAMPLE_IMAGE_PATH)),
   alone w0).
Proof.
  intros R U.
  unfold Playlists.listPlaylists, try_catch, bind. rewrite R.
  cbn [JS.truthy_num negb].
  destruct (Z.eqb_spec uid 0) as [|_]; [contradiction|]. cbn [negb].
  unfold Playlists.dbQuery.
  rewrite (query_reads (Sql.select_playlists uid) w0 eq_refl).
  cbn [fst Sql.select_playlists].
  rewrite (all_reads _
             (fun pl => (pl, rows_from (Sql.select_playlist_tracks (pi_id pl))
                                       (db w0)))).
  - reflexivity.
  - intros pl.
    rewrite (query_reads (Sql.select_playlist_tracks (pi_id pl)) w0 eq_refl).
    reflexivity.
Qed.

(** [POST /] once the caller is resolved. *)
Lemma create_resolved (req : request) (w w0 : world) (uid : Z) :
  Playlists.getLocalUserIdFromToken svc req (alone w)
    = (inr (Some uid), alone w0) ->
  uid <> 0 ->
  Playlists.createPlaylist svc req (alone w) =
  if name_of req =? "" then
    (inr (status_json 400 (JError "Name is required")), alone w0)
  else
    (inr (status_json 201
            (JCreated (Some {| pi_id := playlists_seq (db w0);
                               pi_name := name_of req;
                               pi_created_at := now w0 |}))),
     alone (after_create uid (name_of req) w0)).
Proof.
  intros R U.
  unfold Playlists.createPlaylist, try_catch, bind. rewrite R.
  cbn [JS.truthy_num negb].
  destruct (Z.eqb_spec uid 0) as [|_]; [contradiction|]. cbn [negb].
  fold (name_of req).
  destruct (name_of req =? ""); [reflexivity|].
  unfold Playlists.dbQuery_now, alone. rewrite query_now_alone.
  unfold after_create, heard, created_event, emit, sync, ret,
    Sql.insert_playlist.
  cbn. destruct (io w0); reflexivity.
Qed.

(** Every playlist route answers, and leaves one of the worlds of
    [left_by]. *)
Lemma route_outcomes (h : services -> request -> M response) (req : request)
    (w : world) :
  h = Playlists.listPlaylists \/ h = Playlists.createPlaylist \/
  h = Playlists.handleAddTrack \/ h = Playlists.handleRemoveTrack ->
  exists (r : response) (w0 w1 : world),
    h svc req (alone w) = (inr r, alone w1) /\
    (w0 = w \/ exists user, w0 = set_db w (with_user user (db w))) /\
    left_by w0 w1.
Proof.
  intros H.
  destruct (resolver_outcomes req w) as (r & w0 & R & W).
  destruct r as [uid|].
  2: { exists Playlists.Unauthorized, w0, w0.
       split; [|split; [exact W | constructor]].
       destruct H as [->|[->|[->| ->]]];
         unfold Playlists.listPlaylists, Playlists.createPlaylist,
           Playlists.handleAddTrack, Playlists.handleRemoveTrack,
           try_catch, bind; rewrite R; reflexivity. }
  destruct (Z.eqb_spec uid 0) as [Z0|U].
  { exists Playlists.Unauthorized, w0, w0.
    split; [|split; [exact W | constructor]]. subst uid.
    destruct H as [->|[->|[->| ->]]];
      unfold Playlists.listPlaylists, Playlists.createPlaylist,
        Playlists.handleAddTrack, Playlists.handleRemoveTrack,
        try_catch, bind; rewrite R; reflexivity. }
  destruct H as [->|[->|[->| ->]]].
  - rewrite (list_resolved req w w0 uid R U).
    do 3 eexists. split; [reflexivity|]. split; [exact W | constructor].
  - rewrite (create_resolved req w w0 uid R U).
    destruct (name_of req =? "");
      (do 3 eexists; split; [reflexivity|]; split; [exact W | constructor]).
  - destruct (body req) as [b|] eqn:B.
    + destruct (JS.isInteger (JS.parseInt (params_playlistId req))
                && JS.isInteger (JS.parseInt (b_trackId b))) eqn:I.
      * apply andb_prop in I. destruct I as [Ip It].
        destruct (JS.parseInt (params_playlistId req)) as [|pid|] eqn:P;
          try discriminate.
        destruct (JS.parseInt (b_trackId b)) as [|tid|] eqn:T;
          try discriminate.
        rewrite (add_resolved svc req w w0 uid pid tid b R U P B T).
        destruct (Sql.fits Sql.int4 pid);
          [destruct (owner_of pid (db w0)) as [o|];
             [destruct (o =? uid)%Z; [destruct (Sql.fits Sql.int4 tid)|]|]|];
          (do 3 eexists; split; [reflexivity|];
           split; [exact W | constructor]).
      * apply andb_false_iff in I.
        destruct (ids_refused svc req w w0 uid b R U B I) as [Ha _].
        exists Playlists.not_integers, w0, w0.
        split; [exact Ha|]. split; [exact W | constructor].
    + eexists. exists w0, w0.
      split; [|split; [exact W | constructor]].
      unfold Playlists.handleAddTrack, try_catch, bind. rewrite R.
      cbn [JS.truthy_num negb].
      destruct (Z.eqb_spec uid 0) as [|_]; [contradiction|].
      cbn [negb]. unfold Playlists.read_ids. rewrite B. reflexivity.
  - destruct (body req) as [b|] eqn:B.
    + destruct (JS.isInteger (JS.parseInt (params_playlistId req))
                && JS.isInteger (JS.parseInt (b_trackId b))) eqn:I.
      * apply andb_prop in I. destruct I as [Ip It].
        destruct (JS.parseInt (params_playlistId req)) as [|pid|] eqn:P;
          try discriminate.
        destruct (JS.parseInt (b_trackId b)) as [|tid|] eqn:T;
          try discriminate.
        rewrite (remove_resolved svc req w w0 uid pid tid b R U P B T).
        destruct (Sql.fits Sql.int4 pid);
          [destruct (owner_of pid (db w0)) as [o|];
             [destruct (o =? uid)%Z; [destruct (Sql.fits Sql.int4 tid)|]|]|];
          (do 3 eexists; split; [reflexivity|];
           split; [exact W | constructor]).
      * apply andb_false_iff in I.
        destruct (ids_refused svc req w w0 uid b R U B I) as [_ Hr].
        exists Playlists.not_integers, w0, w0.
        split; [exact Hr|]. split; [exact W | constructor].
    + eexists. exists w0, w0.
      split; [|split; [exact W | constructor]].
      unfold Playlists.handleRemoveTrack, try_catch, bind. rewrite R.
      cbn [JS.truthy_num negb].
      destruct (Z.eqb_spec uid 0) as [|_]; [contradiction|].
      cbn [negb]. unfold Playlists.read_ids. rewrite B. reflexivity.
Qed.

End Outcomes.

(* ================================================================== *)
(** ** The router as a whole *)

Section RouterFacts.

Variable svc : services.

Import Facts Terms.

(** What the router serves is one of the four handlers. *)
Lemma dispatch_cases (v : Playlists.verb) (path : list string) (req : request)
    (m : M response) :
  Playlists.dispatch svc v path req = Some m ->
  exists (h : services -> request -> M response) (req' : request),
    m = h svc req' /\
    (h = Playlists.listPlaylists \/ h = Playlists.createPlaylist \/
     h = Playlists.handleAddTrack \/ h = Playlists.handleRemoveTrack).
Proof.
  unfold Playlists.dispatch, Playlists.router.
  destruct v; destruct path as [|p [|s [|x rest]]]; cbn;
    repeat (match goal with
            | |- context [String.eqb ?a ?b] => destruct (String.eqb a b)
            end; cbn);
    try discriminate;
    intros [= <-]; do 2 eexists; (split; [reflexivity|]); auto.
Qed.

Lemma heard_frame (e : event) (w : world) :
  db (heard e w) = db w /\ storage (heard e w) = storage w /\
  pool_in_use (heard e w) = pool_in_use w /\ now (heard e w) = now w.
Proof. unfold heard. destruct (io w); conjuncts; reflexivity. Qed.

(** What the worlds of [left_by] keep. *)
Lemma outcome_facts (w w0 w1 : world) :
  (w0 = w \/ exists user, w0 = set_db w (with_user user (db w))) ->
  left_by w0 w1 ->
  (store_ok (db w) -> store_ok (db w1)) /\
  tracks (db w1) = tracks (db w) /\
  storage w1 = storage w /\
  pool_in_use w1 = pool_in_use w /\
  (exists l, users (db w1) = (users (db w) ++ l)%list) /\
  (exists l, playlists (db w1) = (playlists (db w) ++ l)%list).
Proof.
  intros W L.
  assert (F0 : (store_ok (db w) -> store_ok (db w0)) /\
               tracks (db w0) = tracks (db w) /\
               storage w0 = storage w /\
               pool_in_use w0 = pool_in_use w /\
               (exists l, users (db w0) = (users (db w) ++ l)%list) /\
               playlists (db w0) = playlists (db w)).
  { destruct W as [->|(user & ->)].
    - conjuncts; auto. exists []. now rewrite app_nil_r.
    - cbn [db set_db storage pool_in_use]. unfold with_user.
      split; [apply store_ok_insert_user|].
      unfold Sql.insert_user. destruct (existsb _ (users (db w))); cbn [snd];
        conjuncts; try reflexivity.
      + exists []. now rewrite app_nil_r.
      + cbn. eexists. reflexivity. }
  destruct F0 as (O0 & T0 & S0 & P0 & (lu & U0) & L0).
  destruct L as [|p t|p t|uid name].
  - conjuncts; auto.
    + now exists lu.
    + exists []. now rewrite app_nil_r.
  - unfold after_add.
    destruct (heard_frame
                (added_event p t (negb (member p t (db w0))))
                (set_db w0 (snd (Sql.insert_playlist_song (now w0) p t
                                   (db w0))))) as (-> & -> & -> & _).
    cbn [db set_db storage pool_in_use].
    split; [intros O; apply store_ok_insert_song; auto|].
    unfold Sql.insert_playlist_song.
    destruct (existsb _ (playlist_songs (db w0))); cbn [snd];
      conjuncts; auto; try (now exists lu);
      exists []; cbn; now rewrite app_nil_r.
  - unfold after_remove.
    destruct (heard_frame (removed_event p t)
                (set_db w0 (snd (Sql.delete_playlist_song p t (db w0)))))
      as (-> & -> & -> & _).
    cbn [db set_db storage pool_in_use].
    split; [intros O; apply store_ok_delete_song; auto|].
    cbn. conjuncts; auto; try (now exists lu).
    exists []. now rewrite app_nil_r.
  - unfold after_create.
    match goal with
    | |- context [heard ?e ?x] =>
        destruct (heard_frame e x) as (-> & -> & -> & _)
    end.
    cbn [db set_db storage pool_in_use].
    split; [intros O; apply store_ok_insert_playlist; auto|].
    cbn. conjuncts; auto; try (now exists lu).
    rewrite L0. eexists. reflexivity.
Qed.

(** X7.  Every request the router serves is answered, whatever it asks for,
    and the constraints of the store (one row per subject, one row per pair,
    distinct generated keys below their sequences) hold afterwards when they
    held before. *)
Theorem routes_keep_the_constraints (v : Playlists.verb) (path : list string)
    (req : request) (m : M response) (w : world) :
  Playlists.dispatch svc v path req = Some m ->
  store_ok (db w) ->
  exists (r : response) (w1 : world),
    run m w = (inr r, w1) /\ store_ok (db w1).
Proof.
  intros D O.
  destruct (dispatch_cases v path req m D) as (h & req' & -> & H).
  destruct (route_outcomes svc h req' w H) as (r & w0 & w1 & R & W & L).
  exists r, w1. split; [now apply run_alone|].
  now apply (outcome_facts w w0 w1 W L).
Qed.

(** X8.  No playlist route writes to [tracks] or to the object store, none
    keeps a client of the pool, and none removes or changes a row of [users]
    or of [playlists]: these tables only grow at the end. *)
Theorem routes_leave_the_rest (v : Playlists.verb) (path : list string)
    (req : request) (m : M response) (w : world) :
  Playlists.dispatch svc v path req = Some m ->
  tracks (db (snd (run m w))) = tracks (db w) /\
  storage (snd (run m w)) = storage w /\
  pool_in_use (snd (run m w)) = pool_in_use w /\
  (exists l, users (db (snd (run m w))) = (users (db w) ++ l)%list) /\
  (exists l, playlists (db (snd (run m w))) = (playlists (db w) ++ l)%list).
Proof.
  intros D.
  destruct (dispatch_cases v path req m D) as (h & req' & -> & H).
  destruct (route_outcomes svc h req' w H) as (r & w0 & w1 & R & W & L).
  rewrite (run_alone _ _ _ _ R). cbn [snd].
  now apply (outcome_facts w w0 w1 W L).
Qed.

End RouterFacts.

(* ================================================================== *)
(** ** [ORDER BY] *)

Section Ordering.

Context {A : Type} (key : A -> Z).

Lemma insert_by_perm (before : Z -> Z -> bool) (x : A) (l : list A) :
  Permutation (x :: l) (Sql.insert_by key before x l).
Proof.
  induction l as [|y l IH]; cbn; [reflexivity|].
  destruct (before (key y) (key x)); [|reflexivity].
  rewrite perm_swap. now constructor.
Qed.

Lemma order_by_perm_acc (before : Z -> Z -> bool) (l acc : list A) :
  Permutation (l ++ acc)
    (fold_left (fun a x => Sql.insert_by key before x a) l acc).
Proof.
  revert acc. induction l as [|x l IH]; intros acc; cbn; [reflexivity|].
  rewrite <- IH. rewrite <- insert_by_perm.
  now rewrite Permutation_middle.
Qed.

(** [ORDER BY] returns the rows it was given, each as often. *)
Lemma order_by_perm (before : Z -> Z -> bool) (l : list A) :
  Permutation l (Sql.order_by key before l).
Proof.
  unfold Sql.order_by. rewrite <- order_by_perm_acc.
  now rewrite app_nil_r.
Qed.

Lemma order_by_In (before : Z -> Z -> bool) (l : list A) (x : A) :
  In x (Sql.order_by key before l) <-> In x l.
Proof.
  split; apply Permutation_in;
    [symmetry|]; apply order_by_perm.
Qed.

(** Sortedness for an order that is total and transitive. *)
Section Sorted.

Variable before : Z -> Z -> bool.
Hypothesis total : forall a b, before a b = true \/ before b a = true.
Hypothesis trans :
  forall a b c, before a b = true -> before b c = true -> before a c = true.

Let ordered (a b : A) : Prop := before (key a) (key b) = true.

Lemma insert_by_sorted (x : A) (l : list A) :
  StronglySorted ordered l ->
  StronglySorted ordered (Sql.insert_by key before x l).
Proof.
  induction 1 as [|y l S IH F]; cbn; [repeat constructor|].
  destruct (before (key y) (key x)) eqn:E.
  - constructor; [exact IH|].
    apply Forall_forall. intros z Iz.
    apply (Permutation_in _ (Permutation_sym (insert_by_perm before x l)))
      in Iz.
    destruct Iz as [<-|Iz]; [exact E|].
    now apply (proj1 (Forall_forall _ _) F).
  - assert (X : ordered x y).
    { destruct (total (key x) (key y)) as [T|T]; [exact T | congruence]. }
    constructor; [now constructor|].
    constructor; [exact X|].
    apply Forall_forall. intros z Iz.
    apply (trans _ (key y)); [exact X|].
    now apply (proj1 (Forall_forall _ _) F).
Qed.

Lemma order_by_sorted (l : list A) :
  StronglySorted ordered (Sql.order_by key before l).
Proof.
  unfold Sql.order_by.
  assert (G : forall acc, StronglySorted ordered acc ->
                StronglySorted ordered
                  (fold_left (fun a x => Sql.insert_by key before x a) l acc)).
  { induction l as [|x l IH]; intros acc S; cbn; [exact S|].
    apply IH. now apply insert_by_sorted. }
  apply G. constructor.
Qed.

End Sorted.

Lemma order_by_descending (l : list A) :
  StronglySorted (fun a b => (key b <= key a)%Z) (Sql.order_by key Z.geb l).
Proof.
  pose proof (order_by_sorted Z.geb) as S.
  assert (E : forall a b, Z.geb a b = true <-> (b <= a)%Z).
  { intros a b. rewrite Z.geb_leb. apply Z.leb_le. }
  eapply StronglySorted_ind
    with (P := StronglySorted (fun a b => (key b <= key a)%Z)).
  - constructor.
  - intros a l0 _ IH F. constructor; [exact IH|].
    eapply Forall_impl; [|exact F]. intros b. apply E.
  - apply S.
    + intros a b. rewrite !E. lia.
    + intros a b c. rewrite !E. lia.
Qed.

Lemma order_by_ascending (l : list A) :
  StronglySorted (fun a b => (key a <= key b)%Z) (Sql.order_by key Z.leb l).
Proof.
  pose proof (order_by_sorted Z.leb) as S.
  eapply StronglySorted_ind
    with (P := StronglySorted (fun a b => (key a <= key b)%Z)).
  - constructor.
  - intros a l0 _ IH F. constructor; [exact IH|].
    eapply Forall_impl; [|exact F]. intros b. apply Z.leb_le.
  - apply S.
    + intros a b. rewrite !Z.leb_le. lia.
    + intros a b c. rewrite !Z.leb_le. lia.
Qed.

End Ordering.

(* ================================================================== *)
(** ** Playlists: creating, filling and listing *)

Section PlaylistLife.

Variable svc : services.

Import Facts Terms.

(** A successful resolution, with all it leaves as it was. *)
Lemma resolver_keeps (req : request) (w : world) (uid : Z) :
  fst (Playlists.getLocalUserIdFromToken svc req (alone w)) = inr (Some uid) ->
  exists user w0,
    verified svc req = Some user /\
    Playlists.getLocalUserIdFromToken svc req (alone w)
      = (inr (Some uid), alone w0) /\
    local_id (su_id user) (db w0) = Some uid /\
    same_but_users w w0 /\
    playlists_seq (db w0) = playlists_seq (db w) /\
    tracks_seq (db w0) = tracks_seq (db w).
Proof.
  intros A.
  destruct (resolver_ok svc req w uid A) as (user & w0 & V & R & L & S).
  exists user, w0. conjuncts; auto.
  - destruct (resolver_outcomes svc req w) as (r & w0' & R' & W).
    rewrite R in R'. unfold alone in R'. inversion R'; subst.
    destruct W as [->|(u & ->)]; [reflexivity|].
    cbn. unfold with_user, Sql.insert_user.
    destruct (existsb _ (users (db w))); reflexivity.
  - destruct (resolver_outcomes svc req w) as (r & w0' & R' & W).
    rewrite R in R'. unfold alone in R'. inversion R'; subst.
    destruct W as [->|(u & ->)]; [reflexivity|].
    cbn. unfold with_user, Sql.insert_user.
    destruct (existsb _ (users (db w))); reflexivity.
Qed.

(** X10.  [POST /] without a usable name: when the body is missing, or
    [name] is missing or empty once trimmed, an authenticated caller is
    answered 400, no playlist is created and no event is sent. *)
Theorem create_needs_a_name (req : request) (w : world) (uid : Z) :
  fst (run (Playlists.getLocalUserIdFromToken svc req) w) = inr (Some uid) ->
  uid <> 0 ->
  name_of req = "" ->
  exists w1 : world,
    run (Playlists.createPlaylist svc req) w
      = (inr {| status := 400; sent := JError "Name is required" |}, w1) /\
    playlists (db w1) = playlists (db w) /\
    playlists_seq (db w1) = playlists_seq (db w) /\
    io w1 = io w.
Proof.
  intros A U N. rewrite fst_run in A.
  destruct (resolver_keeps req w uid A) as (user & w0 & V & R & L & S & Ps & _).
  exists w0. split; [|split; [apply S | split; [exact Ps | apply S]]].
  apply run_alone. rewrite (create_resolved svc req w w0 uid R U), N.
  reflexivity.
Qed.




End PlaylistLife.

(* ================================================================== *)
(** ** Listing playlists *)

Section ListingPlaylists.

Variable svc : services.

Import Facts Terms.

Lemma StronglySorted_map {A B : Type} (f : A -> B) (R : B -> B -> Prop)
    (l : list A) :
  StronglySorted (fun a b => R (f a) (f b)) l -> StronglySorted R (map f l).
Proof.
  induction 1 as [|x l S IH F]; cbn; constructor; [exact IH|].
  apply Forall_forall. intros y Iy. apply in_map_iff in Iy.
  destruct Iy as (z & <- & Iz). now apply (proj1 (Forall_forall _ _) F).
Qed.

Lemma flat_map_ids {A B : Type} (F : A -> list B) (idA : A -> Z)
    (idB : B -> Z) (l : list A) :
  (forall r, F r <> [] /\ forall e, In e (F r) -> idB e = idA r) ->
  forall t, In t (map idB (flat_map F l)) <-> In t (map idA l).
Proof.
  intros H t. rewrite !in_map_iff. split.
  - intros (e & <- & Ie). apply in_flat_map in Ie.
    destruct Ie as (r & Ir & Ie). exists r. split; [|exact Ir].
    symmetry. now apply (proj2 (H r)).
  - intros (r & <- & Ir). destruct (H r) as [N E].
    destruct (F r) as [|e es] eqn:Fr; [contradiction|].
    exists e. split; [apply E; now left|].
    apply in_flat_map. exists r. split; [exact Ir|]. rewrite Fr. now left.
Qed.

Lemma flat_map_singletons {A B : Type} (F : A -> list B) (idA : A -> Z)
    (idB : B -> Z) (l : list A) :
  (forall r, In r l -> exists e, F r = [e] /\ idB e = idA r) ->
  map idB (flat_map F l) = map idA l.
Proof.
  induction l as [|r l IH]; cbn; [reflexivity|]. intros H.
  destruct (H r (or_introl eq_refl)) as (e & -> & E). cbn.
  rewrite E, IH; [reflexivity|]. intros x Ix. apply H. now right.
Qed.

Lemma filter_unique_id (ts : list track_row) (i : Z) :
  NoDup (map t_id ts) ->
  (length (filter (fun t => (t_id t =? i)%Z) ts) <= 1)%nat.
Proof.
  induction ts as [|x ts IH]; cbn; [lia|]. intros N.
  inversion N as [|? ? Hx Hl]; subst.
  destruct (Z.eqb_spec (t_id x) i) as [<-|_]; [|auto].
  assert (E : filter (fun t => (t_id t =? t_id x)%Z) ts = []).
  { destruct (filter _ ts) as [|y r] eqn:F; [reflexivity|].
    exfalso. apply Hx.
    assert (I : In y (filter (fun t => (t_id t =? t_id x)%Z) ts))
      by (rewrite F; now left).
    apply filter_In in I. destruct I as [I Ey].
    apply Z.eqb_eq in Ey. rewrite <- Ey. now apply (in_map t_id). }
  rewrite E. cbn. lia.
Qed.

Lemma member_iff (p t : Z) (d : database) :
  member p t d = true <->
  In t (map ps_track_id
          (filter (fun r => (ps_playlist_id r =? p)%Z) (playlist_songs d))).
Proof.
  unfold member. rewrite existsb_exists, in_map_iff. split.
  - intros (r & Ir & E). unfold Sql.same_pair in E.
    apply andb_true_iff in E. destruct E as [Ep Et].
    exists r. split; [now apply Z.eqb_eq|].
    apply filter_In. auto.
  - intros (r & <- & Ir). apply filter_In in Ir. destruct Ir as [Ir Ep].
    exists r. split; [exact Ir|]. unfold Sql.same_pair.
    now rewrite Ep, Z.eqb_refl.
Qed.

(** The rows of the left join: one entry at least for each membership row
    of the playlist, with its track id and the row of [tracks] of that id
    when there is one. *)
Lemma join_rows (pid : Z) (d : database) :
  exists F : song_row -> list Sql.listed_track,
    rows_from (Sql.select_playlist_tracks pid) d
      = flat_map F
          (Sql.order_by ps_added_at Z.leb
             (filter (fun r => (ps_playlist_id r =? pid)%Z)
                     (playlist_songs d))) /\
    forall r,
      F r <> [] /\
      (length (filter (fun t => (t_id t =? ps_track_id r)%Z) (tracks d)) <= 1
       -> exists e, F r = [e])%nat /\
      forall e, In e (F r) ->
        Sql.lt_track_id e = ps_track_id r /\
        match Sql.lt_track e with
        | Some tr => In tr (tracks d) /\ t_id tr = Sql.lt_track_id e
        | None => forall tr, In tr (tracks d) -> t_id tr <> Sql.lt_track_id e
        end.
Proof.
  unfold rows_from, Sql.select_playlist_tracks. cbn [fst rows returning].
  eexists. split; [reflexivity|]. intros r. cbv beta.
  destruct (filter _ (tracks d)) as [|x xs] eqn:Fx.
  - split; [discriminate|]. split; [intros _; now eexists|].
    intros e [<-|[]]. cbn. split; [reflexivity|].
    intros tr Itr Etr.
    assert (I : In tr (filter (fun t => (t_id t =? ps_track_id r)%Z)
                              (tracks d))).
    { apply filter_In. split; [exact Itr|]. now apply Z.eqb_eq. }
    rewrite Fx in I. contradiction.
  - split; [discriminate|]. split.
    + cbn. intros Le. destruct xs; [now eexists | cbn in Le; lia].
    + intros e Ie.
      apply in_map_iff in Ie. destruct Ie as (tr & <- & Itr).
      cbn. split; [reflexivity|]. rewrite <- Fx in Itr.
      apply filter_In in Itr. destruct Itr as [Itr Etr].
      split; [exact Itr|]. now apply Z.eqb_eq.
Qed.

(** The track ids listed under a playlist are those of its members. *)
Lemma join_ids (pid : Z) (d : database) (t : Z) :
  In t (map Sql.lt_track_id (rows_from (Sql.select_playlist_tracks pid) d))
  <-> member pid t d = true.
Proof.
  destruct (join_rows pid d) as (F & -> & HF).
  rewrite (flat_map_ids F ps_track_id Sql.lt_track_id).
  - rewrite member_iff, !in_map_iff. split.
    + intros (r & E & Ir). exists r. split; [exact E|].
      now apply (order_by_In ps_added_at) in Ir.
    + intros (r & E & Ir). exists r. split; [exact E|].
      now apply (order_by_In ps_added_at).
  - intros r. split; [apply HF|]. intros e Ie. now apply HF.
Qed.

(** The playlists listed for a user. *)
Lemma owned_rows (uid : Z) (d : database) (p : playlist_row) :
  In p (playlists d) -> pl_user_id p = uid ->
  In (info_of p) (rows_from (Sql.select_playlists uid) d).
Proof.
  intros I E. unfold rows_from, Sql.select_playlists.
  cbn [fst rows returning]. apply in_map.
  apply (order_by_In pl_created_at). apply filter_In.
  split; [exact I|]. now apply Z.eqb_eq.
Qed.

(** X13.  [GET /] lists the caller's playlists and no other: the entries are
    the rows of [playlists] whose [user_id] is the caller's id, each once,
    the newest first; the route writes to no table but [users]. *)
Theorem list_shows_own_playlists (req : request) (w : world) (uid : Z) :
  fst (run (Playlists.getLocalUserIdFromToken svc req) w) = inr (Some uid) ->
  uid <> 0 ->
  exists (l : list (playlist_info * list Sql.listed_track)) (w1 : world),
    run (Playlists.listPlaylists svc req) w
      = (inr {| status := 200;
                sent := JPlaylists l
                          "/mnt/data/Screenshot 2025-11-25 at 11.38.56 PM.png" |},
         w1) /\
    Permutation (map fst l)
      (map info_of
         (filter (fun p => (pl_user_id p =? uid)%Z) (playlists (db w)))) /\
    StronglySorted (fun a b => (pi_created_at b <= pi_created_at a)%Z)
      (map fst l) /\
    same_but_users w w1.
Proof.
  intros A U. rewrite fst_run in A.
  destruct (resolver_ok svc req w uid A) as (user & w0 & V & R & L & S).
  eexists. exists w0. split; [|split; [|split; [|exact S]]].
  - apply run_alone. rewrite (list_resolved svc req w w0 uid R U).
    reflexivity.
  - rewrite map_map. cbn [fst]. rewrite map_id.
    unfold rows_from, Sql.select_playlists. cbn [fst rows returning].
    destruct S as (-> & _). apply Permutation_map. symmetry.
    apply order_by_perm.
  - rewrite map_map. cbn [fst]. rewrite map_id.
    unfold rows_from, Sql.select_playlists. cbn [fst rows returning].
    apply StronglySorted_map.
    apply (order_by_descending pl_created_at).
Qed.

(** X14.  The tracks listed under a playlist are its members: a track id is
    listed exactly when the pair is in [playlist_songs].  The join is a left
    join: an entry carries the row of [tracks] with that id, and a member
    without such a row is still listed, with no columns. *)
Theorem list_shows_members (req : request) (w : world) (uid : Z) :
  fst (run (Playlists.getLocalUserIdFromToken svc req) w) = inr (Some uid) ->
  uid <> 0 ->
  exists (l : list (playlist_info * list Sql.listed_track)) (w1 : world),
    run (Playlists.listPlaylists svc req) w
      = (inr {| status := 200;
                sent := JPlaylists l
                          "/mnt/data/Screenshot 2025-11-25 at 11.38.56 PM.png" |},
         w1) /\
    forall pl ts, In (pl, ts) l ->
      (forall t, In t (map Sql.lt_track_id ts) <->
                 member (pi_id pl) t (db w) = true) /\
      (forall e, In e ts ->
         match Sql.lt_track e with
         | Some tr => In tr (tracks (db w)) /\ t_id tr = Sql.lt_track_id e
         | None => forall tr, In tr (tracks (db w)) ->
                              t_id tr <> Sql.lt_track_id e
         end).
Proof.
  intros A U. rewrite fst_run in A.
  destruct (resolver_ok svc req w uid A) as (user & w0 & V & R & L & S).
  eexists. exists w0. split.
  - apply run_alone. rewrite (list_resolved svc req w w0 uid R U).
    reflexivity.
  - intros pl ts I. apply in_map_iff in I. destruct I as (pl' & E & _).
    injection E as -> <-.
    assert (Ed : rows_from (Sql.select_playlist_tracks (pi_id pl)) (db w0)
                 = rows_from (Sql.select_playlist_tracks (pi_id pl)) (db w)).
    { destruct S as (_ & Ss & St & _).
      unfold rows_from, Sql.select_playlist_tracks.
      cbn [fst rows returning]. now rewrite Ss, St. }
    rewrite Ed. split.
    + intros t. apply join_ids.
    + intros e Ie. destruct (join_rows (pi_id pl) (db w)) as (F & EF & HF).
      rewrite EF in Ie. apply in_flat_map in Ie.
      destruct Ie as (r & _ & Ie). now apply (HF r).
Qed.

(** X15.  When the ids of [tracks] are distinct, a playlist is listed with
    one entry for each of its membership rows, the oldest [added_at]
    first. *)
Theorem list_shows_members_in_order (req : request) (w : world) (uid : Z) :
  fst (run (Playlists.getLocalUserIdFromToken svc req) w) = inr (Some uid) ->
  uid <> 0 ->
  NoDup (map t_id (tracks (db w))) ->
  exists (l : list (playlist_info * list Sql.listed_track)) (w1 : world),
    run (Playlists.listPlaylists svc req) w
      = (inr {| status := 200;
                sent := JPlaylists l
                          "/mnt/data/Screenshot 2025-11-25 at 11.38.56 PM.png" |},
         w1) /\
    forall pl ts, In (pl, ts) l ->
      exists members : list song_row,
        Permutation members
          (filter (fun r => (ps_playlist_id r =? pi_id pl)%Z)
                  (playlist_songs (db w))) /\
        StronglySorted (fun a b => (ps_added_at a <= ps_added_at b)%Z)
          members /\
        map Sql.lt_track_id ts = map ps_track_id members.
Proof.
  intros A U N. rewrite fst_run in A.
  destruct (resolver_ok svc req w uid A) as (user & w0 & V & R & L & S).
  eexists. exists w0. split.
  - apply run_alone. rewrite (list_resolved svc req w w0 uid R U).
    reflexivity.
  - intros pl ts I. apply in_map_iff in I. destruct I as (pl' & E & _).
    injection E as -> <-.
    assert (Ed : rows_from (Sql.select_playlist_tracks (pi_id pl)) (db w0)
                 = rows_from (Sql.select_playlist_tracks (pi_id pl)) (db w)).
    { destruct S as (_ & Ss & St & _).
      unfold rows_from, Sql.select_playlist_tracks.
      cbn [fst rows returning]. now rewrite Ss, St. }
    rewrite Ed.
    destruct (join_rows (pi_id pl) (db w)) as (F & -> & HF).
    eexists. split; [|split].
    + symmetry. apply (order_by_perm ps_added_at).
    + apply (order_by_ascending ps_added_at).
    + apply flat_map_singletons. intros r _.
      destruct (HF r) as (_ & One & Ids).
      destruct (One (filter_unique_id _ _ N)) as (e & Fe).
      exists e. split; [exact Fe|]. apply Ids. rewrite Fe. now left.
Qed.

(** X16.  What the owner adds, the owner sees: the owner's add of a pair of
    ids of the type of the id columns is served, and a listing asked
    afterwards by the same subject holds the playlist, with the track among
    its entries. *)
Theorem added_track_is_listed (req req' : request) (w : world)
    (uid pid tid : Z) (user user' : supabase_user) (b : body_fields) :
  verified svc req = Some user ->
  verified svc req' = Some user' ->
  su_id user' = su_id user ->
  fst (run (Playlists.getLocalUserIdFromToken svc req) w) = inr (Some uid) ->
  uid <> 0 ->
  JS.parseInt (params_playlistId req) = JS.Num pid ->
  body req = Some b ->
  JS.parseInt (b_trackId b) = JS.Num tid ->
  Sql.fits Sql.int4 pid = true ->
  Sql.fits Sql.int4 tid = true ->
  owner_of pid (db w) = Some uid ->
  exists (r : response) (w1 : world)
         (l : list (playlist_info * list Sql.listed_track)) (w2 : world),
    run (Playlists.handleAddTrack svc req) w = (inr r, w1) /\
    status r = 200 /\
    run (Playlists.listPlaylists svc req') w1
      = (inr {| status := 200;
                sent := JPlaylists l
                          "/mnt/data/Screenshot 2025-11-25 at 11.38.56 PM.png" |},
         w2) /\
    exists pl ts, In (pl, ts) l /\ pi_id pl = pid /\
                  In tid (map Sql.lt_track_id ts).
Proof.
  intros V V' Su A U P B T Ip It O. rewrite fst_run in A.
  destruct (resolver_ok svc req w uid A) as (u & w0 & Vu & R & L & S).
  assert (u = user) by congruence. subst u.
  set (w1 := after_add pid tid w0).
  pose proof (after_add_frame pid tid w0) as [Fu Fp].
  assert (O0 : owner_of pid (db w0) = Some uid)
    by now rewrite (same_but_users_owner _ _ _ S).
  assert (R1 : Playlists.getLocalUserIdFromToken svc req' (alone w1)
               = (inr (Some uid), alone w1)).
  { apply resolver_found with (user := user'); [exact V'|].
    rewrite Su. unfold local_id, rows_of in L |- *. unfold w1.
    now rewrite Fu. }
  eexists. exists w1. eexists. exists w1.
  split; [|split; [|split]].
  - apply run_alone.
    rewrite (add_resolved svc req w w0 uid pid tid b R U P B T). rewrite Ip, It.
    rewrite O0, Z.eqb_refl. reflexivity.
  - reflexivity.
  - apply run_alone. rewrite (list_resolved svc req' w1 w1 uid R1 U).
    reflexivity.
  - unfold owner_of in O0.
    destruct (filter _ (playlists (db w0))) as [|row rest] eqn:Fr;
      [discriminate|].
    cbn in O0. injection O0 as Er.
    assert (Ir : In row (filter (fun p => (pl_id p =? pid)%Z)
                                (playlists (db w0))))
      by (rewrite Fr; now left).
    apply filter_In in Ir. destruct Ir as [Ir Ep]. apply Z.eqb_eq in Ep.
    exists (info_of row).
    exists (rows_from (Sql.select_playlist_tracks (pi_id (info_of row)))
                      (db w1)).
    split; [|split].
    + apply in_map_iff. exists (info_of row). split; [reflexivity|].
      apply owned_rows; [|exact Er]. unfold w1. now rewrite Fp.
    + exact Ep.
    + apply join_ids. cbn [info_of pi_id]. rewrite Ep.
      apply after_add_member.
Qed.

End ListingPlaylists.

(* ================================================================== *)
(** ** What add and remove do to the other pairs *)

Section MembershipFrame.

Variable svc : services.

Import Facts Terms.

Lemma same_pair_other (pid tid p t : Z) (r : song_row) :
  (p, t) <> (pid, tid) ->
  Sql.same_pair p t r = true -> Sql.same_pair pid tid r = false.
Proof.
  intros N E. apply same_pair_pair_of in E.
  destruct (Sql.same_pair pid tid r) eqn:E'; [|reflexivity].
  apply same_pair_pair_of in E'. congruence.
Qed.

Lemma existsb_filter_other (pid tid p t : Z) (l : list song_row) :
  (p, t) <> (pid, tid) ->
  existsb (Sql.same_pair p t)
    (filter (fun r => negb (Sql.same_pair pid tid r)) l)
  = existsb (Sql.same_pair p t) l.
Proof.
  intros N. induction l as [|r l IH]; cbn; [reflexivity|].
  destruct (Sql.same_pair pid tid r) eqn:E; cbn.
  - rewrite IH. destruct (Sql.same_pair p t r) eqn:E'; [|reflexivity].
    rewrite (same_pair_other _ _ _ _ _ N E') in E. discriminate.
  - now rewrite IH.
Qed.

Lemma existsb_filter_self (pid tid : Z) (l : list song_row) :
  existsb (Sql.same_pair pid tid)
    (filter (fun r => negb (Sql.same_pair pid tid r)) l) = false.
Proof.
  induction l as [|r l IH]; cbn; [reflexivity|].
  destruct (Sql.same_pair pid tid r) eqn:E; cbn; [exact IH|].
  now rewrite E, IH.
Qed.

(** X17.  The owner's remove, of a pair of ids of the type of the id
    columns, deletes every row of the pair and no other: the pair is no
    member afterwards, the rows of the other pairs stay, in their order, and
    the answer counts the rows deleted. *)
Theorem remove_clears_the_pair (req : request) (w : world) (uid pid tid : Z)
    (b : body_fields) :
  fst (run (Playlists.getLocalUserIdFromToken svc req) w) = inr (Some uid) ->
  uid <> 0 ->
  JS.parseInt (params_playlistId req) = JS.Num pid ->
  body req = Some b ->
  JS.parseInt (b_trackId b) = JS.Num tid ->
  Sql.fits Sql.int4 pid = true ->
  Sql.fits Sql.int4 tid = true ->
  owner_of pid (db w) = Some uid ->
  exists w1 : world,
    run (Playlists.handleRemoveTrack svc req) w
      = (inr {| status := 200;
                sent := JRemoved true (count_pair pid tid (db w)) |}, w1) /\
    playlist_songs (db w1)
      = filter (fun r => negb (Sql.same_pair pid tid r))
               (playlist_songs (db w)) /\
    member pid tid (db w1) = false /\
    forall p t, (p, t) <> (pid, tid) ->
                member p t (db w1) = member p t (db w).
Proof.
  intros A U P B T Ip It O. rewrite fst_run in A.
  destruct (resolver_ok svc req w uid A) as (user & w0 & V & R & L & S).
  exists (after_remove pid tid w0).
  assert (Es : playlist_songs (db (after_remove pid tid w0))
               = filter (fun r => negb (Sql.same_pair pid tid r))
                        (playlist_songs (db w))).
  { unfold after_remove. rewrite heard_db. cbn.
    destruct S as (_ & -> & _). reflexivity. }
  conjuncts.
  - apply run_alone.
    rewrite (remove_resolved svc req w w0 uid pid tid b R U P B T). rewrite Ip, It.
    rewrite (same_but_users_owner _ _ _ S), O, Z.eqb_refl.
    unfold count_pair. destruct S as (_ & -> & _). reflexivity.
  - exact Es.
  - unfold member. rewrite Es. apply existsb_filter_self.
  - intros p t N. unfold member. rewrite Es.
    now apply existsb_filter_other.
Qed.


Lemma filter_none_keeps (pid tid : Z) (l : list song_row) :
  existsb (Sql.same_pair pid tid) l = false ->
  filter (fun r => negb (Sql.same_pair pid tid r)) l = l.
Proof. intros E. now apply (filter_none _ _ E). Qed.

(** X19.  Add and then remove, by the owner, of a pair of ids of the type of
    the id columns that was no member: the first answers [inserted: true],
    the second [deletedRows: 1], and [playlist_songs] is back to what it
    was. *)
Theorem add_then_remove (req : request) (w : world) (uid pid tid : Z)
    (b : body_fields) :
  fst (run (Playlists.getLocalUserIdFromToken svc req) w) = inr (Some uid) ->
  uid <> 0 ->
  JS.parseInt (params_playlistId req) = JS.Num pid ->
  body req = Some b ->
  JS.parseInt (b_trackId b) = JS.Num tid ->
  Sql.fits Sql.int4 pid = true ->
  Sql.fits Sql.int4 tid = true ->
  owner_of pid (db w) = Some uid ->
  member pid tid (db w) = false ->
  exists w1 w2 : world,
    run (Playlists.handleAddTrack svc req) w
      = (inr {| status := 200; sent := JAdded true true |}, w1) /\
    run (Playlists.handleRemoveTrack svc req) w1
      = (inr {| status := 200; sent := JRemoved true 1 |}, w2) /\
    playlist_songs (db w2) = playlist_songs (db w).
Proof.
  intros A U P B T Ip It O M. rewrite fst_run in A.
  destruct (resolver_ok svc req w uid A) as (user & w0 & V & R & L & S).
  pose proof (same_but_users_member _ _ pid tid S) as M0.
  pose proof (same_but_users_owner _ _ pid S) as O0.
  destruct S as (Sp & Ss & St & Sg & Si & Sn & Sq).
  set (w1 := after_add pid tid w0).
  pose proof (after_add_frame pid tid w0) as [Fu Fp].
  assert (E1 : playlist_songs (db w1)
               = (playlist_songs (db w) ++
                  [{| ps_playlist_id := pid; ps_track_id := tid;
                      ps_added_at := now w0 |}])%list).
  { unfold w1, after_add. rewrite heard_db. cbn.
    unfold Sql.insert_playlist_song. unfold member in M0.
    rewrite M0. unfold member in M. rewrite M. cbn. now rewrite Ss. }
  assert (R1 : Playlists.getLocalUserIdFromToken svc req (alone w1)
               = (inr (Some uid), alone w1)).
  { apply resolver_found with (user := user); [exact V|].
    unfold local_id, rows_of in L |- *. unfold w1. now rewrite Fu. }
  assert (O1 : owner_of pid (db w1) = Some uid).
  { unfold owner_of. unfold w1. rewrite Fp. fold (owner_of pid (db w0)).
    now rewrite O0. }
  exists w1, (after_remove pid tid w1). conjuncts.
  - apply run_alone.
    rewrite (add_resolved svc req w w0 uid pid tid b R U P B T). rewrite Ip, It.
    now rewrite O0, O, Z.eqb_refl, M0, M.
  - apply run_alone.
    rewrite (remove_resolved svc req w1 w1 uid pid tid b R1 U P B T). rewrite Ip, It.
    rewrite O1, Z.eqb_refl. unfold count_pair. rewrite E1, filter_app.
    unfold member in M. rewrite (proj1 (filter_none _ _ M)). cbn.
    unfold Sql.same_pair at 1. cbn. now rewrite !Z.eqb_refl.
  - unfold after_remove. rewrite heard_db. cbn. rewrite E1, filter_app.
    rewrite (filter_none_keeps _ _ _ M). cbn.
    unfold Sql.same_pair at 1. cbn. rewrite !Z.eqb_refl. cbn.
    now rewrite app_nil_r.
Qed.

End MembershipFrame.

(* ================================================================== *)
(** ** What an upload does to the world *)

Section UploadWorld.

Variable svc : services.

Import Facts Terms.

(** An upload to the object store: the attempt is logged, an object is
    added on success and none is touched on failure. *)
Lemma storage_upload_log (bucket key bytes : string) (mime : option string)
    (w : world) :
  let (r, w') := Upload.storage_upload bucket key bytes mime w in
  db w' = db w /\ io w' = io w /\ now w' = now w /\
  pool_in_use w' = pool_in_use w /\
  available (storage w') = available (storage w) /\
  attempts (storage w') = (bucket, key) :: attempts (storage w) /\
  match r with
  | inr _ =>
      objects (storage w')
        = {| o_bucket := bucket; o_key := key; o_bytes := bytes;
             o_content_type := JS.or_str mime "" |} :: objects (storage w)
  | inl _ => objects (storage w') = objects (storage w)
  end.
Proof.
  unfold Upload.storage_upload.
  destruct (available (storage w) && negb _); cbn; conjuncts; reflexivity.
Qed.

(** The cover of a submission, served alone, with what it logs. *)
Lemma upload_cover_log (cover : option file) (w : world) :
  exists (coverPath coverUrl : option string) (w' : world),
    Upload.upload_cover svc (now w) cover (alone w)
      = (inr (coverPath, coverUrl), alone w') /\
    db w' = db w /\ io w' = io w /\ now w' = now w /\
    pool_in_use w' = pool_in_use w /\
    available (storage w') = available (storage w) /\
    attempts (storage w')
      = (match cover with
         | Some c => [("Tracks", cover_key w c)]
         | None => []
         end ++ attempts (storage w))%list /\
    exists l, objects (storage w') = (l ++ objects (storage w))%list.
Proof.
  destruct cover as [cover|]; cbn [Upload.upload_cover].
  - unfold try_catch, bind, Upload.uploadBuffer, bind, await, ret, alone.
    cbn [rt_world rt_others tl]. fold (cover_key w cover).
    pose proof (storage_upload_log "Tracks" (cover_key w cover)
                  (buffer cover) (mimetype cover) w) as F.
    destruct (Upload.storage_upload "Tracks" (cover_key w cover)
                (buffer cover) (mimetype cover) w) as [[e|[]] w'];
      destruct F as (Fd & Fi & Fn & Fp & Fa & Ft & Fo);
      do 2 eexists; exists w'; conjuncts; auto.
    + exists []. exact Fo.
    + eexists [_]. exact Fo.
  - do 2 eexists. exists w. unfold ret. conjuncts; auto. now exists [].
Qed.

(** The row an insert into [tracks] stores and returns. *)
Lemma insert_track_row (t : Z) (v : Sql.track_values) (d : database) :
  exists row : track_row,
    Sql.insert_track t v d
      = (inr (returning [row]), snd (Sql.insert_track t v d)) /\
    tracks (snd (Sql.insert_track t v d)) = (tracks d ++ [row])%list /\
    t_id row = tracks_seq d /\
    t_created_at row = t /\
    t_title row = Sql.v_title v /\
    t_artist_name row = Sql.v_artist_name v /\
    t_uploader_name row = Sql.v_uploader_name v /\
    t_storage_key row = Sql.v_storage_key v /\
    t_public_url row = Sql.v_public_url v /\
    t_cover_url row = Sql.v_cover_url v /\
    t_user_id row = Sql.v_user_id v.
Proof. eexists. unfold Sql.insert_track. cbn. conjuncts; reflexivity. Qed.

(** A valid submission, served alone, with all it leaves behind. *)
Lemma upload_world (req : request) (w : world) (audio : file) :
  files_audio req = Some audio ->
  title_of req <> "" ->
  exists (row : track_row) (v : Sql.track_values) (w1 : world),
    Upload.uploadTrack svc req (alone w)
      = (inr (res_json (JUploaded "Track uploaded successfully"
                          (Upload.normalize row v (artist_of req)))),
         alone w1) /\
    Sql.insert_track (now w) v (db w) = (inr (returning [row]), db w1) /\
    io w1 = option_map
              (cons (new_track_event
                       (Upload.normalize row v (artist_of req))))
              (io w) /\
    attempts (storage w1)
      = (cover_attempts w req ++
         ("Tracks", audio_key w audio) :: attempts (storage w))%list /\
    (exists l, objects (storage w1) = (l ++ objects (storage w))%list) /\
    (audio_upload_fails w audio = false ->
     In (object_of (audio_key w audio) audio) (objects (storage w1))) /\
    pool_in_use w1 = pool_in_use w /\
    now w1 = now w /\
    available (storage w1) = available (storage w) /\
    Sql.v_title v = title_of req /\
    Sql.v_artist_name v = artist_of req /\
    Sql.v_uploader_name v = Some (uploader_by_chain svc req) /\
    Sql.v_user_id v = Upload.legacy_user_id req /\
    Sql.v_storage_key v
      = (if audio_upload_fails w audio
         then "debug/" ++ JS.show (now w) ++ "_"
                ++ Upload.makeSafeName (originalname audio)
         else audio_key w audio) /\
    Sql.v_public_url v
      = (if audio_upload_fails w audio then Some Upload.LOCAL_TEST_PATH
         else JS.or (storage_getPublicUrl svc "Tracks" (audio_key w audio))
                    None).
Proof.
  intros A T.
  unfold Upload.uploadTrack, try_catch, bind. rewrite A.
  fold (title_of req). fold (artist_of req).
  destruct (String.eqb_spec (title_of req) "") as [|_]; [contradiction|].
  destruct (resolve_uploader_chain svc req (alone w)) as (au & rt' & -> & R).
  rewrite (R eq_refl). clear R rt'.
  unfold Date_now, sync, alone. cbn [rt_world rt_others].
  unfold Upload.upload_audio, try_catch, bind, Upload.uploadBuffer, bind, await.
  cbn [rt_world rt_others tl].
  unfold audio_upload_fails. fold (audio_key w audio).
  pose proof (storage_upload_log "Tracks" (audio_key w audio)
                (buffer audio) (mimetype audio) w) as F.
  destruct (Upload.storage_upload "Tracks" (audio_key w audio) (buffer audio)
              (mimetype audio) w) as [[e|[]] wa] eqn:U.
  all: cbn [fst].
  all: destruct F as (Fd & Fi & Fn & Fp & Fa & Ft & Fo).
  all: unfold ret; cbv beta iota.
  all: change {| rt_world := wa; rt_others := [] |} with (alone wa).
  all: rewrite <- Fn.
  all: destruct (upload_cover_log (files_cover req) wa)
         as (cp & cu & wc & -> & Cd & Ci & Cn & Cp & Ca & Ct & (lc & Co)).
  all: cbv beta iota.
  all: unfold alone; rewrite query_now_alone.
  all: match goal with
       | |- context [Sql.insert_track ?t ?v0 ?d] =>
           destruct (insert_track_row t v0 d) as (row & E & _);
           set (v := v0) in *
       end.
  all: rewrite E; cbn [fst snd rows returning hd_error].
  all: unfold emit, sync, ret; cbn [rt_world rt_others].
  all: exists row, v,
         (heard (new_track_event (Upload.normalize row v (artist_of req)))
                (set_db wc (snd (Sql.insert_track (now wc) v (db wc))))).
  all: rewrite heard_io; cbn [io db set_db storage pool_in_use now].
  all: destruct (heard_frame
                   (new_track_event (Upload.normalize row v (artist_of req)))
                   (set_db wc (snd (Sql.insert_track (now wc) v (db wc)))))
         as (Hd & Hs & Hp & Hn).
  all: rewrite Hd, Hs, Hp, Hn; cbn [io db set_db storage pool_in_use now].
  all: split; [unfold heard, new_track_event; cbn;
               destruct (io wc); reflexivity|].
  all: rewrite Cn, Cd, Fd in E.
  all: rewrite ?Cn, ?Cd, ?Fd.
  all: split; [exact E|].
  all: split; [now rewrite Ci, Fi|].
  all: split; [rewrite Ct, Ft; unfold cover_attempts, cover_key;
               now rewrite Fn|].
  all: split; [rewrite Co, Fo;
               first [now exists lc
                     | eexists (lc ++ [_])%list;
                       now rewrite <- app_assoc]|].
  all: split; [intros Ok; try discriminate; rewrite Co, Fo;
               apply in_or_app; right; now left|].
  all: split; [congruence|].
  all: split; [reflexivity|].
  all: split; [congruence|].
  all: conjuncts; reflexivity.
Qed.

End UploadWorld.

(* ================================================================== *)
(** ** Ingestion: what is stored, sent and uploaded *)

Section IngestionEffects.

Variable svc : services.

Import Facts Terms.


(** X21.  A valid submission attempts one upload for the audio, and one
    more for the cover when there is one, never a second one after a
    failure; it removes and replaces no object of the store, and leaves the
    clients of the pool as it found them. *)
Theorem upload_tries_each_file_once (req : request) (w : world)
    (audio : file) :
  files_audio req = Some audio ->
  title_of req <> "" ->
  exists w1 : world,
    snd (run (Upload.uploadTrack svc req) w) = w1 /\
    attempts (storage w1)
      = (match files_cover req with
         | Some cover =>
             [("Tracks",
               ("covers/" ++ JS.show (now w) ++ "_"
                  ++ Upload.makeSafeName (originalname cover))%string)]
         | None => []
         end ++
         ("Tracks",
          ("tracks/" ++ JS.show (now w) ++ "_"
             ++ Upload.makeSafeName (originalname audio))%string)
         :: attempts (storage w))%list /\
    (exists l, objects (storage w1) = (l ++ objects (storage w))%list) /\
    pool_in_use w1 = pool_in_use w.
Proof.
  intros A T.
  destruct (upload_world svc req w audio A T)
    as (row & v & w1 & R & _ & _ & At & Ob & _ & Po & _).
  exists w1. rewrite (run_alone _ _ _ _ R). conjuncts; auto.
Qed.

Lemma invalid_upload (req : request) (w : world) :
  files_audio req = None \/ title_of req = "" ->
  Upload.uploadTrack svc req (alone w) = (inr Upload.required, alone w).
Proof.
  intros H. unfold Upload.uploadTrack, try_catch, bind, ret.
  fold (title_of req).
  destruct (files_audio req) as [audio|]; [|reflexivity].
  destruct H as [H|H]; [discriminate|]. rewrite H. reflexivity.
Qed.

(** X22.  Whatever is submitted, the upload route answers, and the
    constraints of the store hold afterwards when they held before; it
    writes to no table but [tracks]. *)
Theorem upload_keeps_the_constraints (req : request) (w : world) :
  store_ok (db w) ->
  exists (r : response) (w1 : world),
    run (Upload.uploadTrack svc req) w = (inr r, w1) /\
    store_ok (db w1) /\
    users (db w1) = users (db w) /\
    playlists (db w1) = playlists (db w) /\
    playlist_songs (db w1) = playlist_songs (db w).
Proof.
  intros O.
  destruct (files_audio req) as [audio|] eqn:A.
  - destruct (String.eqb_spec (title_of req) "") as [T|T].
    + exists Upload.required, w.
      split; [apply run_alone; apply invalid_upload; now right|].
      conjuncts; auto.
    + destruct (upload_world svc req w audio A T)
        as (row & v & w1 & R & E & _).
      eexists. exists w1. split; [apply run_alone; exact R|].
      assert (Ed : db w1 = snd (Sql.insert_track (now w) v (db w)))
        by now rewrite E.
      rewrite Ed. split; [now apply store_ok_insert_track|].
      unfold Sql.insert_track. cbn. conjuncts; reflexivity.
  - exists Upload.required, w.
    split; [apply run_alone; apply invalid_upload; now left|].
    conjuncts; auto.
Qed.


End IngestionEffects.

(* ================================================================== *)
(** ** Listing tracks *)

Section ListingTracks.

Variable svc : services.

Import Facts Terms.

Lemma In_firstn {A : Type} (n : nat) (l : list A) (x : A) :
  In x (firstn n l) -> In x l.
Proof.
  intros I. rewrite <- (firstn_skipn n l). apply in_or_app. now left.
Qed.

Lemma StronglySorted_firstn {A : Type} (R : A -> A -> Prop) (n : nat)
    (l : list A) :
  StronglySorted R l -> StronglySorted R (firstn n l).
Proof.
  intros S. revert n. induction S as [|x l S IH F]; intros [|n]; cbn;
    constructor; [apply IH|].
  apply Forall_forall. intros y Iy.
  apply (proj1 (Forall_forall _ _) F). now apply (In_firstn n l).
Qed.

(** [GET /tracks], run alone, for a limit whose text is that of its
    value. *)
Lemma getTracks_alone (limit : option string) (n : Z) (w : world) :
  Listing.limit_of limit = JS.Num n ->
  (Z.abs n < 2 ^ 53)%Z ->
  Listing.getTracks limit (alone w) =
  if (n <? 0)%Z then
    (inr {| Listing.r_status := 500;
            Listing.r_sent :=
              Listing.RError "Failed to fetch tracks"
                             "LIMIT must not be negative" |},
     alone w)
  else
    (inr {| Listing.r_status := 200;
            Listing.r_sent :=
              Listing.RTracks
                (map Listing.present
                   (firstn (Z.to_nat n)
                      (Sql.order_by t_created_at Z.geb (tracks (db w))))) |},
     alone w).
Proof.
  intros E S.
  unfold Listing.getTracks, try_catch, bind, alone.
  rewrite query_alone. unfold Listing.select_tracks.
  rewrite E, (param_int8 n _ S).
  destruct (n <? 0)%Z; cbn [fst snd]; rewrite set_db_same; reflexivity.
Qed.

(** X24.  [GET /tracks] with a limit that is not negative and below [2^53]
    answers 200 with the newest tracks: the rows of [tracks] arranged by
    [created_at], the newest first, cut after as many rows as the limit
    allows.  Each is shown with a [public_url] and a [cover_url] that are
    never empty, and the world is left as it was. *)
Theorem tracks_are_listed (limit : option string) (n : Z) (w : world) :
  Listing.limit_of limit = JS.Num n ->
  (0 <= n < 2 ^ 53)%Z ->
  exists (newest : list track_row) (l : list Listing.listed),
    Permutation newest (tracks (db w)) /\
    StronglySorted (fun a b => (t_created_at b <= t_created_at a)%Z) newest /\
    l = map Listing.present (firstn (Z.to_nat n) newest) /\
    run (Listing.getTracks limit) w
      = (inr {| Listing.r_status := 200;
                Listing.r_sent := Listing.RTracks l |}, w) /\
    length l = Nat.min (Z.to_nat n) (length (tracks (db w))) /\
    StronglySorted
      (fun a b => (Listing.l_created_at b <= Listing.l_created_at a)%Z) l /\
    forall e, In e l ->
      JS.truthy (Listing.l_public_url e) = true /\
      JS.truthy (Listing.l_cover_url e) = true /\
      exists row, In row (tracks (db w)) /\ e = Listing.present row.
Proof.
  intros E N.
  exists (Sql.order_by t_created_at Z.geb (tracks (db w))).
  eexists. split; [|split; [|split; [reflexivity|split; [|split; [|split]]]]].
  - apply Permutation_sym. apply (order_by_perm t_created_at).
  - apply (order_by_descending t_created_at).
  - apply run_alone. rewrite (getTracks_alone limit n w E) by lia.
    destruct (Z.ltb_spec n 0) as [|_]; [lia|].
    reflexivity.
  - rewrite length_map, length_firstn.
    now rewrite <- (Permutation_length
                      (order_by_perm t_created_at Z.geb (tracks (db w)))).
  - apply StronglySorted_map. apply StronglySorted_firstn.
    apply (order_by_descending t_created_at).
  - intros e Ie. apply in_map_iff in Ie. destruct Ie as (row & <- & Ir).
    cbn [Listing.present Listing.l_public_url Listing.l_cover_url].
    split; [apply or_local_truthy|]. split; [apply or_local_truthy|].
    exists row. split; [|reflexivity].
    apply In_firstn in Ir. now apply (order_by_In t_created_at) in Ir.
Qed.

(** X25.  A limit that is missing, has no leading digits, or is 0 stands for
    50: the route then answers as it does to [limit=50]. *)
Theorem tracks_default_limit (limit : option string) (w : world) :
  limit = None \/ JS.parseInt limit = JS.NaN \/
  JS.parseInt limit = JS.Num 0 ->
  run (Listing.getTracks limit) w = run (Listing.getTracks (Some "50")) w.
Proof.
  intros H.
  assert (E : Listing.limit_of limit = Listing.limit_of (Some "50")).
  { unfold Listing.limit_of at 1. destruct H as [->|[H|H]]; [reflexivity| |].
    - destruct limit as [s|]; [|reflexivity]. now rewrite H.
    - destruct limit as [s|]; [|reflexivity]. now rewrite H. }
  unfold run, Listing.getTracks. rewrite E. reflexivity.
Qed.

(** X26.  A negative limit above [-2^53] is passed on to the statement,
    which fails; the route answers 500 with the message of the store as
    detail, and the world is left as it was. *)
Theorem tracks_negative_limit (limit : option string) (n : Z) (w : world) :
  JS.parseInt limit = JS.Num n ->
  (- 2 ^ 53 < n < 0)%Z ->
  run (Listing.getTracks limit) w
    = (inr {| Listing.r_status := 500;
              Listing.r_sent :=
                Listing.RError "Failed to fetch tracks"
                               "LIMIT must not be negative" |}, w).
Proof.
  intros P N.
  assert (E : Listing.limit_of limit = JS.Num n).
  { unfold Listing.limit_of. destruct limit as [s|]; [|discriminate].
    rewrite P. unfold JS.or_number, JS.truthy_number.
    destruct (Z.eqb_spec n 0); [lia | reflexivity]. }
  apply run_alone. rewrite (getTracks_alone limit n w E) by lia.
  destruct (Z.ltb_spec n 0); [reflexivity | lia].
Qed.


End ListingTracks.

(* ================================================================== *)
(** ** Safe file names *)

Section SafeNames.

Import Terms.

Lemma keep_safe_all_safe (s : string) : all_safe (Upload.keep_safe s) = true.
Proof.
  induction s as [|c s IH]; cbn; [reflexivity|].
  destruct (Upload.is_safe c) eqn:E; cbn; [now rewrite E|exact IH].
Qed.

(** X28.  A name made safe holds only letters, digits, underscores, hyphens
    and dots, whatever the name was; white space and separators of paths do
    not get through. *)
Theorem makeSafeName_is_safe (name : option string) :
  all_safe (Upload.makeSafeName name) = true.
Proof. apply keep_safe_all_safe. Qed.

Lemma safe_is_no_space (c : ascii) :
  Upload.is_safe c = true -> JS.is_space c = false.
Proof.
  destruct c as [[] [] [] [] [] [] [] []]; cbn; intros H;
    first [reflexivity | discriminate H].
Qed.

Lemma spaces_to_underscore_safe (s : string) (in_run : bool) :
  all_safe s = true -> Upload.spaces_to_underscore s in_run = s.
Proof.
  revert in_run. induction s as [|c s IH]; intros in_run; cbn;
    [reflexivity|].
  intros H. apply andb_true_iff in H. destruct H as [Hc Hs].
  rewrite (safe_is_no_space c Hc). now rewrite IH.
Qed.

Lemma keep_safe_safe (s : string) :
  all_safe s = true -> Upload.keep_safe s = s.
Proof.
  induction s as [|c s IH]; cbn; [reflexivity|].
  intros H. apply andb_true_iff in H. destruct H as [Hc Hs].
  now rewrite Hc, IH.
Qed.

(** X29.  A name that is not empty and holds only such characters is kept
    as it is. *)
Theorem makeSafeName_keeps_safe_names (s : string) :
  s <> "" ->
  all_safe s = true ->
  Upload.makeSafeName (Some s) = s.
Proof.
  intros N H. unfold Upload.makeSafeName. cbn [JS.or_str].
  apply String.eqb_neq in N. rewrite N.
  now rewrite (spaces_to_underscore_safe s false H), keep_safe_safe.
Qed.

End SafeNames.

(* ================================================================== *)
(** ** After a lost race *)

Section AfterTheRace.

Variable svc : services.

Import Facts Terms.

(** The lost race, with the world it leaves: the row of the winner is there,
    and the client the resolver took is back in the pool. *)
Lemma lost_race_world (req other : request) (w : world)
    (user user' : supabase_user) :
  verified svc req = Some user ->
  verified svc other = Some user' ->
  su_id user' = su_id user ->
  local_id (su_id user) (db w) = None ->
  exists w' : world,
    Playlists.getLocalUserIdFromToken svc req
      {| rt_world := w;
         rt_others :=
           [(fun x => x); (fun x => x); (fun x => x);
            (fun x => snd (run (Playlists.getLocalUserIdFromToken svc other)
                               x))] |}
    = (inr None, alone w') /\
    db w' = with_user user' (db w) /\
    pool_in_use w' = pool_in_use w.
Proof.
  intros V V' S L. eexists.
  unfold Playlists.getLocalUserIdFromToken at 1.
  unfold verified, token in V.
  set (t := JS.or _ _) in *.
  destruct t as [tok|]; [|discriminate].
  destruct (JS.truthy (Some tok)); [|discriminate].
  cbn [negb].
  unfold try_catch at 1. unfold bind at 1.
  unfold Playlists.getUser_caught, await. cbn [rt_world rt_others tl].
  destruct (auth_getUser svc tok) as [e|[u|] [err|]]; try discriminate.
  injection V as ->.
  unfold Playlists.dbQuery, query, query_now, bind, pool_connect, try_finally,
    try_catch, client_query, client_release, await, sync, throw.
  cbn [rt_world rt_others tl fst snd db now set_db set_pool_in_use pool_in_use].
  unfold local_id, rows_of in L.
  unfold Sql.select_user_id at 1. cbn [rows returning].
  destruct (filter _ (users (db w))) as [|x r] eqn:E; [|discriminate].
  cbn [map firstn rows returning rt_world rt_others tl fst snd db now set_db
         set_pool_in_use pool_in_use].
  unfold run, alone.
  match goal with
  | |- context [Playlists.getLocalUserIdFromToken svc other
                  {| rt_world := ?w0; rt_others := [] |}] =>
      pose proof (resolver_alone svc other w0) as R; unfold alone in R;
      rewrite R; clear R
  end.
  rewrite V', S. unfold local_id, rows_of.
  cbn [db set_db set_pool_in_use]. rewrite E.
  cbn [map hd_error snd rt_world db set_db set_pool_in_use].
  unfold with_user. rewrite S.
  unfold Sql.insert_user at 2 3 4. rewrite (existsb_filter_nil _ _ E).
  cbn [snd]. unfold Sql.insert_user. cbn [users].
  rewrite existsb_app. cbn [existsb u_auth_user_id].
  rewrite String.eqb_refl, orb_true_r.
  split; [reflexivity|].
  cbn [db set_db set_pool_in_use pool_in_use rt_world].
  rewrite ?(existsb_filter_nil _ _ E). split; reflexivity.
Qed.

(** X30.  The 401 of a lost race does not last: the row the winner created
    is in the store, the resolver's client is back in the pool, and the same
    request, resolved again, gets the id of that row. *)
Theorem retry_after_lost_race (req other : request) (w : world)
    (user user' : supabase_user) :
  verified svc req = Some user ->
  verified svc other = Some user' ->
  su_id user' = su_id user ->
  local_id (su_id user) (db w) = None ->
  exists w' : world,
    Playlists.getLocalUserIdFromToken svc req
      {| rt_world := w;
         rt_others :=
           [(fun x => x); (fun x => x); (fun x => x);
            (fun x => snd (run (Playlists.getLocalUserIdFromToken svc other)
                               x))] |}
    = (inr None, alone w') /\
    pool_in_use w' = pool_in_use w /\
    run (Playlists.getLocalUserIdFromToken svc req) w'
      = (inr (Some (users_seq (db w))), w').
Proof.
  intros V V' S L.
  destruct (lost_race_world req other w user user' V V' S L)
    as (w' & R & D & P).
  exists w'. split; [exact R|]. split; [exact P|].
  apply run_alone. apply resolver_found with (user := user); [exact V|].
  unfold local_id, rows_of in L |- *. rewrite D.
  unfold with_user, Sql.insert_user.
  destruct (filter _ (users (db w))) as [|x r] eqn:E; [|discriminate].
  rewrite S, (existsb_filter_nil _ _ E). cbn [snd users].
  rewrite filter_app, E. cbn. now rewrite String.eqb_refl.
Qed.

End AfterTheRace.

(* ================================================================== *)
(** ** The theorems at work *)

Lemma sample_store_ok : Terms.store_ok Sample.db0.
Proof.
  unfold Terms.store_ok, Facts.unique_subjects, Terms.unique_pairs,
    Terms.keys_below.
  cbn. conjuncts; try (repeat constructor; cbn; intuition discriminate);
    intros i H; intuition lia.
Qed.

(** A token the provider does not know. *)
Lemma unverified_is_unauthorized_witness :
  run (Playlists.getLocalUserIdFromToken Sample.svc Cases.stranger) Sample.w0
    = (inr None, Sample.w0) /\
  run (Playlists.listPlaylists Sample.svc Cases.stranger) Sample.w0
    = (inr {| status := 401; sent := JError "Unauthorized" |}, Sample.w0) /\
  run (Playlists.createPlaylist Sample.svc Cases.stranger) Sample.w0
    = (inr {| status := 401; sent := JError "Unauthorized" |}, Sample.w0) /\
  run (Playlists.handleAddTrack Sample.svc Cases.stranger) Sample.w0
    = (inr {| status := 401; sent := JError "Unauthorized" |}, Sample.w0) /\
  run (Playlists.handleRemoveTrack Sample.svc Cases.stranger) Sample.w0
    = (inr {| status := 401; sent := JError "Unauthorized" |}, Sample.w0).
Proof.
  apply (unverified_is_unauthorized Sample.svc Cases.stranger Sample.w0).
  reflexivity.
Defined.

(** Alice, when her row has the id 0. *)
Lemma zero_id_is_unauthorized_witness :
  run (Playlists.listPlaylists Sample.svc Sample.alice_adds_7) Cases.w_zero
    = (inr {| status := 401; sent := JError "Unauthorized" |}, Cases.w_zero) /\
  run (Playlists.createPlaylist Sample.svc Sample.alice_adds_7) Cases.w_zero
    = (inr {| status := 401; sent := JError "Unauthorized" |}, Cases.w_zero) /\
  run (Playlists.handleAddTrack Sample.svc Sample.alice_adds_7) Cases.w_zero
    = (inr {| status := 401; sent := JError "Unauthorized" |}, Cases.w_zero) /\
  run (Playlists.handleRemoveTrack Sample.svc Sample.alice_adds_7) Cases.w_zero
    = (inr {| status := 401; sent := JError "Unauthorized" |}, Cases.w_zero).
Proof.
  apply (zero_id_is_unauthorized Sample.svc Sample.alice_adds_7 Cases.w_zero
           Sample.alice).
  - reflexivity.
  - vm_compute. reflexivity.
Defined.

(** Bob sends [abc] for a track of Alice's playlist. *)
Lemma non_integer_ids_are_rejected_witness :
  exists w1 : world,
    run (Playlists.handleAddTrack Sample.svc Sample.bob_sends_abc) Sample.w0
      = (inr {| status := 400;
                sent := JError "playlistId and trackId must be integers" |},
         w1) /\
    run (Playlists.handleRemoveTrack Sample.svc Sample.bob_sends_abc) Sample.w0
      = (inr {| status := 400;
                sent := JError "playlistId and trackId must be integers" |},
         w1) /\
    playlist_songs (db w1) = playlist_songs (db Sample.w0) /\
    io w1 = io Sample.w0.
Proof.
  apply (non_integer_ids_are_rejected Sample.svc Sample.bob_sends_abc
           Sample.w0 2 (Cases.track_fields "abc")).
  - vm_compute. reflexivity.
  - discriminate.
  - reflexivity.
  - right. vm_compute. reflexivity.
Defined.

(** Alice sends no body. *)
Lemma missing_body_is_server_error_witness :
  exists w1 : world,
    run (Playlists.handleAddTrack Sample.svc Cases.no_body) Sample.w0
      = (inr {| status := 500;
                sent := JError "Failed to add track to playlist" |}, w1) /\
    run (Playlists.handleRemoveTrack Sample.svc Cases.no_body) Sample.w0
      = (inr {| status := 500;
                sent := JError "Failed to remove track from playlist" |},
         w1) /\
    playlist_songs (db w1) = playlist_songs (db Sample.w0) /\
    io w1 = io Sample.w0.
Proof.
  apply (missing_body_is_server_error Sample.svc Cases.no_body Sample.w0 1).
  - vm_compute. reflexivity.
  - discriminate.
  - reflexivity.
Defined.

(** Alice names her playlist 10 and a track id of 20 nines. *)
Lemma ids_beyond_the_store_witness :
  exists w1 : world,
    run (Playlists.handleAddTrack Sample.svc Cases.alice_adds_20_nines)
        Sample.w0
      = (inr {| status := 500;
                sent := JError "Failed to add track to playlist" |}, w1) /\
    run (Playlists.handleRemoveTrack Sample.svc Cases.alice_adds_20_nines)
        Sample.w0
      = (inr {| status := 500;
                sent := JError "Failed to remove track from playlist" |},
         w1) /\
    playlist_songs (db w1) = playlist_songs (db Sample.w0) /\
    io w1 = io Sample.w0.
Proof.
  apply (ids_beyond_the_store Sample.svc Cases.alice_adds_20_nines Sample.w0
           1 10 (10 ^ 20) (Cases.track_fields (Cases.nines 20))).
  - vm_compute. reflexivity.
  - discriminate.
  - vm_compute. reflexivity.
  - reflexivity.
  - vm_compute. reflexivity.
  - right. split; [reflexivity|]. split; [vm_compute; reflexivity|].
    vm_compute. discriminate.
Defined.

(** [Bearer tok-alice] in the header, and Bob's token in the cookies. *)
Lemma token_of_header_witness :
  Playlists.getLocalUserIdFromToken Sample.svc
    (Terms.with_header Sample.bob_adds_7 (Some ("Bearer" ++ " " ++ "tok-alice")))
    (alone Sample.w0)
  = Playlists.getLocalUserIdFromToken Sample.svc
      (Terms.with_header Sample.bob_adds_7 (Some "tok-alice"))
      (alone Sample.w0) /\
  Playlists.getLocalUserIdFromToken Sample.svc
    (Terms.with_cookies
       (Terms.with_header Sample.bob_adds_7 (Some "tok-alice"))
       (Some "Bearer tok-bob") (Some "tok-bob") None)
    (alone Sample.w0)
  = Playlists.getLocalUserIdFromToken Sample.svc
      (Terms.with_header Sample.bob_adds_7 (Some "tok-alice"))
      (alone Sample.w0).
Proof.
  apply (token_of_header Sample.svc Sample.bob_adds_7 "Bearer" "tok-alice").
  - reflexivity.
  - reflexivity.
  - discriminate.
Defined.

(** Alice's add, as the router serves it. *)
Lemma routes_keep_the_constraints_witness :
  exists (r : response) (w1 : world),
    run (Playlists.handleAddTrack Sample.svc Cases.routed_add) Sample.w0
      = (inr r, w1) /\
    Terms.store_ok (db w1).
Proof.
  apply (routes_keep_the_constraints Sample.svc Playlists.POST ["10"; "add"]
           Sample.alice_adds_7).
  - reflexivity.
  - exact sample_store_ok.
Defined.

Lemma routes_leave_the_rest_witness :
  tracks (db (snd (run (Playlists.handleRemoveTrack Sample.svc
                          Cases.routed_add) Sample.w1)))
    = tracks (db Sample.w1) /\
  storage (snd (run (Playlists.handleRemoveTrack Sample.svc
                       Cases.routed_add) Sample.w1))
    = storage Sample.w1 /\
  pool_in_use (snd (run (Playlists.handleRemoveTrack Sample.svc
                           Cases.routed_add) Sample.w1))
    = pool_in_use Sample.w1 /\
  (exists l, users (db (snd (run (Playlists.handleRemoveTrack Sample.svc
                                    Cases.routed_add) Sample.w1)))
             = (users (db Sample.w1) ++ l)%list) /\
  (exists l, playlists (db (snd (run (Playlists.handleRemoveTrack Sample.svc
                                        Cases.routed_add) Sample.w1)))
             = (playlists (db Sample.w1) ++ l)%list).
Proof.
  apply (routes_leave_the_rest Sample.svc Playlists.POST ["10"; "remove"]
           Sample.alice_adds_7).
  reflexivity.
Defined.

(** Alice asks for a playlist named with blanks. *)
Lemma create_needs_a_name_witness :
  exists w1 : world,
    run (Playlists.createPlaylist Sample.svc
           (Cases.alice_creates (Some "   "))) Sample.w0
      = (inr {| status := 400; sent := JError "Name is required" |}, w1) /\
    playlists (db w1) = playlists (db Sample.w0) /\
    playlists_seq (db w1) = playlists_seq (db Sample.w0) /\
    io w1 = io Sample.w0.
Proof.
  apply (create_needs_a_name Sample.svc (Cases.alice_creates (Some "   "))
           Sample.w0 1).
  - vm_compute. reflexivity.
  - discriminate.
  - vm_compute. reflexivity.
Defined.



(** Alice lists her playlists. *)
Lemma list_shows_own_playlists_witness :
  exists (l : list (playlist_info * list Sql.listed_track)) (w1 : world),
    run (Playlists.listPlaylists Sample.svc Sample.alice_adds_7) Sample.w1
      = (inr {| status := 200;
                sent := JPlaylists l
                          "/mnt/data/Screenshot 2025-11-25 at 11.38.56 PM.png" |},
         w1) /\
    Permutation (map fst l)
      (map info_of
         (filter (fun p => (pl_user_id p =? 1)%Z) (playlists (db Sample.w1)))) /\
    StronglySorted (fun a b => (pi_created_at b <= pi_created_at a)%Z)
      (map fst l) /\
    Facts.same_but_users Sample.w1 w1.
Proof.
  apply (list_shows_own_playlists Sample.svc Sample.alice_adds_7 Sample.w1 1).
  - vm_compute. reflexivity.
  - discriminate.
Defined.

Lemma list_shows_members_witness :
  exists (l : list (playlist_info * list Sql.listed_track)) (w1 : world),
    run (Playlists.listPlaylists Sample.svc Sample.alice_adds_7) Sample.w1
      = (inr {| status := 200;
                sent := JPlaylists l
                          "/mnt/data/Screenshot 2025-11-25 at 11.38.56 PM.png" |},
         w1) /\
    forall pl ts, In (pl, ts) l ->
      forall t, In t (map Sql.lt_track_id ts) <->
                Facts.member (pi_id pl) t (db Sample.w1) = true.
Proof.
  destruct (list_shows_members Sample.svc Sample.alice_adds_7 Sample.w1 1)
    as (l & w1 & R & H).
  - vm_compute. reflexivity.
  - discriminate.
  - exists l, w1. split; [exact R|].
    intros pl ts I. exact (proj1 (H pl ts I)).
Defined.

Lemma list_shows_members_in_order_witness :
  exists (l : list (playlist_info * list Sql.listed_track)) (w1 : world),
    run (Playlists.listPlaylists Sample.svc Sample.alice_adds_7) Sample.w1
      = (inr {| status := 200;
                sent := JPlaylists l
                          "/mnt/data/Screenshot 2025-11-25 at 11.38.56 PM.png" |},
         w1) /\
    forall pl ts, In (pl, ts) l ->
      exists members : list song_row,
        Permutation members
          (filter (fun r => (ps_playlist_id r =? pi_id pl)%Z)
                  (playlist_songs (db Sample.w1))) /\
        StronglySorted (fun a b => (ps_added_at a <= ps_added_at b)%Z)
          members /\
        map Sql.lt_track_id ts = map ps_track_id members.
Proof.
  apply (list_shows_members_in_order Sample.svc Sample.alice_adds_7
           Sample.w1 1).
  - vm_compute. reflexivity.
  - discriminate.
  - constructor.
Defined.

(** Alice adds track 7 to her playlist 10 and lists her playlists. *)
Lemma added_track_is_listed_witness :
  exists (r : response) (w1 : world)
         (l : list (playlist_info * list Sql.listed_track)) (w2 : world),
    run (Playlists.handleAddTrack Sample.svc Sample.alice_adds_7) Sample.w0
      = (inr r, w1) /\
    status r = 200 /\
    run (Playlists.listPlaylists Sample.svc Sample.alice_adds_to_99) w1
      = (inr {| status := 200;
                sent := JPlaylists l
                          "/mnt/data/Screenshot 2025-11-25 at 11.38.56 PM.png" |},
         w2) /\
    exists pl ts, In (pl, ts) l /\ pi_id pl = 10 /\
                  In 7 (map Sql.lt_track_id ts).
Proof.
  apply (added_track_is_listed Sample.svc Sample.alice_adds_7
           Sample.alice_adds_to_99 Sample.w0 1 10 7 Sample.alice Sample.alice
           (Cases.track_fields "7")).
  - reflexivity.
  - reflexivity.
  - reflexivity.
  - vm_compute. reflexivity.
  - discriminate.
  - vm_compute. reflexivity.
  - reflexivity.
  - vm_compute. reflexivity.
  - reflexivity.
  - reflexivity.
  - vm_compute. reflexivity.
Defined.

(** Alice removes track 7 from her playlist 10, which holds it. *)
Lemma remove_clears_the_pair_witness :
  exists w1 : world,
    run (Playlists.handleRemoveTrack Sample.svc Sample.alice_adds_7) Sample.w1
      = (inr {| status := 200;
                sent := JRemoved true (Facts.count_pair 10 7 (db Sample.w1)) |},
         w1) /\
    playlist_songs (db w1)
      = filter (fun r => negb (Sql.same_pair 10 7 r))
               (playlist_songs (db Sample.w1)) /\
    Facts.member 10 7 (db w1) = false /\
    forall p t, (p, t) <> (10, 7) ->
                Facts.member p t (db w1) = Facts.member p t (db Sample.w1).
Proof.
  apply (remove_clears_the_pair Sample.svc Sample.alice_adds_7 Sample.w1
           1 10 7 (Cases.track_fields "7")).
  - vm_compute. reflexivity.
  - discriminate.
  - vm_compute. reflexivity.
  - reflexivity.
  - vm_compute. reflexivity.
  - reflexivity.
  - reflexivity.
  - vm_compute. reflexivity.
Defined.


(** Alice adds track 7 to her empty playlist 10 and removes it. *)
Lemma add_then_remove_witness :
  exists w1 w2 : world,
    run (Playlists.handleAddTrack Sample.svc Sample.alice_adds_7) Sample.w0
      = (inr {| status := 200; sent := JAdded true true |}, w1) /\
    run (Playlists.handleRemoveTrack Sample.svc Sample.alice_adds_7) w1
      = (inr {| status := 200; sent := JRemoved true 1 |}, w2) /\
    playlist_songs (db w2) = playlist_songs (db Sample.w0).
Proof.
  apply (add_then_remove Sample.svc Sample.alice_adds_7 Sample.w0
           1 10 7 (Cases.track_fields "7")).
  - vm_compute. reflexivity.
  - discriminate.
  - vm_compute. reflexivity.
  - reflexivity.
  - vm_compute. reflexivity.
  - reflexivity.
  - reflexivity.
  - vm_compute. reflexivity.
  - vm_compute. reflexivity.
Defined.


Lemma upload_tries_each_file_once_witness :
  exists w1 : world,
    snd (run (Upload.uploadTrack Sample.svc Sample.night_drive) Sample.w0)
      = w1 /\
    attempts (storage w1)
      = [("Tracks", "tracks/2000_night_drive.mp3")] /\
    pool_in_use w1 = pool_in_use Sample.w0.
Proof.
  destruct (upload_tries_each_file_once Sample.svc Sample.night_drive
              Sample.w0 Sample.night_drive_mp3)
    as (w1 & R & A & _ & P).
  - reflexivity.
  - vm_compute. discriminate.
  - exists w1. conjuncts; [exact R | | exact P].
    rewrite A. vm_compute. reflexivity.
Defined.

Lemma upload_keeps_the_constraints_witness :
  exists (r : response) (w1 : world),
    run (Upload.uploadTrack Sample.svc Sample.night_drive) Sample.w0
      = (inr r, w1) /\
    Terms.store_ok (db w1) /\
    users (db w1) = users (db Sample.w0) /\
    playlists (db w1) = playlists (db Sample.w0) /\
    playlist_songs (db w1) = playlist_songs (db Sample.w0).
Proof.
  apply (upload_keeps_the_constraints Sample.svc Sample.night_drive
           Sample.w0).
  exact sample_store_ok.
Defined.


(** The listing without a limit. *)
Lemma tracks_are_listed_witness :
  exists (newest : list track_row) (l : list Listing.listed),
    Permutation newest (tracks (db Sample.w0)) /\
    StronglySorted (fun a b => (t_created_at b <= t_created_at a)%Z) newest /\
    l = map Listing.present (firstn (Z.to_nat 50) newest) /\
    run (Listing.getTracks None) Sample.w0
      = (inr {| Listing.r_status := 200;
                Listing.r_sent := Listing.RTracks l |}, Sample.w0).
Proof.
  destruct (tracks_are_listed None 50 Sample.w0)
    as (newest & l & P & S & E & R & _).
  - reflexivity.
  - split; [discriminate | reflexivity].
  - exists newest, l. conjuncts; assumption.
Defined.

(** [limit=abc]. *)
Lemma tracks_default_limit_witness :
  run (Listing.getTracks (Some "abc")) Sample.w0
    = run (Listing.getTracks (Some "50")) Sample.w0.
Proof.
  apply (tracks_default_limit (Some "abc") Sample.w0).
  right. left. vm_compute. reflexivity.
Defined.

(** [limit=-3]. *)
Lemma tracks_negative_limit_witness :
  run (Listing.getTracks (Some "-3")) Sample.w0
    = (inr {| Listing.r_status := 500;
              Listing.r_sent :=
                Listing.RError "Failed to fetch tracks"
                               "LIMIT must not be negative" |}, Sample.w0).
Proof.
  apply (tracks_negative_limit (Some "-3") (-3) Sample.w0).
  - vm_compute. reflexivity.
  - split; reflexivity.
Defined.


Lemma makeSafeName_keeps_safe_names_witness :
  Upload.makeSafeName (Some "night_drive-01.mp3") = "night_drive-01.mp3".
Proof.
  apply (makeSafeName_keeps_safe_names "night_drive-01.mp3").
  - discriminate.
  - reflexivity.
Defined.

(** Alice loses the race on a store that has seen nobody, and asks again. *)
Lemma retry_after_lost_race_witness :
  exists w' : world,
    Playlists.getLocalUserIdFromToken Sample.svc Sample.alice_adds_7
      {| rt_world := Cases.w_empty;
         rt_others :=
           [(fun x => x); (fun x => x); (fun x => x);
            (fun x => snd (run (Playlists.getLocalUserIdFromToken Sample.svc
                                  Sample.alice_adds_to_99) x))] |}
    = (inr None, alone w') /\
    pool_in_use w' = pool_in_use Cases.w_empty /\
    run (Playlists.getLocalUserIdFromToken Sample.svc Sample.alice_adds_7) w'
      = (inr (Some 1), w').
Proof.
  apply (retry_after_lost_race Sample.svc Sample.alice_adds_7
           Sample.alice_adds_to_99 Cases.w_empty Sample.alice Sample.alice).
  - reflexivity.
  - reflexivity.
  - reflexivity.
  - reflexivity.
Defined.
